(** * nanomotion: the chunked streaming protocol of the stop-motion generator

    A shallow embedding of
      - [src/lib/ai.ts]                  ([nanobanana], [generatePosesFromImage],
                                          [generatePosesFromImageUrl]),
      - [src/lib/blob.ts]                ([uploadToBlob]),
      - [src/app/api/stop-motion/route.ts] ([POST]),
      - [src/app/page.tsx]               ([generateAnimation] and its read loop, the
                                          file picker, the player and the timeline),
    together with the parts of the JavaScript platform these functions call
    ([String.prototype.split], [String.prototype.trim], [JSON.stringify],
    [JSON.parse], [TextEncoder], [TextDecoder], [ReadableStream]'s
    controller). *)

From Stdlib Require Import String Ascii DecimalString NArith Arith Bool Lia List.
From Stdlib Require Import ZArith Permutation.
Import ListNotations.
Local Open Scope N_scope.
Set Warnings "-register-all".

(** ** JavaScript strings

    A JavaScript string is a sequence of UTF-16 code units. *)

Module JS.

Definition codeunit := N.
Definition jsstring := list codeunit.

(** A string literal of the source (all the literals of the program are
    ASCII). *)
Definition lit (s : string) : jsstring :=
  map N_of_ascii (list_ascii_of_string s).

Fixpoint eqb (a b : jsstring) : bool :=
  match a, b with
  | [], [] => true
  | x :: a', y :: b' => (x =? y) && eqb a' b'
  | _, _ => false
  end.

(** [s.startsWith(p)]. *)
Fixpoint starts_with (p s : jsstring) : bool :=
  match p, s with
  | [], _ => true
  | a :: p', b :: s' => (a =? b) && starts_with p' s'
  | _ :: _, [] => false
  end.

(** WhiteSpace and LineTerminator code units, the ones [trim] strips. *)
Definition is_white_space (c : codeunit) : bool :=
  (c =? 9) || (c =? 10) || (c =? 11) || (c =? 12) || (c =? 13) || (c =? 32)
  || (c =? 160) || (c =? 5760) || ((8192 <=? c) && (c <=? 8202))
  || (c =? 8232) || (c =? 8233) || (c =? 8239) || (c =? 8287)
  || (c =? 12288) || (c =? 65279).

Fixpoint trimStart (s : jsstring) : jsstring :=
  match s with
  | [] => []
  | c :: s' => if is_white_space c then trimStart s' else s
  end.

Definition trimEnd (s : jsstring) : jsstring := rev (trimStart (rev s)).

(** [s.trim()]. *)
Definition trim (s : jsstring) : jsstring := trimEnd (trimStart s).

(** The leftmost occurrence of [sep] in [s]: the text before it and the text
    after it. *)
Fixpoint cut (sep s : jsstring) {struct s} : option (jsstring * jsstring) :=
  if starts_with sep s then Some ([], skipn (length sep) s)
  else match s with
       | [] => None
       | c :: s' =>
           match cut sep s' with
           | Some (p, q) => Some (c :: p, q)
           | None => None
           end
       end.

Fixpoint split_fuel (n : nat) (sep s : jsstring) : list jsstring :=
  match n with
  | O => [s]
  | S n' =>
      match cut sep s with
      | None => [s]
      | Some (p, q) => p :: split_fuel n' sep q
      end
  end.

(** [s.split(sep)] for a string separator: the pieces between the leftmost,
    non-overlapping occurrences of [sep]; always at least one piece.  Every
    cut removes at least one code unit, so [length s] rounds are enough. *)
Definition split (s sep : jsstring) : list jsstring :=
  match sep with
  | [] => map (fun c => [c]) s
  | _ :: _ => split_fuel (length s) sep s
  end.

(** [s.includes(t)]. *)
Definition includes (s t : jsstring) : bool :=
  match cut t s with Some _ => true | None => false end.

End JS.

(** ** JSON *)

Module JSON.
Import JS.

(** JavaScript values, as far as [JSON.parse] produces them and
    [JSON.stringify] consumes them.  A number is kept as the literal it was
    read from (its value is a double, which this development never needs);
    an object is the list of its own properties in creation order. *)
Inductive value : Type :=
| VUndefined
| VNull
| VBool (b : bool)
| VNum (literal : jsstring)
| VStr (s : jsstring)
| VArr (elems : list value)
| VObj (props : list (jsstring * value)).

(** [o[k]] on an object's own properties; [JSON.parse] lets a later
    duplicate of a key overwrite an earlier one. *)
Fixpoint lookup (k : jsstring) (props : list (jsstring * value)) : option value :=
  match props with
  | [] => None
  | (k', v) :: rest =>
      match lookup k rest with
      | Some w => Some w
      | None => if JS.eqb k k' then Some v else None
      end
  end.

(** *** JSON.stringify *)

Definition is_lead_surrogate (c : codeunit) : bool := (55296 <=? c) && (c <=? 56319).
Definition is_trail_surrogate (c : codeunit) : bool := (56320 <=? c) && (c <=? 57343).

Definition hex_digit (d : N) : codeunit := if d <? 10 then 48 + d else 87 + d.

(** [\uXXXX], lower-case hexadecimal. *)
Definition unicode_escape (c : codeunit) : jsstring :=
  [92; 117; hex_digit (c / 4096 mod 16); hex_digit (c / 256 mod 16);
   hex_digit (c / 16 mod 16); hex_digit (c mod 16)].

(** QuoteJSONString on one code unit that is not part of a surrogate pair. *)
Definition quote_unit (c : codeunit) : jsstring :=
  if c =? 8 then [92; 98]
  else if c =? 9 then [92; 116]
  else if c =? 10 then [92; 110]
  else if c =? 12 then [92; 102]
  else if c =? 13 then [92; 114]
  else if c =? 34 then [92; 34]
  else if c =? 92 then [92; 92]
  else if (c <? 32) || is_lead_surrogate c || is_trail_surrogate c
       then unicode_escape c
  else [c].

(** A surrogate pair is copied; a lone surrogate is escaped. *)
Fixpoint quote_body (s : jsstring) : jsstring :=
  match s with
  | [] => []
  | c :: tl =>
      if is_lead_surrogate c then
        match tl with
        | d :: tl' =>
            if is_trail_surrogate d then c :: d :: quote_body tl'
            else unicode_escape c ++ quote_body tl
        | [] => unicode_escape c
        end
      else quote_unit c ++ quote_body tl
  end.

Definition QuoteJSONString (s : jsstring) : jsstring :=
  34 :: quote_body s ++ [34].

Fixpoint join_comma (l : list jsstring) : jsstring :=
  match l with
  | [] => []
  | [x] => x
  | x :: ((_ :: _) as rest) => x ++ 44 :: join_comma rest
  end.

(** SerializeJSONProperty without indentation; [None] is [undefined]. *)
Fixpoint serialize (v : value) : option jsstring :=
  match v with
  | VUndefined => None
  | VNull => Some (lit "null")
  | VBool true => Some (lit "true")
  | VBool false => Some (lit "false")
  | VNum l => Some l
  | VStr s => Some (QuoteJSONString s)
  | VArr elems =>
      let items :=
        (fix go (l : list value) : list jsstring :=
           match l with
           | [] => []
           | x :: l' =>
               match serialize x with
               | Some t => t
               | None => lit "null"
               end :: go l'
           end) elems in
      Some (91 :: join_comma items ++ [93])
  | VObj props =>
      let members :=
        (fix go (l : list (jsstring * value)) : list jsstring :=
           match l with
           | [] => []
           | (k, x) :: l' =>
               match serialize x with
               | Some t => (QuoteJSONString k ++ 58 :: t) :: go l'
               | None => go l'
               end
           end) props in
      Some (123 :: join_comma members ++ [125])
  end.

(** [JSON.stringify(v)]. *)
Definition stringify (v : value) : option jsstring := serialize v.

(** [JSON.stringify(v) + tail]: string concatenation converts [undefined]
    to its name. *)
Definition stringify_plus (v : value) (tail : jsstring) : jsstring :=
  match stringify v with
  | Some s => s ++ tail
  | None => lit "undefined" ++ tail
  end.

(** *** JSON.parse *)

Definition is_json_ws (c : codeunit) : bool :=
  (c =? 9) || (c =? 10) || (c =? 13) || (c =? 32).

Fixpoint skip_ws (s : jsstring) : jsstring :=
  match s with
  | [] => []
  | c :: s' => if is_json_ws c then skip_ws s' else s
  end.

Definition hex_value (c : codeunit) : option N :=
  if (48 <=? c) && (c <=? 57) then Some (c - 48)
  else if (97 <=? c) && (c <=? 102) then Some (c - 87)
  else if (65 <=? c) && (c <=? 70) then Some (c - 55)
  else None.

Definition hex4 (a b c d : codeunit) : option codeunit :=
  match hex_value a, hex_value b, hex_value c, hex_value d with
  | Some x, Some y, Some z, Some w => Some (x * 4096 + y * 256 + z * 16 + w)
  | _, _, _, _ => None
  end.

Definition unescape (e : codeunit) : option codeunit :=
  if e =? 34 then Some 34
  else if e =? 92 then Some 92
  else if e =? 47 then Some 47
  else if e =? 98 then Some 8
  else if e =? 102 then Some 12
  else if e =? 110 then Some 10
  else if e =? 114 then Some 13
  else if e =? 116 then Some 9
  else None.

Definition cons_fst {A B} (a : A) (r : option (list A * B)) : option (list A * B) :=
  match r with
  | Some (l, b) => Some (a :: l, b)
  | None => None
  end.

(** The characters of a string literal after its opening quote, up to and
    including the closing quote. *)
Fixpoint parse_chars (s : jsstring) : option (jsstring * jsstring) :=
  match s with
  | [] => None
  | c :: r =>
      if c =? 34 then Some ([], r)
      else if c =? 92 then
        match r with
        | [] => None
        | e :: r' =>
            if e =? 117 then
              match r' with
              | h1 :: h2 :: h3 :: h4 :: r'' =>
                  match hex4 h1 h2 h3 h4 with
                  | Some u => cons_fst u (parse_chars r'')
                  | None => None
                  end
              | _ => None
              end
            else
              match unescape e with
              | Some u => cons_fst u (parse_chars r')
              | None => None
              end
        end
      else if c <? 32 then None
      else cons_fst c (parse_chars r)
  end.

Definition is_digit (c : codeunit) : bool := (48 <=? c) && (c <=? 57).

Fixpoint take_digits (s : jsstring) : jsstring * jsstring :=
  match s with
  | c :: s' =>
      if is_digit c then let (d, r) := take_digits s' in (c :: d, r)
      else ([], s)
  | [] => ([], [])
  end.

(** A number literal: an optional minus sign; a zero, or a non-zero digit and
    more digits; optionally a point and digits; optionally an exponent mark,
    a sign and digits. *)
Definition parse_number (s : jsstring) : option (jsstring * jsstring) :=
  let (sign, s1) :=
    match s with
    | 45 :: r => ([45], r)
    | _ => ([], s)
    end in
  let int_part :=
    match s1 with
    | 48 :: r => Some ([48], r)
    | c :: _ =>
        if is_digit c then Some (take_digits s1) else None
    | [] => None
    end in
  match int_part with
  | None => None
  | Some (ip, s2) =>
      let frac_part :=
        match s2 with
        | 46 :: r =>
            match take_digits r with
            | ([], _) => None
            | (d, r') => Some (46 :: d, r')
            end
        | _ => Some ([], s2)
        end in
      match frac_part with
      | None => None
      | Some (fp, s3) =>
          let exp_part :=
            match s3 with
            | c :: r =>
                if (c =? 101) || (c =? 69) then
                  let (sg, r1) :=
                    match r with
                    | x :: r0 =>
                        if (x =? 43) || (x =? 45) then ([x], r0) else ([], r)
                    | [] => ([], r)
                    end in
                  match take_digits r1 with
                  | ([], _) => None
                  | (d, r') => Some (c :: sg ++ d, r')
                  end
                else Some ([], s3)
            | [] => Some ([], s3)
            end in
          match exp_part with
          | None => None
          | Some (ep, s4) => Some (sign ++ ip ++ fp ++ ep, s4)
          end
      end
  end.

(** Recursive descent over the JSON grammar.  Every call spends one unit of
    fuel; [parse] provides enough for any text. *)
Fixpoint parse_value (n : nat) (s : jsstring) : option (value * jsstring) :=
  match n with
  | O => None
  | S n' =>
      match skip_ws s with
      | [] => None
      | c :: r =>
          if c =? 34 then
            match parse_chars r with
            | Some (str, r') => Some (VStr str, r')
            | None => None
            end
          else if c =? 91 then
            match skip_ws r with
            | 93 :: r' => Some (VArr [], r')
            | _ =>
                match parse_elements n' r with
                | Some (l, r') => Some (VArr l, r')
                | None => None
                end
            end
          else if c =? 123 then
            match skip_ws r with
            | 125 :: r' => Some (VObj [], r')
            | _ =>
                match parse_members n' r with
                | Some (l, r') => Some (VObj l, r')
                | None => None
                end
            end
          else if starts_with (lit "true") (c :: r) then Some (VBool true, skipn 4 (c :: r))
          else if starts_with (lit "false") (c :: r) then Some (VBool false, skipn 5 (c :: r))
          else if starts_with (lit "null") (c :: r) then Some (VNull, skipn 4 (c :: r))
          else
            match parse_number (c :: r) with
            | Some (l, r') => Some (VNum l, r')
            | None => None
            end
      end
  end

with parse_elements (n : nat) (s : jsstring) : option (list value * jsstring) :=
  match n with
  | O => None
  | S n' =>
      match parse_value n' s with
      | None => None
      | Some (v, r) =>
          match skip_ws r with
          | 44 :: r' =>
              match parse_elements n' r' with
              | Some (l, r'') => Some (v :: l, r'')
              | None => None
              end
          | 93 :: r' => Some ([v], r')
          | _ => None
          end
      end
  end

with parse_members (n : nat) (s : jsstring) : option (list (jsstring * value) * jsstring) :=
  match n with
  | O => None
  | S n' =>
      match skip_ws s with
      | 34 :: r =>
          match parse_chars r with
          | None => None
          | Some (k, r1) =>
              match skip_ws r1 with
              | 58 :: r2 =>
                  match parse_value n' r2 with
                  | None => None
                  | Some (v, r3) =>
                      match skip_ws r3 with
                      | 44 :: r4 =>
                          match parse_members n' r4 with
                          | Some (l, r5) => Some ((k, v) :: l, r5)
                          | None => None
                          end
                      | 125 :: r4 => Some ([(k, v)], r4)
                      | _ => None
                      end
                  end
              | _ => None
              end
          end
      | _ => None
      end
  end.

(** [JSON.parse(text)]; [None] is a thrown SyntaxError. *)
Definition parse (text : jsstring) : option value :=
  match parse_value (2 * length text + 2) text with
  | Some (v, r) =>
      match skip_ws r with
      | [] => Some v
      | _ :: _ => None
      end
  | None => None
  end.

End JSON.

(** ** Values at run time: conversions and property reads *)

Module Value.
Import JS JSON.

(** What a [throw] carries: an [Error] with its message, or anything else. *)
Inductive thrown : Type :=
| ThrowError (message : jsstring)
| ThrowOther.

Definition TypeError := ThrowError.

(** What the engine decides and this development takes as given: the value
    of a JSON number is an IEEE double, so its printing and its truth value
    are functions of the literal; and the message of the SyntaxError that
    [JSON.parse] throws is a function of the rejected text. *)
Class Engine : Type := {
  number_to_string : jsstring -> jsstring;
  number_to_boolean : jsstring -> bool;
  syntax_error_message : jsstring -> jsstring
}.

Section Conversions.
Context {engine : Engine}.

(** ToBoolean. *)
Definition truthy (v : value) : bool :=
  match v with
  | VUndefined | VNull => false
  | VBool b => b
  | VNum l => number_to_boolean l
  | VStr [] => false
  | VStr (_ :: _) => true
  | VArr _ | VObj _ => true
  end.

Fixpoint join_with (sep : jsstring) (l : list jsstring) : jsstring :=
  match l with
  | [] => []
  | [x] => x
  | x :: ((_ :: _) as rest) => x ++ sep ++ join_with sep rest
  end.

Fixpoint all_some {A} (l : list (option A)) : option (list A) :=
  match l with
  | [] => Some []
  | Some x :: l' =>
      match all_some l' with
      | Some r => Some (x :: r)
      | None => None
      end
  | None :: _ => None
  end.

(** ToString.  An array prints its elements joined by commas, [null] and
    [undefined] elements as nothing; an object prints through
    [Object.prototype.toString] unless an own property [toString] hides it:
    a parsed value is never callable, so the conversion then throws.  [None]
    is that TypeError. *)
Fixpoint ToString (v : value) : option jsstring :=
  match v with
  | VUndefined => Some (lit "undefined")
  | VNull => Some (lit "null")
  | VBool true => Some (lit "true")
  | VBool false => Some (lit "false")
  | VNum l => Some (number_to_string l)
  | VStr s => Some s
  | VArr elems =>
      let items :=
        (fix go (l : list value) : list (option jsstring) :=
           match l with
           | [] => []
           | x :: l' =>
               match x with
               | VUndefined | VNull => Some []
               | _ => ToString x
               end :: go l'
           end) elems in
      match all_some items with
      | Some ts => Some (join_with [44] ts)
      | None => None
      end
  | VObj props =>
      match lookup (lit "toString") props with
      | Some _ => None
      | None => Some (lit "[object Object]")
      end
  end.

End Conversions.

Definition cannot_convert : thrown :=
  TypeError (lit "Cannot convert object to primitive value").

(** [v[k]] for a key [k] that no built-in prototype defines ([type], [data],
    [pose], [base64ImageData], [contentType]): reading it from [null] or
    [undefined] throws, a primitive or an array has no such property. *)
Definition get (v : value) (k : jsstring) : thrown + value :=
  match v with
  | VUndefined =>
      inl (TypeError (lit "Cannot read properties of undefined (reading '" ++ k ++ lit "')"))
  | VNull =>
      inl (TypeError (lit "Cannot read properties of null (reading '" ++ k ++ lit "')"))
  | VObj props =>
      match lookup k props with
      | Some w => inr w
      | None => inr VUndefined
      end
  | _ => inr VUndefined
  end.

(** [v === s] for a string literal [s]. *)
Definition strict_eq_str (v : value) (s : jsstring) : bool :=
  match v with
  | VStr t => JS.eqb t s
  | _ => false
  end.

(** [string | undefined] as a value. *)
Definition of_opt (o : option jsstring) : value :=
  match o with
  | Some s => VStr s
  | None => VUndefined
  end.

End Value.

(** ** Bytes: Buffer and the text codecs *)

Module Bytes.
Import JS JSON.

Definition bytes := list N.

Definition base64_char (i : N) : codeunit :=
  if i <? 26 then 65 + i
  else if i <? 52 then 71 + i
  else if i <? 62 then i - 4
  else if i =? 62 then 43
  else 47.

(** [buffer.toString("base64")]. *)
Fixpoint base64 (b : bytes) : jsstring :=
  match b with
  | [] => []
  | [x] =>
      [base64_char (x / 4); base64_char (x mod 4 * 16); 61; 61]
  | [x; y] =>
      [base64_char (x / 4); base64_char (x mod 4 * 16 + y / 16);
       base64_char (y mod 16 * 4); 61]
  | x :: y :: z :: rest =>
      base64_char (x / 4) :: base64_char (x mod 4 * 16 + y / 16)
      :: base64_char (y mod 16 * 4 + z / 64) :: base64_char (z mod 64)
      :: base64 rest
  end.

(** UTF-8 of one scalar value. *)
Definition utf8_of_scalar (cp : N) : bytes :=
  if cp <? 128 then [cp]
  else if cp <? 2048 then [192 + cp / 64; 128 + cp mod 64]
  else if cp <? 65536 then
    [224 + cp / 4096; 128 + cp / 64 mod 64; 128 + cp mod 64]
  else
    [240 + cp / 262144; 128 + cp / 4096 mod 64; 128 + cp / 64 mod 64;
     128 + cp mod 64].

Definition scalar_of_pair (hi lo : codeunit) : N :=
  65536 + (hi - 55296) * 1024 + (lo - 56320).

(** [new TextEncoder().encode(s)]: a surrogate pair is one scalar value, a
    lone surrogate becomes U+FFFD. *)
Fixpoint TextEncoder_encode (s : jsstring) : bytes :=
  match s with
  | [] => []
  | c :: tl =>
      if is_lead_surrogate c then
        match tl with
        | d :: tl' =>
            if is_trail_surrogate d
            then utf8_of_scalar (scalar_of_pair c d) ++ TextEncoder_encode tl'
            else utf8_of_scalar 65533 ++ TextEncoder_encode tl
        | [] => utf8_of_scalar 65533
        end
      else if is_trail_surrogate c then utf8_of_scalar 65533 ++ TextEncoder_encode tl
      else utf8_of_scalar c ++ TextEncoder_encode tl
  end.

(** The state a [TextDecoder] keeps between [decode(chunk, {stream: true})]
    calls: the scalar value being assembled, how many continuation bytes it
    needs and has seen, the range allowed for the next byte, and whether the
    start of the text (where a byte order mark is dropped) is behind. *)
Record decoder : Type := {
  code_point : N;
  bytes_needed : N;
  bytes_seen : N;
  lower_boundary : N;
  upper_boundary : N;
  bom_seen : bool
}.

Definition TextDecoder_new : decoder :=
  {| code_point := 0; bytes_needed := 0; bytes_seen := 0;
     lower_boundary := 128; upper_boundary := 191; bom_seen := false |}.

Definition reset (d : decoder) : decoder :=
  {| code_point := 0; bytes_needed := 0; bytes_seen := 0;
     lower_boundary := 128; upper_boundary := 191; bom_seen := bom_seen d |}.

(** A byte met when no sequence is open. *)
Definition lead (d : decoder) (b : N) : decoder * list N :=
  if b <=? 127 then (d, [b])
  else if (194 <=? b) && (b <=? 223) then
    ({| code_point := b - 192; bytes_needed := 1; bytes_seen := 0;
        lower_boundary := 128; upper_boundary := 191; bom_seen := bom_seen d |}, [])
  else if (224 <=? b) && (b <=? 239) then
    ({| code_point := b - 224; bytes_needed := 2; bytes_seen := 0;
        lower_boundary := if b =? 224 then 160 else 128;
        upper_boundary := if b =? 237 then 159 else 191;
        bom_seen := bom_seen d |}, [])
  else if (240 <=? b) && (b <=? 244) then
    ({| code_point := b - 240; bytes_needed := 3; bytes_seen := 0;
        lower_boundary := if b =? 240 then 144 else 128;
        upper_boundary := if b =? 244 then 143 else 191;
        bom_seen := bom_seen d |}, [])
  else (d, [65533]).

(** One byte through the UTF-8 decoder (errors are replaced by U+FFFD, and
    the byte that broke a sequence is read again as a first byte). *)
Definition decode_byte (d : decoder) (b : N) : decoder * list N :=
  if bytes_needed d =? 0 then lead d b
  else if (b <? lower_boundary d) || (upper_boundary d <? b) then
    let (d', out) := lead (reset d) b in (d', 65533 :: out)
  else
    let cp := code_point d * 64 + (b - 128) in
    if bytes_seen d + 1 =? bytes_needed d then (reset d, [cp])
    else
      ({| code_point := cp; bytes_needed := bytes_needed d;
          bytes_seen := bytes_seen d + 1;
          lower_boundary := 128; upper_boundary := 191;
          bom_seen := bom_seen d |}, []).

(** A scalar value as UTF-16. *)
Definition utf16_of_scalar (cp : N) : jsstring :=
  if cp <? 65536 then [cp]
  else [55296 + (cp - 65536) / 1024; 56320 + (cp - 65536) mod 1024].

(** The scalar values leave the decoder as UTF-16; a byte order mark at the
    very start is dropped. *)
Fixpoint emit (seen : bool) (cps : list N) : bool * jsstring :=
  match cps with
  | [] => (seen, [])
  | cp :: rest =>
      let (seen', out) := emit true rest in
      if negb seen && (cp =? 65279) then (seen', out)
      else (seen', utf16_of_scalar cp ++ out)
  end.

Definition with_bom (d : decoder) (b : bool) : decoder :=
  {| code_point := code_point d; bytes_needed := bytes_needed d;
     bytes_seen := bytes_seen d; lower_boundary := lower_boundary d;
     upper_boundary := upper_boundary d; bom_seen := b |}.

(** [decoder.decode(chunk, {stream: true})]: the text the chunk completes,
    and the decoder holding what it leaves open. *)
Fixpoint TextDecoder_decode (d : decoder) (chunk : bytes) : decoder * jsstring :=
  match chunk with
  | [] => (d, [])
  | b :: rest =>
      let (d1, cps) := decode_byte d b in
      let (seen, out) := emit (bom_seen d1) cps in
      let (d2, out') := TextDecoder_decode (with_bom d1 seen) rest in
      (d2, out ++ out')
  end.

End Bytes.

(** ** The remote model and the effects of a request *)

Module Remote.
Import JS JSON Value Bytes.

(** The parts of a [GenerateContentResponse] the program reads.  Every field
    of the SDK's types is optional.  [response_text] is the SDK's [text]
    accessor. *)
Record Blob : Type := { data : option jsstring; mimeType : option jsstring }.
Record Part : Type := { text : option jsstring; inlineData : option Blob }.
Record Content : Type := { parts : option (list Part) }.
Record Candidate : Type := { content : option Content }.
Record GenerateContentResponse : Type := {
  candidates : option (list Candidate);
  response_text : option jsstring
}.

(** The two requests the program sends to [ai.models.generateContent]: to
    [gemini-2.5-flash-image-preview] with response modality IMAGE, a prompt
    and the image declared as image/jpeg; and to [gemini-2.5-pro] with the
    pose-list schema, the number of poses asked for and the image under its
    own media type. *)
Inductive request : Type :=
| ImageEdit (prompt : jsstring) (image_base64 : jsstring)
| PoseList (numPoses : N) (mimeType : jsstring) (image_base64 : jsstring).

(** How the remote model answers the [n]-th call of a request: it resolves
    with a response or rejects. *)
Definition remote : Type := nat -> request -> thrown + GenerateContentResponse.

Inductive logged : Type :=
| LogText (s : jsstring)
| LogResponse (r : GenerateContentResponse)
| LogThrown (label : jsstring) (e : thrown).

(** What a request does that can be observed from outside, in order. *)
Inductive action : Type :=
| Generate (n : nat) (req : request) (outcome : thrown + GenerateContentResponse)
| Console (entry : logged)
| Enqueue (chunk : bytes)
| Close
| Errored (e : thrown).

(** The mutable state of a request: the number of remote calls made, and
    whether the stream's controller has been closed. *)
Record state : Type := { calls : nat; closed : bool }.

Definition initial : state := {| calls := 0; closed := false |}.

(** An asynchronous function body: it runs from a state, ends by returning
    or by throwing, and leaves the actions it performed. *)
Definition M (A : Type) : Type := state -> (thrown + A) * list action * state.

Definition ret {A} (a : A) : M A := fun st => (inr a, [], st).

Definition throw {A} (e : thrown) : M A := fun st => (inl e, [], st).

Definition bind {A B} (m : M A) (k : A -> M B) : M B :=
  fun st =>
    match m st with
    | (inl e, tr, st1) => (inl e, tr, st1)
    | (inr a, tr, st1) =>
        match k a st1 with
        | (r, tr', st2) => (r, tr ++ tr', st2)
        end
    end.

(** [try { body } catch (e) { handler }]. *)
Definition try_catch {A} (body : M A) (handler : thrown -> M A) : M A :=
  fun st =>
    match body st with
    | (inl e, tr, st1) =>
        match handler e st1 with
        | (r, tr', st2) => (r, tr ++ tr', st2)
        end
    | (inr a, tr, st1) => (inr a, tr, st1)
    end.

Definition lift {A} (r : thrown + A) : M A :=
  match r with
  | inl e => throw e
  | inr a => ret a
  end.

Definition perform (a : action) : M unit := fun st => (inr tt, [a], st).

Definition console (entry : logged) : M unit := perform (Console entry).

(** [await ai.models.generateContent(req)]. *)
Definition generateContent (ai : remote) (req : request) : M GenerateContentResponse :=
  fun st =>
    let out := ai (calls st) req in
    (out, [Generate (calls st) req out],
     {| calls := S (calls st); closed := closed st |}).

Definition already_closed : thrown :=
  TypeError (lit "Invalid state: Controller is already closed").

(** [controller.enqueue(chunk)]. *)
Definition enqueue (chunk : bytes) : M unit :=
  fun st =>
    if closed st then (inl already_closed, [], st)
    else (inr tt, [Enqueue chunk], st).

(** [controller.close()]. *)
Definition close : M unit :=
  fun st =>
    if closed st then (inl already_closed, [], st)
    else (inr tt, [Close], {| calls := calls st; closed := true |}).

End Remote.

Module Notations.
Notation "x <- m ;; k" := (Remote.bind m (fun x => k))
  (at level 61, m at next level, right associativity).
Notation "m ;;; k" := (Remote.bind m (fun _ => k))
  (at level 61, right associativity).
End Notations.

(** ** [src/lib/ai.ts] *)

Module Ai.
Import JS JSON Value Bytes Remote Notations.

(** The result of [nanobanana]: [{type: "image", base64ImageData,
    contentType}] or [{type: "text", data}]. *)
Inductive result : Type :=
| ImageResult (base64ImageData : option jsstring) (contentType : option jsstring)
| TextResult (data : option jsstring).

(** [response.candidates?.[0]?.content?.parts ?? []]. *)
Definition first_parts (response : GenerateContentResponse) : list Part :=
  match candidates response with
  | Some (c :: _) =>
      match content c with
      | Some ct =>
          match parts ct with
          | Some ps => ps
          | None => []
          end
      | None => []
      end
  | _ => []
  end.

(** [if (part.text)]: a string is true when it is not empty. *)
Definition has_text (p : Part) : option jsstring :=
  match text p with
  | Some (c :: s) => Some (c :: s)
  | _ => None
  end.

(** The [for] loop over the parts, with its early [return]. *)
Fixpoint scan_parts (ps : list Part) : M (option result) :=
  match ps with
  | [] => ret None
  | part :: rest =>
      match has_text part with
      | Some t => console (LogText t) ;;; scan_parts rest
      | None =>
          match inlineData part with
          | Some blob => ret (Some (ImageResult (data blob) (mimeType blob)))
          | None => scan_parts rest
          end
      end
  end.

Definition nanobanana (ai : remote) (prompt : jsstring) (imageBuffer : bytes) : M result :=
  response <- generateContent ai (ImageEdit prompt (base64 imageBuffer)) ;;
  found <- scan_parts (first_parts response) ;;
  match found with
  | Some r => ret r
  | None => ret (TextResult (response_text response))
  end.

Definition generatePosesFromImage (ai : remote) (buffer : bytes) (mimeType : jsstring)
    (numPoses : N) : M (option jsstring) :=
  response <- generateContent ai (PoseList numPoses mimeType (base64 buffer)) ;;
  console (LogResponse response) ;;;
  ret (response_text response).

Definition generatePosesFromImageBuffer (ai : remote) (buffer : bytes)
    (mimeType : jsstring) (numPoses : N) : M (option jsstring) :=
  generatePosesFromImage ai buffer mimeType numPoses.

(** What [fetch(imageUrl)] resolves with, as far as it is read: [ok],
    [statusText], what [arrayBuffer()] settles with, and
    [headers.get("content-type")], which is [null] without the header. *)
Record ImageResponse : Type := {
  ok : bool;
  statusText : jsstring;
  arrayBuffer : thrown + bytes;
  content_type : option jsstring
}.

Definition generatePosesFromImageUrl (ai : remote)
    (fetch : jsstring -> thrown + ImageResponse) (imageUrl : jsstring) (numPoses : N)
    : M (option jsstring) :=
  imageResponse <- lift (fetch imageUrl) ;;
  if negb (ok imageResponse) then
    throw (ThrowError (lit "Failed to fetch image: " ++ statusText imageResponse))
  else
    (buffer <- lift (arrayBuffer imageResponse) ;;
     let mimeType :=
       match content_type imageResponse with
       | Some (c :: t) => c :: t
       | _ => lit "image/jpeg"
       end in
     generatePosesFromImage ai buffer mimeType numPoses).

End Ai.

(** ** [src/app/api/stop-motion/route.ts] *)

Module Route.
Import JS JSON Value Bytes Remote Notations.

Record File : Type := { file_type : jsstring; file_bytes : bytes }.

(** An entry of a submitted form is a file or a string. *)
Inductive FormDataEntryValue : Type :=
| EntryFile (f : File)
| EntryString (s : jsstring).

Definition FormData : Type := list (jsstring * FormDataEntryValue).

(** [formData.get(name)]: the first entry of that name, or [null]. *)
Fixpoint FormData_get (name : jsstring) (fd : FormData) : option FormDataEntryValue :=
  match fd with
  | [] => None
  | (k, v) :: rest => if JS.eqb k name then Some v else FormData_get name rest
  end.

(** What [POST] returns: [NextResponse.json(body, {status})], or a
    [Response] around the stream with its headers. *)
Inductive response : Type :=
| JsonResponse (body : value) (status : N)
| StreamResponse (headers : list (jsstring * jsstring)).

Definition delimiter : jsstring := 10 :: lit "---CHUNK_END---" ++ [10].

Definition prompt_before : jsstring :=
  lit "Transform the character/object in the attached image to match this specific pose for stop-motion animation:

".

Definition prompt_after : jsstring :=
  lit "

Requirements:
- Maintain the same character/object identity and visual style
- Apply the pose description precisely while keeping proportions realistic
- Preserve lighting and background elements from the original
- Ensure the transformation looks natural and suitable for frame-by-frame animation
- Keep image quality high and details sharp for stop-motion production

Generate a clean, production-ready frame that matches the pose description exactly.".

(** The objects handed to [JSON.stringify]. *)
Definition poses_event (poses : option jsstring) : value :=
  VObj [(lit "type", VStr (lit "poses")); (lit "data", of_opt poses)].

Definition frame_event (base64ImageData contentType : option jsstring) : value :=
  VObj [(lit "type", VStr (lit "nanobanana"));
        (lit "data",
         VObj [(lit "type", VStr (lit "image"));
               (lit "base64ImageData", of_opt base64ImageData);
               (lit "contentType", of_opt contentType)])].

Definition complete_event : value :=
  VObj [(lit "type", VStr (lit "complete"));
        (lit "data", VStr (lit "Processing finished"))].

(** [error instanceof Error ? error.message : "Unknown error"]. *)
Definition error_message (error : thrown) : jsstring :=
  match error with
  | ThrowError m => m
  | ThrowOther => lit "Unknown error"
  end.

Definition error_event (error : thrown) : value :=
  VObj [(lit "type", VStr (lit "error")); (lit "data", VStr (error_message error))].

(** The events of the protocol, and the object each is serialized from. *)
Inductive ProgressEvent : Type :=
| Poses (data : option jsstring)
| Frame (base64ImageData contentType : option jsstring)
| Complete
| Error (message : jsstring).

Definition payload (e : ProgressEvent) : value :=
  match e with
  | Poses p => poses_event p
  | Frame b c => frame_event b c
  | Complete => complete_event
  | Error m => error_event (ThrowError m)
  end.

(** [JSON.stringify(event) + "\n---CHUNK_END---\n"]. *)
Definition wire_text (event : value) : jsstring := stringify_plus event delimiter.

(** [encoder.encode(...)], the chunk given to [controller.enqueue]. *)
Definition chunk_of (event : value) : bytes := TextEncoder_encode (wire_text event).

Section Handler.
Context {engine : Engine}.
Variable ai : remote.

(** The template literal of the prompt: [${pose.pose}] reads the property
    and converts it to a string. *)
Definition prompt_for (pose : value) : M jsstring :=
  p <- lift (get pose (lit "pose")) ;;
  match ToString p with
  | Some t => ret (prompt_before ++ t ++ prompt_after)
  | None => throw cannot_convert
  end.

(** [for (const pose of posesJson) { ... }]. *)
Fixpoint render_all (buffer : bytes) (posesJson : list value) : M unit :=
  match posesJson with
  | [] => ret tt
  | pose :: rest =>
      prompt <- prompt_for pose ;;
      nanobananaResult <- Ai.nanobanana ai prompt buffer ;;
      match nanobananaResult with
      | Ai.ImageResult base64ImageData contentType =>
          enqueue (chunk_of (frame_event base64ImageData contentType))
      | Ai.TextResult _ => ret tt
      end ;;;
      render_all buffer rest
  end.

(** [await image.arrayBuffer()]: only a file has the method. *)
Definition arrayBuffer (image : FormDataEntryValue) : M File :=
  match image with
  | EntryFile f => ret f
  | EntryString _ => throw (TypeError (lit "image.arrayBuffer is not a function"))
  end.

(** [JSON.parse(text)] as a call that may throw. *)
Definition JSON_parse (text : jsstring) : M value :=
  match parse text with
  | Some v => ret v
  | None => throw (ThrowError (syntax_error_message text))
  end.

(** The body of [start(controller)]. *)
Definition start (image : FormDataEntryValue) : M unit :=
  try_catch
    (file <- arrayBuffer image ;;
     let buffer := file_bytes file in
     poses <- Ai.generatePosesFromImageBuffer ai buffer (file_type file) 12 ;;
     enqueue (chunk_of (poses_event poses)) ;;;
     posesJson <- JSON_parse (match poses with Some t => t | None => lit "[]" end) ;;
     match posesJson with
     | VArr elems => render_all buffer elems
     | _ => ret tt
     end ;;;
     enqueue (chunk_of complete_event) ;;;
     close)
    (fun error =>
       console (LogThrown (lit "Error in streaming:") error) ;;;
       enqueue (chunk_of (error_event error)) ;;;
       close).

(** [new ReadableStream({start})]: the constructor runs [start]; if its
    promise rejects the stream is errored. *)
Definition ReadableStream (start : M unit) : M unit :=
  fun st =>
    match start st with
    | (inr _, tr, st1) => (inr tt, tr, st1)
    | (inl e, tr, st1) => (inr tt, tr ++ [Errored e], st1)
    end.

Definition stream_headers : list (jsstring * jsstring) :=
  [(lit "Content-Type", lit "application/json");
   (lit "Transfer-Encoding", lit "chunked")].

(** [if (!image)]: [null] and the empty string are false. *)
Definition present (image : option FormDataEntryValue) : option FormDataEntryValue :=
  match image with
  | None => None
  | Some (EntryString []) => None
  | Some e => Some e
  end.

(** [POST(request)], from the form data of the request. *)
Definition POST (formData : FormData) : M response :=
  match present (FormData_get (lit "image") formData) with
  | None =>
      ret (JsonResponse (VObj [(lit "error", VStr (lit "No image provided"))]) 400)
  | Some image =>
      ReadableStream (start image) ;;;
      ret (StreamResponse stream_headers)
  end.

End Handler.

(** The chunks a run put on the stream, in order. *)
Fixpoint enqueued (tr : list action) : list bytes :=
  match tr with
  | [] => []
  | Enqueue c :: rest => c :: enqueued rest
  | _ :: rest => enqueued rest
  end.

End Route.

(** ** [src/lib/blob.ts] *)

Module BlobStore.
Import JS Value Bytes.

(** What [put] resolves with, as far as it is read. *)
Record PutBlobResult : Type := { contentType : jsstring; url : jsstring }.

(** [uploadToBlob(imageFile)], with the name [nanoid()] drew and with what
    [put(pathname, imageFile, {access: 'public'})] does.  The extension is
    the second piece of the file's type cut at every slash, [undefined]
    when there is none. *)
Definition uploadToBlob (nanoid : jsstring)
    (put : jsstring -> Route.File -> thrown + PutBlobResult) (imageFile : Route.File)
    : thrown + PutBlobResult :=
  let filename := nanoid in
  let fileType := nth_error (split (Route.file_type imageFile) (lit "/")) 1 in
  let pathname :=
    lit "uploads/" ++ filename ++ lit "."
    ++ match fileType with Some t => t | None => lit "undefined" end in
  match put pathname imageFile with
  | inl e => inl e
  | inr blobresult =>
      inr {| contentType := contentType blobresult; url := url blobresult |}
  end.

End BlobStore.

(** ** [src/app/page.tsx]: [generateAnimation] *)

Module Page.
Import JS JSON Value Bytes.

(** A frame of the animation: its data URL, and the name and type of the
    placeholder [File] made for it.  (Its [id] is drawn from the clock and
    the random number generator.) *)
Record Frame : Type := { url : jsstring; file_name : jsstring; file_type : jsstring }.

Inductive console_entry : Type :=
| ParsingLine (line : jsstring)
| GeneratedPoses (data : value)
| FailedToParse (line : jsstring) (parseError : thrown)
| GenerationError (error : thrown).

(** The component's state that [generateAnimation] writes, the timers it
    sets ([setTimeout(() => setGenerationProgress(text), delay)]), and what
    it sends to the console and to [alert]. *)
Record ui : Type := {
  isGenerating : bool;
  generationProgress : jsstring;
  generatedPoses : value;
  generatedImages : list jsstring;
  frames : list Frame;
  timers : list (N * jsstring);
  console : list console_entry;
  alerts : list jsstring
}.

Definition setIsGenerating (b : bool) (u : ui) : ui :=
  {| isGenerating := b; generationProgress := generationProgress u;
     generatedPoses := generatedPoses u; generatedImages := generatedImages u;
     frames := frames u; timers := timers u; console := console u;
     alerts := alerts u |}.

Definition setGenerationProgress (t : jsstring) (u : ui) : ui :=
  {| isGenerating := isGenerating u; generationProgress := t;
     generatedPoses := generatedPoses u; generatedImages := generatedImages u;
     frames := frames u; timers := timers u; console := console u;
     alerts := alerts u |}.

Definition setGeneratedPoses (v : value) (u : ui) : ui :=
  {| isGenerating := isGenerating u; generationProgress := generationProgress u;
     generatedPoses := v; generatedImages := generatedImages u;
     frames := frames u; timers := timers u; console := console u;
     alerts := alerts u |}.

Definition setGeneratedImages (f : list jsstring -> list jsstring) (u : ui) : ui :=
  {| isGenerating := isGenerating u; generationProgress := generationProgress u;
     generatedPoses := generatedPoses u; generatedImages := f (generatedImages u);
     frames := frames u; timers := timers u; console := console u;
     alerts := alerts u |}.

Definition setFrames (f : list Frame -> list Frame) (u : ui) : ui :=
  {| isGenerating := isGenerating u; generationProgress := generationProgress u;
     generatedPoses := generatedPoses u; generatedImages := generatedImages u;
     frames := f (frames u); timers := timers u; console := console u;
     alerts := alerts u |}.

Definition setTimeout (delay : N) (t : jsstring) (u : ui) : ui :=
  {| isGenerating := isGenerating u; generationProgress := generationProgress u;
     generatedPoses := generatedPoses u; generatedImages := generatedImages u;
     frames := frames u; timers := timers u ++ [(delay, t)]; console := console u;
     alerts := alerts u |}.

Definition log (e : console_entry) (u : ui) : ui :=
  {| isGenerating := isGenerating u; generationProgress := generationProgress u;
     generatedPoses := generatedPoses u; generatedImages := generatedImages u;
     frames := frames u; timers := timers u; console := console u ++ [e];
     alerts := alerts u |}.

Definition alert (t : jsstring) (u : ui) : ui :=
  {| isGenerating := isGenerating u; generationProgress := generationProgress u;
     generatedPoses := generatedPoses u; generatedImages := generatedImages u;
     frames := frames u; timers := timers u; console := console u;
     alerts := alerts u ++ [t] |}.

(** The [type] a [File] keeps of the one it is given: nothing if a code unit
    lies outside U+0020..U+007E, else the text in lower case. *)
Definition File_type (t : jsstring) : jsstring :=
  if forallb (fun c => (32 <=? c) && (c <=? 126)) t
  then map (fun c => if (65 <=? c) && (c <=? 90) then c + 32 else c) t
  else [].

Definition delimiter : jsstring := 10 :: lit "---CHUNK_END---" ++ [10].

Section Client.
Context {engine : Engine}.

(** A step of the [try] block: the state it leaves, and what it threw. *)
Definition outcome : Type := (ui * option thrown)%type.

(** [case 'nanobanana':]. *)
Definition on_frame (data : value) (u : ui) : outcome :=
  let u := setGenerationProgress (lit "Animation frame generated!") u in
  match get data (lit "data") with
  | inl e => (u, Some e)
  | inr d =>
      if truthy d then
        match get d (lit "type") with
        | inl e => (u, Some e)
        | inr ty =>
            if strict_eq_str ty (lit "image") then
              match get d (lit "base64ImageData") with
              | inl e => (u, Some e)
              | inr base64ImageData =>
                  if truthy base64ImageData then
                    match get d (lit "contentType") with
                    | inl e => (u, Some e)
                    | inr contentType =>
                        let mime :=
                          if truthy contentType then contentType
                          else VStr (lit "image/png") in
                        match ToString mime, ToString base64ImageData with
                        | Some m, Some b =>
                            let dataUrl := lit "data:" ++ m ++ lit ";base64," ++ b in
                            let u := setGeneratedImages (fun prev => prev ++ [dataUrl]) u in
                            let newFrame :=
                              {| url := dataUrl; file_name := lit "generated.png";
                                 file_type := File_type m |} in
                            (setFrames (fun prev => prev ++ [newFrame]) u, None)
                        | _, _ => (u, Some cannot_convert)
                        end
                    end
                  else (u, None)
              end
            else (u, None)
        end
      else (u, None)
  end.

(** [new Error(message)]: the message is converted to a string, and is
    empty when none is given. *)
Definition new_Error (message : value) : thrown :=
  match message with
  | VUndefined => ThrowError []
  | _ =>
      match ToString message with
      | Some m => ThrowError m
      | None => cannot_convert
      end
  end.

(** [switch (data.type) { ... }]. *)
Definition dispatch (data : value) (u : ui) : outcome :=
  match get data (lit "type") with
  | inl e => (u, Some e)
  | inr ty =>
      if strict_eq_str ty (lit "poses") then
        let u := setGenerationProgress (lit "Poses generated! Creating animation frames...") u in
        match get data (lit "data") with
        | inl e => (u, Some e)
        | inr d => (log (GeneratedPoses d) (setGeneratedPoses d u), None)
        end
      else if strict_eq_str ty (lit "nanobanana") then on_frame data u
      else if strict_eq_str ty (lit "complete") then
        (setTimeout 3000 [] (setGenerationProgress (lit "Animation generation complete!") u),
         None)
      else if strict_eq_str ty (lit "error") then
        match get data (lit "data") with
        | inl e => (u, Some e)
        | inr d => (u, Some (new_Error d))
        end
      else (u, None)
  end.

(** [catch (parseError) { console.warn(...) }]: whatever was thrown while
    handling the line is reported and dropped. *)
Definition settle (line : jsstring) (o : outcome) : ui :=
  match o with
  | (u, Some parseError) => log (FailedToParse line parseError) u
  | (u, None) => u
  end.

(** The [try] block around one line: [JSON.parse] or the [switch] may
    throw. *)
Definition try_line (line : jsstring) (u : ui) : ui :=
  let u := log (ParsingLine line) u in
  settle line
    match parse line with
    | None => (u, Some (ThrowError (syntax_error_message line)))
    | Some data => dispatch data u
    end.

(** The body of [for (const part of parts)]. *)
Definition process_part (u : ui) (part : jsstring) : ui :=
  match trim part with
  | [] => u
  | line => try_line line u
  end.

(** What the read loop carries from one [reader.read()] to the next. *)
Record reader : Type := { view : ui; buffer : jsstring; decoder : Bytes.decoder }.

(** One round of [while (true)] for a chunk [value]. *)
Definition on_chunk (r : reader) (value : bytes) : reader :=
  let (d, chunk) := TextDecoder_decode (decoder r) value in
  let buffer := buffer r ++ chunk in
  let parts := split buffer delimiter in
  {| view := fold_left process_part (removelast parts) (view r);
     buffer := last parts [];
     decoder := d |}.

Definition read_loop (u : ui) (chunks : list bytes) : reader :=
  fold_left on_chunk chunks
    {| view := u; buffer := []; decoder := TextDecoder_new |}.

(** What [fetch] resolves with: the status, the text of the body (for
    [response.text()]), and the body as a stream: the chunks its reader
    yields before it reports [done], or before a read rejects. *)
Record Response : Type := {
  ok : bool;
  status : N;
  body_text : jsstring;
  body : option (list bytes * option thrown)
}.

Definition decimal (n : N) : jsstring := lit (NilZero.string_of_uint (N.to_uint n)).

(** The [try] block of [generateAnimation]. *)
Definition attempt (fetched : thrown + Response) (u : ui) : outcome :=
  match fetched with
  | inl e => (u, Some e)
  | inr response =>
      if negb (ok response) then
        (u, Some (ThrowError (lit "Failed to generate animation: "
                              ++ decimal (status response) ++ [32]
                              ++ body_text response)))
      else
        match body response with
        | None => (u, Some (ThrowError (lit "No response body reader available")))
        | Some (chunks, failure) => (view (read_loop u chunks), failure)
        end
  end.

(** [error instanceof Error ? error.message : "Unknown error"]. *)
Definition error_message (error : thrown) : jsstring :=
  match error with
  | ThrowError m => m
  | ThrowOther => lit "Unknown error"
  end.

(** [generateAnimation], with the file the user selected last and with what
    [fetch("/api/stop-motion", {method: "POST", body: formData})] does. *)
Definition generateAnimation (fetch : Route.FormData -> thrown + Response)
    (lastSelectedFile : option Route.File) (u : ui) : ui :=
  match lastSelectedFile with
  | None => alert (lit "Please select an image to generate an animation from.") u
  | Some file =>
      let u := setIsGenerating true u in
      let u := setGenerationProgress (lit "Starting generation...") u in
      let u := setGeneratedPoses VNull u in
      let u := setGeneratedImages (fun _ => []) u in
      let formData := [(lit "image", Route.EntryFile file)] in
      let (u, thrown) := attempt (fetch formData) u in
      let u :=
        match thrown with
        | Some error =>
            let u := log (GenerationError error) u in
            let u := setGenerationProgress (lit "Error: " ++ error_message error) u in
            setTimeout 5000 [] u
        | None => u
        end in
      setIsGenerating false u
  end.

End Client.

(** The component before anything was selected or generated. *)
Definition mount : ui :=
  {| isGenerating := false; generationProgress := []; generatedPoses := VNull;
     generatedImages := []; frames := []; timers := []; console := []; alerts := [] |}.

End Page.

(** ** [src/app/page.tsx]: the file picker, the player and the timeline *)

Module Player.
Import JS.

(** The state of the upload area: the file kept for the generation, the
    files handed to [FileReader.readAsDataURL] (whose result becomes the
    preview when it has loaded), and whether something is dragged over the
    area. *)
Record picker : Type := {
  lastSelectedFile : option Route.File;
  reading : list Route.File;
  isDragOver : bool
}.

Definition setIsDragOver (b : bool) (p : picker) : picker :=
  {| lastSelectedFile := lastSelectedFile p; reading := reading p; isDragOver := b |}.

(** [handleFileSelection(files)]: [files] is [null] or a list; the file
    looked at is [files[files.length - 1]]. *)
Definition handleFileSelection (files : option (list Route.File)) (p : picker) : picker :=
  match files with
  | None => p
  | Some fs =>
      match rev fs with
      | [] => p
      | file :: _ =>
          if starts_with (lit "image/") (Route.file_type file) then
            {| lastSelectedFile := Some file; reading := reading p ++ [file];
               isDragOver := isDragOver p |}
          else p
      end
  end.

Definition handleDrop (files : option (list Route.File)) (p : picker) : picker :=
  handleFileSelection files (setIsDragOver false p).

Definition handleDragOver (p : picker) : picker := setIsDragOver true p.

Definition handleDragLeave (p : picker) : picker := setIsDragOver false p.

(** A frame of the timeline, with its [id]. *)
Record Frame : Type := { id : jsstring; still : Page.Frame }.

(** The state of the player.  Indices are integers far inside the range in
    which a JavaScript number is exact; there [+] and [-] are those of [Z],
    and [%] is the remainder that takes the sign of the dividend. *)
Record player : Type := {
  frames : list Frame;
  isPlaying : bool;
  currentFrame : Z
}.

Definition setFrames (f : list Frame -> list Frame) (s : player) : player :=
  {| frames := f (frames s); isPlaying := isPlaying s; currentFrame := currentFrame s |}.

Definition setIsPlaying (b : bool) (s : player) : player :=
  {| frames := frames s; isPlaying := b; currentFrame := currentFrame s |}.

Definition setCurrentFrame (f : Z -> Z) (s : player) : player :=
  {| frames := frames s; isPlaying := isPlaying s; currentFrame := f (currentFrame s) |}.

(** [frames.length]. *)
Definition count (s : player) : Z := Z.of_nat (length (frames s)).

(** The callback of the animation loop, which the effect keeps installed
    (every [1000 / frameRate] milliseconds) while
    [isPlaying && frames.length > 0]. *)
Definition tick (s : player) : player :=
  if isPlaying s && (0 <? count s)%Z
  then setCurrentFrame (fun prev => Z.rem (prev + 1) (count s)) s
  else s.

Definition removeFrame (id0 : jsstring) (s : player) : player :=
  let newFrames := filter (fun frame => negb (JS.eqb (id frame) id0)) (frames s) in
  let n := Z.of_nat (length newFrames) in
  let s :=
    if (n <=? currentFrame s)%Z && (0 <? n)%Z
    then setCurrentFrame (fun _ => (n - 1)%Z) s
    else s in
  setFrames (fun _ => newFrames) s.

(** [a.splice(start, deleteCount, ...items)] for an integer [start]: the
    elements removed, and the array afterwards.  A negative [start] counts
    from the end; [start] is brought into [0 .. a.length]. *)
Definition splice {A : Type} (start : Z) (deleteCount : nat) (items a : list A)
    : list A * list A :=
  let len := Z.of_nat (length a) in
  let actualStart :=
    Z.to_nat (if (start <? 0)%Z then Z.max (len + start) 0 else Z.min start len) in
  (firstn deleteCount (skipn actualStart a),
   firstn actualStart a ++ items ++ skipn deleteCount (skipn actualStart a)).

(** The update of [moveFrame(fromIndex, toIndex)].  When nothing is removed
    [movedFrame] is [undefined], and [undefined] is inserted: an entry of the
    array is a frame or [undefined] ([None]). *)
Definition moveFrame (fromIndex toIndex : Z) (prev : list (option Frame))
    : list (option Frame) :=
  let (removed, newFrames) := splice fromIndex 1 [] prev in
  let movedFrame := match removed with x :: _ => x | [] => None end in
  snd (splice toIndex 0 [movedFrame] newFrames).

(** What [exportAnimation] makes the browser download: the [href] and the
    [download] name of the link it clicks. *)
Record download : Type := { href : jsstring; download_name : jsstring }.

(** [name.split(".").pop()] in a template literal. *)
Definition extension (name : jsstring) : jsstring :=
  match rev (split name (lit ".")) with
  | x :: _ => x
  | [] => lit "undefined"
  end.

Definition exportAnimation (frames : list Page.Frame) : option download :=
  match frames with
  | [] => None
  | first :: _ =>
      Some {| href := Page.url first;
              download_name :=
                lit "nanomotion-frame-0." ++ extension (Page.file_name first) |}
  end.

Definition togglePlayback (s : player) : player :=
  match frames s with
  | [] => s
  | _ :: _ => setIsPlaying (negb (isPlaying s)) s
  end.

Definition resetAnimation (s : player) : player :=
  setCurrentFrame (fun _ => 0%Z) (setIsPlaying false s).

Definition nextFrame (s : player) : player :=
  match frames s with
  | [] => s
  | _ :: _ => setCurrentFrame (fun prev => Z.rem (prev + 1) (count s)) s
  end.

Definition prevFrame (s : player) : player :=
  match frames s with
  | [] => s
  | _ :: _ => setCurrentFrame (fun prev => Z.rem (prev - 1 + count s) (count s)) s
  end.

End Player.

(** ** What the properties speak about *)

Module Observed.
Import JS JSON Value Bytes Remote Route.

(** The prompts of the calls to the image model, in the order they were
    made. *)
Fixpoint image_edits (tr : list action) : list jsstring :=
  match tr with
  | [] => []
  | Generate _ (ImageEdit prompt _) _ :: rest => prompt :: image_edits rest
  | _ :: rest => image_edits rest
  end.

(** The texts of the parts that [nanobanana] sends to the console. *)
Fixpoint texts (ps : list Part) : list jsstring :=
  match ps with
  | [] => []
  | p :: rest =>
      match Ai.has_text p with
      | Some t => t :: texts rest
      | None => texts rest
      end
  end.

Definition wire_chunk (e : ProgressEvent) : bytes := chunk_of (payload e).

(** A part that makes [nanobanana] return an image: it has no text (or an
    empty one) and it has inline data. *)
Definition qualifies (p : Part) : bool :=
  match Ai.has_text p, inlineData p with
  | None, Some _ => true
  | _, _ => false
  end.

(** The result [nanobanana] draws from a response, and what it logs on the
    way. *)
Definition result_of (response : GenerateContentResponse) : Ai.result :=
  match fst (fst (Ai.scan_parts (Ai.first_parts response) initial)) with
  | inr (Some r) => r
  | _ => Ai.TextResult (response_text response)
  end.

Definition logs_of (response : GenerateContentResponse) : list action :=
  snd (fst (Ai.scan_parts (Ai.first_parts response) initial)).

Section Runs.
Context {engine : Engine}.
Variable ai : remote.
Variable buffer : bytes.

(** The text of the prompt for a pose, or what building it throws. *)
Definition prompt_of (pose : value) : thrown + jsstring :=
  match get pose (lit "pose") with
  | inl e => inl e
  | inr p =>
      match ToString p with
      | Some t => inr (prompt_before ++ t ++ prompt_after)
      | None => inl cannot_convert
      end
  end.

(** [renders k poses prs]: from call number [k] on, the poses are rendered
    one call each, with the prompts and the responses [prs]. *)
Inductive renders : nat -> list value -> list (jsstring * GenerateContentResponse) -> Prop :=
| renders_nil : forall k, renders k [] []
| renders_cons : forall k pose poses prompt response prs,
    prompt_of pose = inr prompt ->
    ai k (ImageEdit prompt (base64 buffer)) = inr response ->
    renders (S k) poses prs ->
    renders k (pose :: poses) ((prompt, response) :: prs).

(** What stops the loop at a pose: building its prompt throws, or the
    image model rejects the call. *)
Inductive stopped_at (k : nat) (pose : value) (e : thrown) : list action -> nat -> Prop :=
| stopped_prompt : prompt_of pose = inl e -> stopped_at k pose e [] k
| stopped_call : forall prompt,
    prompt_of pose = inr prompt ->
    ai k (ImageEdit prompt (base64 buffer)) = inl e ->
    stopped_at k pose e [Generate k (ImageEdit prompt (base64 buffer)) (inl e)] (S k).

(** The frame event of a response, if its result is an image. *)
Definition frame_of (response : GenerateContentResponse) : list ProgressEvent :=
  match result_of response with
  | Ai.ImageResult b c => [Frame b c]
  | Ai.TextResult _ => []
  end.

(** The actions of one successful round of the loop, and of several. *)
Definition pose_trace (k : nat) (prompt : jsstring) (response : GenerateContentResponse)
    : list action :=
  Generate k (ImageEdit prompt (base64 buffer)) (inr response)
  :: logs_of response ++ map (fun e => Enqueue (wire_chunk e)) (frame_of response).

Fixpoint rendered_trace (k : nat) (prs : list (jsstring * GenerateContentResponse))
    : list action :=
  match prs with
  | [] => []
  | (prompt, response) :: rest =>
      pose_trace k prompt response ++ rendered_trace (S k) rest
  end.

End Runs.

(** The request to the pose planner for a file, the text [POST] parses of
    its answer ([poses ?? "[]"]), and the actions of a run that fall outside
    the loop: the opening with the [poses] event, and the two endings. *)
Definition planner_request (f : File) : request :=
  PoseList 12 (file_type f) (base64 (file_bytes f)).

Definition planner_text (r0 : GenerateContentResponse) : jsstring :=
  match response_text r0 with
  | Some t => t
  | None => lit "[]"
  end.

Definition opening (f : File) (r0 : GenerateContentResponse) : list action :=
  [Generate 0 (planner_request f) (inr r0);
   Console (LogResponse r0);
   Enqueue (wire_chunk (Poses (response_text r0)))].

Definition completion : list action := [Enqueue (wire_chunk Complete); Close].

Definition failure (e : thrown) : list action :=
  [Console (LogThrown (lit "Error in streaming:") e);
   Enqueue (wire_chunk (Error (error_message e)));
   Close].

Definition not_an_array (v : value) : Prop := forall elems, v <> VArr elems.

(** The frame events of the responses, in their order. *)
Definition frames_of (prs : list (jsstring * GenerateContentResponse)) : list ProgressEvent :=
  flat_map (fun pr => frame_of (snd pr)) prs.

Definition is_frame (e : ProgressEvent) : bool :=
  match e with Frame _ _ => true | _ => false end.



End Observed.

(** ** What travels on the wire and what the client makes of it *)

Module Wire.
Import JS JSON Value Bytes Route.

(** The serialized payload of an event, and the text of a whole stream. *)
Definition text (e : ProgressEvent) : jsstring :=
  match stringify (payload e) with
  | Some t => t
  | None => []
  end.

Definition wire (es : list ProgressEvent) : jsstring :=
  concat (map (fun e => wire_text (payload e)) es).

Definition field (k : string) (o : option jsstring) : list (jsstring * value) :=
  match o with
  | Some s => [(lit k, VStr s)]
  | None => []
  end.

(** The value [JSON.parse] gives back for an event: the object that was
    serialized, without the properties whose value was [undefined]. *)
Definition received (e : ProgressEvent) : value :=
  match e with
  | Poses p => VObj ((lit "type", VStr (lit "poses")) :: field "data" p)
  | Frame b c =>
      VObj [(lit "type", VStr (lit "nanobanana"));
            (lit "data",
             VObj ((lit "type", VStr (lit "image"))
                   :: field "base64ImageData" b ++ field "contentType" c))]
  | Complete => complete_event
  | Error m => error_event (ThrowError m)
  end.

Definition as_text (r : thrown + value) : option (option jsstring) :=
  match r with
  | inr (VStr s) => Some (Some s)
  | inr VUndefined => Some None
  | _ => None
  end.

(** The event a reader sees in a parsed value, through the properties the
    client reads ([type], [data], and in a frame [base64ImageData] and
    [contentType]). *)
Definition classify (v : value) : option ProgressEvent :=
  match get v (lit "type") with
  | inl _ => None
  | inr ty =>
      if strict_eq_str ty (lit "poses") then
        option_map Poses (as_text (get v (lit "data")))
      else if strict_eq_str ty (lit "nanobanana") then
        match get v (lit "data") with
        | inr d =>
            match get d (lit "type") with
            | inr t =>
                if strict_eq_str t (lit "image") then
                  match as_text (get d (lit "base64ImageData")),
                        as_text (get d (lit "contentType")) with
                  | Some b, Some c => Some (Frame b c)
                  | _, _ => None
                  end
                else None
            | inl _ => None
            end
        | inl _ => None
        end
      else if strict_eq_str ty (lit "complete") then
        match get v (lit "data") with
        | inr (VStr s) => if JS.eqb s (lit "Processing finished") then Some Complete else None
        | _ => None
        end
      else if strict_eq_str ty (lit "error") then
        match get v (lit "data") with
        | inr (VStr m) => Some (Error m)
        | _ => None
        end
      else None
  end.

(** The strings of an event are JavaScript strings: every code unit has 16
    bits. *)
Definition units16 (s : jsstring) : bool := forallb (fun c => c <? 65536) s.

Definition units16_opt (o : option jsstring) : bool :=
  match o with
  | Some s => units16 s
  | None => true
  end.

Definition well_formed (e : ProgressEvent) : bool :=
  match e with
  | Poses p => units16_opt p
  | Frame b c => units16_opt b && units16_opt c
  | Complete => true
  | Error m => units16 m
  end.

(** Surrogates come in pairs, and every code unit has 16 bits: the texts
    that UTF-8 carries unchanged. *)
Fixpoint paired (s : jsstring) : bool :=
  match s with
  | [] => true
  | c :: tl =>
      if is_lead_surrogate c then
        match tl with
        | d :: tl' => is_trail_surrogate d && paired tl'
        | [] => false
        end
      else negb (is_trail_surrogate c) && (c <? 65536) && paired tl
  end.

(** A literal in which an apostrophe stands for the double quote. *)
Definition jlit (s : string) : jsstring :=
  map (fun c => if c =? 39 then 34 else c) (lit s).

(** The serialized payload of an event, piece by piece: literal text, and
    the strings of the event between quotes. *)
Inductive piece : Type :=
| Lit (l : jsstring)
| Quoted (s : jsstring).

Definition render_piece (p : piece) : jsstring :=
  match p with
  | Lit l => l
  | Quoted s => QuoteJSONString s
  end.

Definition render (ps : list piece) : jsstring := concat (map render_piece ps).

Definition member (key : jsstring) (o : option jsstring) : list piece :=
  match o with
  | Some s => [Lit key; Quoted s]
  | None => []
  end.

Definition pieces (e : ProgressEvent) : list piece :=
  match e with
  | Poses p =>
      Lit (jlit "{'type':'poses'") :: member (jlit ",'data':") p ++ [Lit (jlit "}")]
  | Frame b c =>
      Lit (jlit "{'type':'nanobanana','data':{'type':'image'")
      :: member (jlit ",'base64ImageData':") b
      ++ member (jlit ",'contentType':") c ++ [Lit (jlit "}}")]
  | Complete => [Lit (jlit "{'type':'complete','data':'Processing finished'}")]
  | Error m => [Lit (jlit "{'type':'error','data':"); Quoted m; Lit (jlit "}")]
  end.

(** A piece without a line feed; a piece without a surrogate out of a
    pair. *)
Definition quiet (p : piece) : bool :=
  match p with
  | Lit l => negb (existsb (N.eqb 10) l)
  | Quoted _ => true
  end.

Definition sound (p : piece) : bool :=
  match p with
  | Lit l => forallb (fun c => c <? 55296) l
  | Quoted s => units16 s
  end.

(** A decoder between two characters. *)
Definition ready (seen : bool) : decoder :=
  {| code_point := 0; bytes_needed := 0; bytes_seen := 0;
     lower_boundary := 128; upper_boundary := 191; bom_seen := seen |}.

(** A decoder inside a character, after the start of the text. *)
Definition pending (cp needed seen lower upper : N) : decoder :=
  {| code_point := cp; bytes_needed := needed; bytes_seen := seen;
     lower_boundary := lower; upper_boundary := upper; bom_seen := true |}.

Section Client.
Context {engine : Engine}.

(** What the client does with one event that reached it whole: the line is
    logged, the parsed payload goes through the [switch], and what the
    [switch] throws is caught. *)
Definition deliver (u : Page.ui) (e : ProgressEvent) : Page.ui :=
  Page.settle (text e)
    (Page.dispatch (received e) (Page.log (Page.ParsingLine (text e)) u)).

(** The reader after the text [a] has arrived, however it was cut: the
    complete parts of [a] have been processed, the open one is in the
    buffer. *)
Definition after (u : Page.ui) (a : jsstring) (d : Bytes.decoder) : Page.reader :=
  {| Page.view :=
       fold_left Page.process_part (removelast (split a Page.delimiter)) u;
     Page.buffer := last (split a Page.delimiter) [];
     Page.decoder := d |}.

End Client.

End Wire.

(** ** Concrete requests *)

Module Demo.
Import JS JSON Value Bytes Remote Route.

Definition engine : Engine :=
  {| number_to_string := fun l => l;
     number_to_boolean := fun _ => true;
     syntax_error_message := fun _ => lit "Unexpected token" |}.

(** A JSON text written with an apostrophe for each double quote. *)
Definition json_text (s : string) : jsstring := Wire.jlit s.

Definition file : File := {| file_type := lit "image/png"; file_bytes := [1; 2; 3] |}.

Definition form : FormData := [(lit "image", EntryFile file)].

Definition planned (t : jsstring) : GenerateContentResponse :=
  {| candidates := None; response_text := Some t |}.

Definition three_poses : jsstring :=
  json_text "[{'pose':'arms raised'},{'pose':'arms level'},{'pose':'arms lowered'}]".

(** A response whose first part is commentary and whose second part is an
    image. *)
Definition image (base64ImageData : string) : GenerateContentResponse :=
  {| candidates :=
       Some [{| content :=
                  Some {| parts :=
                            Some [{| text := Some (lit "Here is the frame.");
                                     inlineData := None |};
                                  {| text := None;
                                     inlineData :=
                                       Some {| data := Some (lit base64ImageData);
                                               mimeType := Some (lit "image/png") |} |}] |} |}];
     response_text := Some (lit "Here is the frame.") |}.

(** A response of one part that carries both a caption and an image. *)
Definition captioned_image : GenerateContentResponse :=
  {| candidates :=
       Some [{| content :=
                  Some {| parts :=
                            Some [{| text := Some (lit "a caption");
                                     inlineData :=
                                       Some {| data := Some (lit "QUJD");
                                               mimeType := Some (lit "image/png") |} |}] |} |}];
     response_text := Some (lit "a caption") |}.

(** A response without an image. *)
Definition commentary : GenerateContentResponse :=
  {| candidates :=
       Some [{| content :=
                  Some {| parts := Some [{| text := Some (lit "I cannot draw this.");
                                            inlineData := None |}] |} |}];
     response_text := Some (lit "I cannot draw this.") |}.

(** The image model always answers with that image. *)
Definition always_image : remote := fun _ _ => inr (image "QUJD").


(** Three poses planned; the second render returns commentary only. *)
Definition second_render_is_text : remote :=
  fun n _ =>
    match n with
    | 0%nat => inr (planned three_poses)
    | 1%nat => inr (image "QUJD")
    | 2%nat => inr commentary
    | _ => inr (image "REVG")
    end.

(** The planner call is rejected. *)
Definition planner_fails : remote :=
  fun _ _ => inl (ThrowError (lit "model overloaded")).

(** The planner answers with text that is not JSON, or with JSON that is
    not an array. *)
Definition planner_rambles : remote :=
  fun _ _ => inr (planned (lit "Sorry, no poses today.")).

Definition planner_returns_object : remote :=
  fun _ _ => inr (planned (json_text "{'pose':'arms raised'}")).

(** A stream of events (the planner's text holds an accented letter and a
    character outside the basic plane), and its bytes cut after every single
    byte. *)
Definition stream : list ProgressEvent :=
  [Poses (Some [91; 233; 55357; 56832; 93]);
   Frame (Some (lit "QUJD")) (Some (lit "image/png"));
   Complete].

Definition byte_by_byte : list bytes :=
  map (fun b => [b]) (concat (map (fun e => chunk_of (payload e)) stream)).

(** [fetch] against the handler: the answer of [POST] as the client gets
    it.  The chunks of a stream arrive as [cut] delivers them. *)
Definition fetch_from {engine : Engine} (ai : remote) (cut : list bytes -> list bytes)
    (formData : FormData) : thrown + Page.Response :=
  match POST ai formData initial with
  | (inr (JsonResponse body status), _, _) =>
      inr {| Page.ok := (200 <=? status) && (status <=? 299);
             Page.status := status;
             Page.body_text := match stringify body with Some t => t | None => [] end;
             Page.body := Some ([], None) |}
  | (inr (StreamResponse _), tr, _) =>
      inr {| Page.ok := true; Page.status := 200; Page.body_text := [];
             Page.body := Some (cut (enqueued tr), None) |}
  | (inl e, _, _) => inl e
  end.

(** The chunks as enqueued, and cut after every single byte. *)
Definition as_enqueued (chunks : list bytes) : list bytes := chunks.

Definition bytewise (chunks : list bytes) : list bytes :=
  map (fun b => [b]) (concat chunks).

End Demo.

(** ** What the user sees *)

Module Seen.
Import JS JSON Value Bytes Remote Route.

(** An action that puts the stream in its errored state. *)
Definition errored (a : action) : bool :=
  match a with
  | Errored _ => true
  | _ => false
  end.

(** The media type the client gives a frame: [contentType || "image/png"]. *)
Definition mime_of (contentType : option jsstring) : jsstring :=
  match contentType with
  | Some (c :: t) => c :: t
  | _ => lit "image/png"
  end.

(** The frame the client adds for an event: one for a frame event whose
    base64 data is not empty, none for any other event. *)
Definition shown (e : ProgressEvent) : list Page.Frame :=
  match e with
  | Frame (Some (b :: data)) contentType =>
      [{| Page.url := lit "data:" ++ mime_of contentType ++ lit ";base64," ++ b :: data;
          Page.file_name := lit "generated.png";
          Page.file_type := Page.File_type (mime_of contentType) |}]
  | _ => []
  end.

(** What makes the [try] block of [generateAnimation] end in its [catch],
    and with what: [fetch] rejected, the answer is not ok, it has no body,
    or a read of the body rejected. *)
Inductive gives_up : thrown + Page.Response -> thrown -> Prop :=
| fetch_rejected : forall e, gives_up (inl e) e
| answer_not_ok : forall r,
    Page.ok r = false ->
    gives_up (inr r)
      (ThrowError (lit "Failed to generate animation: " ++ Page.decimal (Page.status r)
                   ++ [32] ++ Page.body_text r))
| answer_without_body : forall r,
    Page.ok r = true -> Page.body r = None ->
    gives_up (inr r) (ThrowError (lit "No response body reader available"))
| read_rejected : forall r chunks e,
    Page.ok r = true -> Page.body r = Some (chunks, Some e) ->
    gives_up (inr r) e.

(** The cursor of the player is on a frame, when there is one. *)
Definition on_a_frame (s : Player.player) : Prop :=
  Player.frames s = [] \/ (0 <= Player.currentFrame s < Player.count s)%Z.

(** The file kept for the generation, if any, has an image type. *)
Definition holds_an_image (p : Player.picker) : Prop :=
  match Player.lastSelectedFile p with
  | Some f => starts_with (lit "image/") (file_type f) = true
  | None => True
  end.

(** What the user does at the upload area: choose files in the dialog,
    drop files on the area, drag something over it or away from it. *)
Inductive gesture : Type :=
| Choose (files : option (list File))
| Drop (files : option (list File))
| DragOver
| DragLeave.

Definition after_gesture (p : Player.picker) (g : gesture) : Player.picker :=
  match g with
  | Choose files => Player.handleFileSelection files p
  | Drop files => Player.handleDrop files p
  | DragOver => Player.handleDragOver p
  | DragLeave => Player.handleDragLeave p
  end.

(** [u'] is [u] with the frames [added] at the end of the timeline: each
    has its URL at the end of the generated images, in the same order, and
    carries the name "generated.png". *)
Definition adds (u u' : Page.ui) (added : list Page.Frame) : Prop :=
  Page.frames u' = Page.frames u ++ added
  /\ Page.generatedImages u' = Page.generatedImages u ++ map Page.url added
  /\ Forall (fun f => Page.file_name f = lit "generated.png") added.

(** What the client does with a line that is not JSON. *)
Definition skipped {engine : Engine} (line : jsstring) (u : Page.ui) : Page.ui :=
  match line with
  | [] => u
  | _ :: _ =>
      Page.log (Page.FailedToParse line (ThrowError (syntax_error_message line)))
        (Page.log (Page.ParsingLine line) u)
  end.

End Seen.

(** ** More concrete requests, answers and states *)

Module Samples.
Import JS JSON Value Bytes Remote Route.

(** Three entries planned, the second is [null]. *)
Definition null_in_the_middle : remote :=
  fun n _ =>
    match n with
    | 0%nat => inr (Demo.planned (Demo.json_text "[{'pose':'arms raised'},null,{'pose':'arms lowered'}]"))
    | _ => inr (Demo.image "QUJD")
    end.

(** Two entries planned, neither with a [pose]. *)
Definition nothing_described : remote :=
  fun n _ =>
    match n with
    | 0%nat => inr (Demo.planned (Demo.json_text "['wave',{'name':'jump'}]"))
    | _ => inr (Demo.image "QUJD")
    end.

(** The planner answers without text. *)
Definition planner_is_mute : remote :=
  fun _ _ => inr {| candidates := None; response_text := None |}.

(** The image model answers without candidates. *)
Definition no_candidates : remote :=
  fun _ _ => inr {| candidates := None; response_text := Some (lit "nothing to show") |}.

(** [fetch] answers 404; [fetch] answers with an image without a
    content type. *)
Definition not_found : jsstring -> thrown + Ai.ImageResponse :=
  fun _ =>
    inr {| Ai.ok := false; Ai.statusText := lit "Not Found"; Ai.arrayBuffer := inr [];
           Ai.content_type := Some (lit "text/html") |}.

Definition untyped_image : jsstring -> thrown + Ai.ImageResponse :=
  fun _ =>
    inr {| Ai.ok := true; Ai.statusText := lit "OK"; Ai.arrayBuffer := inr [1; 2; 3];
           Ai.content_type := None |}.

(** A store that keeps every file under the name it is given. *)
Definition stored : jsstring -> File -> thrown + BlobStore.PutBlobResult :=
  fun pathname f =>
    inr {| BlobStore.contentType := file_type f;
           BlobStore.url := lit "https://blob.example/" ++ pathname |}.

Definition frame_a : Player.Frame :=
  {| Player.id := lit "a";
     Player.still := {| Page.url := lit "data:image/png;base64,QUJD";
                        Page.file_name := lit "generated.png";
                        Page.file_type := lit "image/png" |} |}.

Definition frame_b : Player.Frame :=
  {| Player.id := lit "b";
     Player.still := {| Page.url := lit "data:image/png;base64,REVG";
                        Page.file_name := lit "generated.png";
                        Page.file_type := lit "image/png" |} |}.

Definition frame_c : Player.Frame :=
  {| Player.id := lit "c";
     Player.still := {| Page.url := lit "data:image/png;base64,R0hJ";
                        Page.file_name := lit "generated.png";
                        Page.file_type := lit "image/png" |} |}.

(** Two frames, the cursor on the second. *)
Definition two_frames : Player.player :=
  {| Player.frames := [frame_a; frame_b]; Player.isPlaying := false;
     Player.currentFrame := 1%Z |}.

Definition three_entries : list (option Player.Frame) :=
  [Some frame_a; Some frame_b; Some frame_c].

Definition nothing_selected : Player.picker :=
  {| Player.lastSelectedFile := None; Player.reading := [];
     Player.isDragOver := false |}.

(** [fetch] answers 502. *)
Definition bad_gateway : FormData -> thrown + Page.Response :=
  fun _ =>
    inr {| Page.ok := false; Page.status := 502;
           Page.body_text := lit "upstream timed out"; Page.body := None |}.

(** A frame without a content type and a frame without data, between the
    [poses] event and [complete]. *)
Definition four_events : list ProgressEvent :=
  [Poses (Some (lit "[]"));
   Frame (Some (lit "QUJD")) None;
   Frame None (Some (lit "image/png"));
   Complete].

(** One pose planned; the image model answers with a JPEG. *)
Definition jpeg_frames : remote :=
  fun n _ =>
    match n with
    | 0%nat => inr (Demo.planned (Demo.json_text "[{'pose':'arms raised'}]"))
    | _ =>
        inr {| candidates :=
                 Some [{| content :=
                            Some {| parts :=
                                      Some [{| Remote.text := None;
                                               inlineData :=
                                                 Some {| data := Some (lit "QUJD");
                                                         mimeType := Some (lit "image/jpeg") |} |}] |} |}];
               response_text := None |}
    end.

End Samples.

(** * Properties *)

(** ** The platform functions on small inputs *)

Module Checks.
Import JS JSON Value Bytes Wire.

Example split_keeps_the_open_part :
  split (lit "ab--cd--e") (lit "--") = [lit "ab"; lit "cd"; lit "e"].
Proof. reflexivity. Qed.

Example split_after_last_separator :
  split (lit "ab--") (lit "--") = [lit "ab"; []].
Proof. reflexivity. Qed.

Example split_of_nothing : split [] (lit "--") = [[]].
Proof. reflexivity. Qed.

Example split_does_not_overlap :
  split (lit "a---b") (lit "--") = [lit "a"; lit "-b"].
Proof. reflexivity. Qed.

Example trim_both_ends : trim (9 :: 32 :: lit "x y" ++ [13; 10; 160]) = lit "x y".
Proof. reflexivity. Qed.

Example stringify_escapes :
  stringify (VObj [(lit "data", VStr [34; 92; 10; 1; 233; 55357; 56832; 55357])])
  = Some (jlit "{'data':'" ++ [92; 34; 92; 92; 92; 110] ++ lit "\u0001"
          ++ [233; 55357; 56832] ++ lit "\ud83d" ++ jlit "'}").
Proof. reflexivity. Qed.

Example stringify_drops_undefined :
  stringify (VObj [(lit "type", VStr (lit "poses")); (lit "data", VUndefined)])
  = Some (jlit "{'type':'poses'}").
Proof. reflexivity. Qed.

Example stringify_array :
  stringify (VArr [VNull; VUndefined; VBool true; VNum (lit "1.5")])
  = Some (lit "[null,null,true,1.5]").
Proof. reflexivity. Qed.

Example parse_poses :
  parse (jlit " [ {'pose': 'arms\n raised'} , -1.5e+3, null, true, [] ] ")
  = Some (VArr [VObj [(lit "pose", VStr (lit "arms" ++ 10 :: lit " raised"))];
                VNum (lit "-1.5e+3"); VNull; VBool true; VArr []]).
Proof. reflexivity. Qed.

Example parse_unicode_escape :
  parse (34 :: 233 :: lit "\ud83D\u00e9" ++ [34]) = Some (VStr [233; 55357; 233]).
Proof. reflexivity. Qed.

Example parse_rejects_trailing_comma : parse (lit "[1,]") = None.
Proof. reflexivity. Qed.

Example parse_rejects_leading_zero : parse (lit "01") = None.
Proof. reflexivity. Qed.

Example parse_rejects_raw_line_feed : parse (34 :: 10 :: [34]) = None.
Proof. reflexivity. Qed.

Example parse_rejects_prose : parse (lit "Sorry, no poses today.") = None.
Proof. reflexivity. Qed.

Example later_key_wins :
  option_map (fun v => get v (lit "pose")) (parse (jlit "{'pose':'a','pose':'b'}"))
  = Some (inr (VStr (lit "b"))).
Proof. reflexivity. Qed.

Example base64_of_three : base64 [77; 97; 110] = lit "TWFu".
Proof. reflexivity. Qed.

Example base64_pads : base64 [77; 97] = lit "TWE=" /\ base64 [77] = lit "TQ==".
Proof. split; reflexivity. Qed.

Example utf8_lengths :
  TextEncoder_encode [65; 233; 8364; 55357; 56832; 56832]
  = [65; 195; 169; 226; 130; 172; 240; 159; 152; 128; 239; 191; 189].
Proof. reflexivity. Qed.

Example decoder_holds_back_an_open_character :
  let (d1, t1) := TextDecoder_decode TextDecoder_new [65; 226; 130] in
  let (d2, t2) := TextDecoder_decode d1 [172; 66] in
  t1 = [65] /\ t2 = [8364; 66].
Proof. split; reflexivity. Qed.

Example decoder_drops_byte_order_mark :
  snd (TextDecoder_decode TextDecoder_new [239; 187; 191; 65; 239; 187; 191])
  = [65; 65279].
Proof. reflexivity. Qed.

Example decoder_replaces_a_broken_sequence :
  snd (TextDecoder_decode TextDecoder_new [226; 130; 65]) = [65533; 65].
Proof. reflexivity. Qed.

Example to_string_of_array :
  ToString (engine := Demo.engine) (VArr [VStr (lit "a"); VNull; VArr [VBool true; VObj []]])
  = Some (lit "a,,true,[object Object]").
Proof. reflexivity. Qed.

Example to_string_hidden :
  ToString (engine := Demo.engine) (VObj [(lit "toString", VNull)]) = None.
Proof. reflexivity. Qed.

End Checks.

(** ** The adapter [nanobanana] *)

Module AiFacts.
Import JS JSON Value Bytes Remote Ai Observed.

Lemma scan_parts_skip : forall pre rest st,
  Forall (fun q => has_text q <> None \/ inlineData q = None) pre ->
  scan_parts (pre ++ rest) st =
  match scan_parts rest st with
  | (r, tr, st') => (r, map (fun t => Console (LogText t)) (texts pre) ++ tr, st')
  end.
Proof.
  induction pre as [|q pre IH]; intros rest st Hpre; simpl.
  - destruct (scan_parts rest st) as [[r tr] st']. reflexivity.
  - inversion Hpre as [|? ? Hq Hrest]; subst.
    destruct (has_text q) as [t|] eqn:Ht.
    + unfold bind, console, perform. rewrite (IH rest st Hrest).
      destruct (scan_parts rest st) as [[r tr] st']. destruct r; reflexivity.
    + destruct Hq as [Hq|Hq]; [congruence|]. rewrite Hq.
      apply IH. exact Hrest.
Qed.

Lemma scan_parts_none : forall ps st,
  (forall p, In p ps -> has_text p <> None \/ inlineData p = None) ->
  scan_parts ps st =
  (inr None, map (fun t => Console (LogText t)) (texts ps), st).
Proof.
  intros ps st H.
  rewrite <- (app_nil_r ps) at 1.
  rewrite scan_parts_skip by (apply Forall_forall; exact H).
  simpl. rewrite app_nil_r. reflexivity.
Qed.

End AiFacts.

(** ** The handler [POST] *)

Module RouteFacts.
Import JS JSON Value Bytes Remote Route Observed Notations.

#[local] Arguments chunk_of : simpl never.
#[local] Arguments base64 : simpl never.
#[local] Arguments lit : simpl never.
#[local] Arguments parse : simpl never.
#[local] Arguments planner_text : simpl never.

Lemma scan_parts_state : forall ps st,
  Ai.scan_parts ps st =
  (fst (fst (Ai.scan_parts ps initial)), snd (fst (Ai.scan_parts ps initial)), st)
  /\ exists found, fst (fst (Ai.scan_parts ps initial)) = inr found.
Proof.
  induction ps as [|p ps IH]; intros st; simpl.
  - split; [reflexivity|eauto].
  - destruct (Ai.has_text p) as [t|].
    + unfold bind, console, perform.
      destruct (IH st) as [Est _]. destruct (IH initial) as [_ (found & Hf)].
      rewrite Est. destruct (Ai.scan_parts ps initial) as [[r tr] s0].
      simpl in *. subst r. simpl. split; [reflexivity|eauto].
    + destruct (inlineData p) as [blob|].
      * split; [reflexivity|]. eexists. reflexivity.
      * apply IH.
Qed.

Lemma logs_of_silent : forall response, enqueued (logs_of response) = [].
Proof.
  intros response. unfold logs_of.
  induction (Ai.first_parts response) as [|p ps IH]; simpl; [reflexivity|].
  destruct (Ai.has_text p) as [t|].
  - unfold bind, console, perform.
    destruct (Ai.scan_parts ps initial) as [[r tr] st']. simpl in *.
    destruct r; simpl; exact IH.
  - destruct (inlineData p); [reflexivity|exact IH].
Qed.

Lemma logs_of_no_calls : forall response, image_edits (logs_of response) = [].
Proof.
  intros response. unfold logs_of.
  induction (Ai.first_parts response) as [|p ps IH]; simpl; [reflexivity|].
  destruct (Ai.has_text p) as [t|].
  - unfold bind, console, perform.
    destruct (Ai.scan_parts ps initial) as [[r tr] st']. simpl in *.
    destruct r; simpl; exact IH.
  - destruct (inlineData p); [reflexivity|exact IH].
Qed.

Lemma nanobanana_resolves : forall ai prompt buffer st response,
  ai (calls st) (ImageEdit prompt (base64 buffer)) = inr response ->
  Ai.nanobanana ai prompt buffer st =
  (inr (result_of response),
   Generate (calls st) (ImageEdit prompt (base64 buffer)) (inr response) :: logs_of response,
   {| calls := S (calls st); closed := closed st |}).
Proof.
  intros ai prompt buffer st response Hai.
  unfold Ai.nanobanana, bind, generateContent. rewrite Hai.
  destruct (scan_parts_state (Ai.first_parts response)
              {| calls := S (calls st); closed := closed st |}) as [-> (found & Hf)].
  unfold result_of, logs_of. rewrite Hf.
  destruct found; simpl; rewrite app_nil_r; reflexivity.
Qed.

Lemma nanobanana_rejects : forall ai prompt buffer st e,
  ai (calls st) (ImageEdit prompt (base64 buffer)) = inl e ->
  Ai.nanobanana ai prompt buffer st =
  (inl e, [Generate (calls st) (ImageEdit prompt (base64 buffer)) (inl e)],
   {| calls := S (calls st); closed := closed st |}).
Proof.
  intros ai prompt buffer st e Hai.
  unfold Ai.nanobanana, bind, generateContent. rewrite Hai. reflexivity.
Qed.

Lemma error_chunk : forall e,
  chunk_of (error_event e) = wire_chunk (Error (error_message e)).
Proof. intros [m|]; reflexivity. Qed.

Section Runs.
Context {engine : Engine}.
Variable ai : remote.

Lemma prompt_for_pure : forall pose st,
  prompt_for pose st = (prompt_of pose, [], st).
Proof.
  intros pose st. unfold prompt_for, prompt_of, bind, lift.
  destruct (get pose (lit "pose")) as [e|p]; simpl; [reflexivity|].
  destruct (ToString p); reflexivity.
Qed.

Lemma render_round : forall buffer pose rest prompt response k,
  prompt_of pose = inr prompt ->
  ai k (ImageEdit prompt (base64 buffer)) = inr response ->
  render_all ai buffer (pose :: rest) {| calls := k; closed := false |} =
  match render_all ai buffer rest {| calls := S k; closed := false |} with
  | (r, tr, st) => (r, pose_trace buffer k prompt response ++ tr, st)
  end.
Proof.
  intros buffer pose rest prompt response k Hp Hai.
  simpl. unfold bind at 1. rewrite prompt_for_pure, Hp.
  unfold bind at 1. rewrite (nanobanana_resolves ai prompt buffer _ response) by exact Hai.
  simpl. unfold bind at 1. unfold pose_trace, frame_of, wire_chunk.
  destruct (result_of response) as [b c|d]; simpl;
    destruct (render_all ai buffer rest {| calls := S k; closed := false |}) as [[r tr] st];
    simpl; rewrite <- ?app_assoc; simpl; rewrite ?app_nil_r; reflexivity.
Qed.

(** The loop runs to its end when every pose is rendered. *)
Lemma render_all_completes : forall buffer poses prs k,
  renders ai buffer k poses prs ->
  render_all ai buffer poses {| calls := k; closed := false |} =
  (inr tt, rendered_trace buffer k prs,
   {| calls := (k + length poses)%nat; closed := false |}).
Proof.
  intros buffer poses prs k H. induction H as [k|k pose poses prompt response prs Hp Hai _ IH].
  - simpl. rewrite Nat.add_0_r. reflexivity.
  - rewrite (render_round buffer pose poses prompt response k Hp Hai), IH.
    simpl. rewrite Nat.add_succ_r. reflexivity.
Qed.

(** It stops at the first pose whose prompt or whose call throws. *)
Lemma render_all_stops : forall buffer pre pose post prs e tail k k',
  renders ai buffer k pre prs ->
  stopped_at ai buffer (k + length pre) pose e tail k' ->
  render_all ai buffer (pre ++ pose :: post) {| calls := k; closed := false |} =
  (inl e, rendered_trace buffer k prs ++ tail, {| calls := k'; closed := false |}).
Proof.
  intros buffer pre pose post prs e tail k k' H.
  induction H as [k|k p poses prompt response prs Hp Hai _ IH]; intros Hstop.
  - simpl in Hstop. rewrite Nat.add_0_r in Hstop. simpl app.
    destruct Hstop as [Hp|prompt Hp Hai].
    + simpl. unfold bind at 1. rewrite prompt_for_pure, Hp. reflexivity.
    + simpl. unfold bind at 1. rewrite prompt_for_pure, Hp.
      unfold bind at 1.
      rewrite (nanobanana_rejects ai prompt buffer {| calls := k; closed := false |} e) by exact Hai.
      reflexivity.
  - simpl app.
    rewrite (render_round buffer p (poses ++ pose :: post) prompt response k Hp Hai).
    rewrite IH.
    + simpl. rewrite <- !app_assoc. reflexivity.
    + simpl in Hstop. rewrite Nat.add_succ_r in Hstop. exact Hstop.
Qed.

(** Every run of the loop is one or the other. *)
Lemma render_all_cases : forall buffer poses k,
  (exists prs, renders ai buffer k poses prs)
  \/ (exists pre pose post prs e tail k',
        poses = pre ++ pose :: post
        /\ renders ai buffer k pre prs
        /\ stopped_at ai buffer (k + length pre) pose e tail k').
Proof.
  intros buffer poses. induction poses as [|pose poses IH]; intros k.
  - left. exists []. constructor.
  - destruct (prompt_of pose) as [e|prompt] eqn:Hp.
    + right. exists [], pose, poses, [], e, [], k. simpl. rewrite Nat.add_0_r.
      repeat split; [constructor|]. apply stopped_prompt. exact Hp.
    + destruct (ai k (ImageEdit prompt (base64 buffer))) as [e|response] eqn:Hai.
      * right. exists [], pose, poses, [], e. do 2 eexists. simpl. rewrite Nat.add_0_r.
        repeat split; [constructor|]. eapply stopped_call; eauto.
      * destruct (IH (S k)) as [(prs & H)|(pre & p & post & prs & e & tail & k' & -> & H & Hs)].
        -- left. exists ((prompt, response) :: prs). econstructor; eauto.
        -- right. exists (pose :: pre), p, post, ((prompt, response) :: prs), e, tail, k'.
           repeat split.
           ++ econstructor; eauto.
           ++ simpl. rewrite Nat.add_succ_r. exact Hs.
Qed.

Variable f : File.

Lemma start_not_a_file : forall s,
  start ai (EntryString s) initial =
  (inr tt, failure (TypeError (lit "image.arrayBuffer is not a function")),
   {| calls := 0; closed := true |}).
Proof. reflexivity. Qed.

Lemma start_planner_rejects : forall e,
  ai 0%nat (planner_request f) = inl e ->
  start ai (EntryFile f) initial =
  (inr tt, Generate 0 (planner_request f) (inl e) :: failure e,
   {| calls := 1; closed := true |}).
Proof.
  intros e Hai.
  unfold start, try_catch, bind, arrayBuffer, ret, Ai.generatePosesFromImageBuffer,
    Ai.generatePosesFromImage, bind, generateContent.
  simpl. unfold planner_request in Hai. rewrite Hai. simpl.
  rewrite error_chunk. reflexivity.
Qed.

Variable r0 : GenerateContentResponse.
Hypothesis planned : ai 0%nat (planner_request f) = inr r0.

Ltac run_start planned :=
  unfold start, try_catch, arrayBuffer, Ai.generatePosesFromImageBuffer,
    Ai.generatePosesFromImage, JSON_parse, bind, generateContent, console, perform,
    enqueue, close, ret, throw;
  simpl calls; simpl closed;
  unfold planner_request in planned; rewrite planned;
  fold (planner_text r0); simpl.

Lemma start_unparsable :
  parse (planner_text r0) = None ->
  start ai (EntryFile f) initial =
  (inr tt,
   opening f r0 ++ failure (ThrowError (syntax_error_message (planner_text r0))),
   {| calls := 1; closed := true |}).
Proof.
  intros Hparse. run_start planned. rewrite Hparse. reflexivity.
Qed.

Lemma start_not_an_array : forall v,
  parse (planner_text r0) = Some v ->
  not_an_array v ->
  start ai (EntryFile f) initial =
  (inr tt, opening f r0 ++ completion, {| calls := 1; closed := true |}).
Proof.
  intros v Hparse Hv. run_start planned. rewrite Hparse.
  destruct v; try reflexivity. exfalso. eapply Hv. reflexivity.
Qed.

Lemma start_completes : forall poses prs,
  parse (planner_text r0) = Some (VArr poses) ->
  renders ai (file_bytes f) 1 poses prs ->
  start ai (EntryFile f) initial =
  (inr tt, opening f r0 ++ rendered_trace (file_bytes f) 1 prs ++ completion,
   {| calls := S (length poses); closed := true |}).
Proof.
  intros poses prs Hparse Hr. run_start planned. rewrite Hparse. simpl.
  rewrite (render_all_completes (file_bytes f) poses prs 1 Hr).
  simpl. rewrite ?app_nil_r. reflexivity.
Qed.

Lemma start_stops : forall pre pose post prs e tail k',
  parse (planner_text r0) = Some (VArr (pre ++ pose :: post)) ->
  renders ai (file_bytes f) 1 pre prs ->
  stopped_at ai (file_bytes f) (S (length pre)) pose e tail k' ->
  start ai (EntryFile f) initial =
  (inr tt, opening f r0 ++ rendered_trace (file_bytes f) 1 prs ++ tail ++ failure e,
   {| calls := k'; closed := true |}).
Proof.
  intros pre pose post prs e tail k' Hparse Hr Hs. run_start planned.
  rewrite Hparse. simpl.
  rewrite (render_all_stops (file_bytes f) pre pose post prs e tail 1 k' Hr Hs).
  simpl. rewrite error_chunk, <- ?app_assoc. reflexivity.
Qed.

End Runs.

Lemma enqueued_app : forall a b, enqueued (a ++ b) = enqueued a ++ enqueued b.
Proof.
  induction a as [|x a IH]; intros b; simpl; [reflexivity|].
  destruct x; simpl; rewrite ?IH; reflexivity.
Qed.

Lemma image_edits_app : forall a b, image_edits (a ++ b) = image_edits a ++ image_edits b.
Proof.
  induction a as [|x a IH]; intros b; simpl; [reflexivity|].
  destruct x as [n [prompt img|np mt img] out| | | |]; simpl; rewrite ?IH; reflexivity.
Qed.

Lemma enqueued_chunks : forall es,
  enqueued (map (fun e => Enqueue (wire_chunk e)) es) = map wire_chunk es.
Proof.
  induction es as [|e es IH]; simpl; [reflexivity|]. rewrite IH. reflexivity.
Qed.

Lemma enqueued_rendered : forall buffer prs k,
  enqueued (rendered_trace buffer k prs) = map wire_chunk (frames_of prs).
Proof.
  intros buffer prs. induction prs as [|[prompt response] prs IH]; intros k; simpl.
  - reflexivity.
  - rewrite !enqueued_app, logs_of_silent, enqueued_chunks, IH.
    unfold frames_of. simpl. rewrite map_app. reflexivity.
Qed.

Lemma image_edits_rendered : forall buffer prs k,
  image_edits (rendered_trace buffer k prs) = map fst prs.
Proof.
  intros buffer prs. induction prs as [|[prompt response] prs IH]; intros k; simpl.
  - reflexivity.
  - rewrite !image_edits_app, logs_of_no_calls, IH. simpl. f_equal.
    induction (frame_of response); simpl; auto.
Qed.

Lemma logs_of_console : forall response a,
  In a (logs_of response) -> exists entry, a = Console entry.
Proof.
  intros response. unfold logs_of.
  induction (Ai.first_parts response) as [|p ps IH]; simpl; [intros a []|].
  destruct (Ai.has_text p) as [t|].
  - unfold bind, console, perform.
    destruct (Ai.scan_parts ps initial) as [[r tr] st']. simpl in *.
    intros a [<-|Hin]; eauto.
  - destruct (inlineData p); [intros a []|exact IH].
Qed.



Lemma frames_of_frames : forall prs, forallb is_frame (frames_of prs) = true.
Proof.
  induction prs as [|[prompt response] prs IH]; simpl; [reflexivity|].
  unfold frames_of in *. simpl. rewrite forallb_app, IH, andb_true_r.
  unfold frame_of. destruct (result_of response); reflexivity.
Qed.



End RouteFacts.

Module AiClaims.
Import JS JSON Value Bytes Remote Ai Observed AiFacts.

Lemma qualifies_false : forall p,
  qualifies p = false -> has_text p <> None \/ inlineData p = None.
Proof.
  unfold qualifies. intros p H.
  destruct (has_text p); [left; discriminate|].
  destruct (inlineData p); [discriminate|right; reflexivity].
Qed.

Lemma first_qualifying : forall ps,
  (forall p, In p ps -> qualifies p = false) \/
  (exists pre p post, ps = pre ++ p :: post /\
     Forall (fun q => qualifies q = false) pre /\ qualifies p = true).
Proof.
  induction ps as [|a ps IH].
  - left. intros p [].
  - destruct (qualifies a) eqn:Ha.
    + right. exists [], a, ps. repeat split; auto.
    + destruct IH as [IH|(pre & p & post & -> & Hpre & Hp)].
      * left. intros p [<-|Hin]; auto.
      * right. exists (a :: pre), p, post. repeat split; auto.
Qed.

End AiClaims.

Import JS JSON Value Bytes Remote Observed.

(** C10, as amended.  [nanobanana] returns an image-tagged result exactly
    when some part of the first candidate's content has no (non-empty) text
    and carries inline data; it then returns the data and media type of the
    first such part, and the texts of the parts before it are only logged.
    Otherwise it returns a text-tagged result whose payload is the field
    [data], the response's text. *)
Theorem nanobanana_first_untexted_inline :
  forall (ai : remote) (prompt : jsstring) (imageBuffer : bytes) (st : state)
         (response : GenerateContentResponse),
    ai (calls st) (ImageEdit prompt (base64 imageBuffer)) = inr response ->
    let call := Generate (calls st) (ImageEdit prompt (base64 imageBuffer)) (inr response) in
    let st' := {| calls := S (calls st); closed := closed st |} in
    ((exists b c, fst (fst (Ai.nanobanana ai prompt imageBuffer st)) = inr (Ai.ImageResult b c))
     <-> (exists p, In p (Ai.first_parts response)
                    /\ Ai.has_text p = None /\ inlineData p <> None))
    /\ (forall pre p blob post,
          Ai.first_parts response = pre ++ p :: post ->
          Forall (fun q => Ai.has_text q <> None \/ inlineData q = None) pre ->
          Ai.has_text p = None ->
          inlineData p = Some blob ->
          Ai.nanobanana ai prompt imageBuffer st =
          (inr (Ai.ImageResult (data blob) (mimeType blob)),
           call :: map (fun t => Console (LogText t)) (texts pre), st'))
    /\ ((forall p, In p (Ai.first_parts response) ->
                   Ai.has_text p <> None \/ inlineData p = None) ->
        Ai.nanobanana ai prompt imageBuffer st =
        (inr (Ai.TextResult (response_text response)),
         call :: map (fun t => Console (LogText t)) (texts (Ai.first_parts response)), st')).
Proof.
  intros ai prompt imageBuffer st response Hai call st'.
  assert (Himg : forall pre p blob post,
            Ai.first_parts response = pre ++ p :: post ->
            Forall (fun q => Ai.has_text q <> None \/ inlineData q = None) pre ->
            Ai.has_text p = None ->
            inlineData p = Some blob ->
            Ai.nanobanana ai prompt imageBuffer st =
            (inr (Ai.ImageResult (data blob) (mimeType blob)),
             call :: map (fun t => Console (LogText t)) (texts pre), st')).
  { intros pre p blob post Hparts Hpre Ht Hb.
    unfold Ai.nanobanana, bind, generateContent. rewrite Hai, Hparts.
    rewrite AiFacts.scan_parts_skip by exact Hpre.
    simpl. rewrite Ht, Hb. simpl. rewrite !app_nil_r. reflexivity. }
  assert (Htxt : (forall p, In p (Ai.first_parts response) ->
                            Ai.has_text p <> None \/ inlineData p = None) ->
            Ai.nanobanana ai prompt imageBuffer st =
            (inr (Ai.TextResult (response_text response)),
             call :: map (fun t => Console (LogText t)) (texts (Ai.first_parts response)), st')).
  { intros Hall.
    unfold Ai.nanobanana, bind, generateContent. rewrite Hai.
    rewrite AiFacts.scan_parts_none by exact Hall.
    simpl. rewrite !app_nil_r. reflexivity. }
  split; [|split; assumption].
  destruct (AiClaims.first_qualifying (Ai.first_parts response))
    as [Hnone|(pre & p & post & Hparts & Hpre & Hp)].
  - rewrite Htxt by (intros p Hin; apply AiClaims.qualifies_false; auto).
    simpl. split.
    + intros (b & c & H). discriminate.
    + intros (p & Hin & Ht & Hb). specialize (Hnone p Hin).
      unfold qualifies in Hnone. rewrite Ht in Hnone.
      destruct (inlineData p); congruence.
  - unfold qualifies in Hp.
    destruct (Ai.has_text p) eqn:Ht; [discriminate|].
    destruct (inlineData p) as [blob|] eqn:Hb; [|discriminate].
    rewrite (Himg pre p blob post Hparts) ; auto.
    + simpl. split.
      * intros _. exists p. repeat split; auto.
        -- rewrite Hparts. apply in_or_app. right. left. reflexivity.
        -- congruence.
      * intros _. eauto.
    + eapply Forall_impl; [|exact Hpre]. intros q. apply AiClaims.qualifies_false.
Qed.

Lemma nanobanana_first_untexted_inline_witness :
  Demo.always_image (calls initial) (ImageEdit (lit "a pose") (base64 [1; 2; 3]))
  = inr (Demo.image "QUJD")
  /\ Ai.nanobanana Demo.always_image (lit "a pose") [1; 2; 3] initial =
     (inr (Ai.ImageResult (Some (lit "QUJD")) (Some (lit "image/png"))),
      [Generate 0 (ImageEdit (lit "a pose") (base64 [1; 2; 3])) (inr (Demo.image "QUJD"));
       Console (LogText (lit "Here is the frame."))],
      {| calls := 1; closed := false |}).
Proof.
  split; [reflexivity|].
  apply (proj1 (proj2 (nanobanana_first_untexted_inline Demo.always_image (lit "a pose")
                         [1; 2; 3] initial (Demo.image "QUJD") eq_refl))
           [{| text := Some (lit "Here is the frame."); inlineData := None |}]
           {| text := None;
              inlineData := Some {| data := Some (lit "QUJD");
                                    mimeType := Some (lit "image/png") |} |}
           {| data := Some (lit "QUJD"); mimeType := Some (lit "image/png") |}
           []).
  - reflexivity.
  - constructor; [left; discriminate|constructor].
  - reflexivity.
  - reflexivity.
Defined.

(** C10 as stated fails: a part that carries inline image data together
    with a caption is logged as text, and the result is text-tagged. *)
Lemma nanobanana_captioned_image_is_text :
  (exists p, In p (Ai.first_parts Demo.captioned_image) /\ inlineData p <> None)
  /\ fst (fst (Ai.nanobanana (fun _ _ => inr Demo.captioned_image) (lit "pose") [1; 2; 3] initial))
     = inr (Ai.TextResult (Some (lit "a caption"))).
Proof.
  split.
  - eexists. split; [left; reflexivity|]. discriminate.
  - reflexivity.
Qed.

(** ** The claims about the handler *)

Module RouteClaims.
Import JS JSON Value Bytes Remote Route Observed RouteFacts.

Section Runs.
Context {engine : Engine}.
Variable ai : remote.

(** With an image in the form, [POST] answers with the stream, and the
    stream carries what [start] does. *)
Lemma POST_streams : forall formData image r tr st,
  present (FormData_get (lit "image") formData) = Some image ->
  start ai image initial = (inr r, tr, st) ->
  POST ai formData initial = (inr (StreamResponse stream_headers), tr, st).
Proof.
  intros formData image r tr st Himage Hstart.
  unfold POST. rewrite Himage. unfold bind, ReadableStream. rewrite Hstart.
  simpl. rewrite app_nil_r. reflexivity.
Qed.

Lemma file_present : forall formData f,
  FormData_get (lit "image") formData = Some (EntryFile f) ->
  present (FormData_get (lit "image") formData) = Some (EntryFile f).
Proof. intros formData f H. rewrite H. reflexivity. Qed.

End Runs.

End RouteClaims.

Import Route.

(** C9.  A request whose form data has no image field is answered at once
    with the JSON body [{error: "No image provided"}] and status 400: no
    stream is opened, nothing is enqueued and no remote call is made. *)
Theorem missing_image_is_rejected :
  forall (engine : Engine) (ai : remote) (formData : FormData) (st : state),
    FormData_get (lit "image") formData = None ->
    POST ai formData st =
    (inr (JsonResponse (VObj [(lit "error", VStr (lit "No image provided"))]) 400),
     [], st).
Proof.
  intros engine ai formData st H. unfold POST. rewrite H. reflexivity.
Qed.

Lemma missing_image_is_rejected_witness :
  FormData_get (lit "image") [(lit "caption", EntryString (lit "hello"))] = None
  /\ POST (engine := Demo.engine) Demo.planner_fails
       [(lit "caption", EntryString (lit "hello"))] initial =
     (inr (JsonResponse (VObj [(lit "error", VStr (lit "No image provided"))]) 400),
      [], initial).
Proof.
  split; [reflexivity|].
  apply (missing_image_is_rejected Demo.engine Demo.planner_fails
           [(lit "caption", EntryString (lit "hello"))] initial).
  reflexivity.
Defined.











(** Scenario A and the text fallback, run: three poses, the second render
    returns commentary only; the stream carries the [poses] event, the
    frames of the first and third pose in that order, and [complete]. *)
Example text_fallback_is_skipped :
  enqueued (snd (fst (POST (engine := Demo.engine) Demo.second_render_is_text
                        Demo.form initial)))
  = [wire_chunk (Poses (Some Demo.three_poses));
     wire_chunk (Frame (Some (lit "QUJD")) (Some (lit "image/png")));
     wire_chunk (Frame (Some (lit "REVG")) (Some (lit "image/png")));
     wire_chunk Complete].
Proof. vm_compute. reflexivity. Qed.




(** ** Strings: cutting and splitting *)

Module JSFacts.
Import JS.

Lemma starts_with_app : forall p rest, starts_with p (p ++ rest) = true.
Proof.
  induction p as [|a p IH]; intros rest; simpl; [reflexivity|].
  rewrite N.eqb_refl, IH. reflexivity.
Qed.

Lemma starts_with_spec : forall p s,
  starts_with p s = true -> s = p ++ skipn (length p) s.
Proof.
  induction p as [|a p IH]; intros s H; simpl in *; [reflexivity|].
  destruct s as [|b s]; [discriminate|].
  apply andb_true_iff in H. destruct H as [Hab Hp].
  apply N.eqb_eq in Hab. subst b. f_equal. apply IH. exact Hp.
Qed.

Lemma starts_with_longer : forall p s rest,
  (length p <= length s)%nat -> starts_with p (s ++ rest) = starts_with p s.
Proof.
  induction p as [|a p IH]; intros s rest Hlen; simpl; [reflexivity|].
  destruct s as [|b s]; simpl in *; [lia|].
  rewrite IH by lia. reflexivity.
Qed.

(** [cut] returns the text around an occurrence of the separator. *)
Lemma cut_spec : forall sep s p q,
  cut sep s = Some (p, q) -> s = p ++ sep ++ q.
Proof.
  intros sep s. induction s as [|c s IH]; intros p q H.
  - simpl in H. destruct (starts_with sep []) eqn:Hs; [|discriminate].
    inversion H; subst. apply starts_with_spec in Hs. simpl. exact Hs.
  - simpl in H. destruct (starts_with sep (c :: s)) eqn:Hs.
    + inversion H; subst. apply starts_with_spec in Hs. simpl. exact Hs.
    + destruct (cut sep s) as [[p' q']|] eqn:Hc; [|discriminate].
      inversion H; subst. simpl. f_equal. apply IH. reflexivity.
Qed.

(** An occurrence found in a text is still the leftmost one when more text
    follows. *)
Lemma cut_app : forall sep s rest p q,
  cut sep s = Some (p, q) -> cut sep (s ++ rest) = Some (p, q ++ rest).
Proof.
  intros sep s. induction s as [|c s IH]; intros rest p q H.
  - simpl in H. destruct (starts_with sep []) eqn:Hs; [|discriminate].
    destruct sep; [|discriminate]. inversion H; subst. simpl.
    destruct rest; reflexivity.
  - pose proof (cut_spec _ _ _ _ H) as Hspec.
    assert (Hlen : (length sep <= length (c :: s))%nat).
    { rewrite Hspec, !length_app. lia. }
    pose proof (starts_with_longer sep (c :: s) rest Hlen) as Hsw.
    simpl in H. simpl app in *. simpl cut. rewrite Hsw.
    destruct (starts_with sep (c :: s)) eqn:Hs.
    + inversion H; subst. f_equal. f_equal.
      change (c :: s ++ rest) with ((c :: s) ++ rest).
      rewrite skipn_app.
      replace (length sep - length (c :: s))%nat with 0%nat by lia.
      reflexivity.
    + destruct (cut sep s) as [[p' q']|] eqn:Hc; [|discriminate].
      inversion H; subst. rewrite (IH rest p' q eq_refl). reflexivity.
Qed.

Lemma split_fuel_enough : forall c sep n m s,
  (length s <= n)%nat -> (length s <= m)%nat ->
  split_fuel n (c :: sep) s = split_fuel m (c :: sep) s.
Proof.
  intros c sep. induction n as [|n IH]; intros m s Hn Hm.
  - destruct s; [|simpl in Hn; lia]. destruct m; reflexivity.
  - destruct m as [|m].
    + destruct s; [|simpl in Hm; lia]. reflexivity.
    + simpl. destruct (cut (c :: sep) s) as [[p q]|] eqn:Hc; [|reflexivity].
      f_equal. apply cut_spec in Hc. subst s.
      rewrite !length_app in Hn, Hm. simpl in Hn, Hm.
      apply IH; lia.
Qed.

(** [split] by a non-empty separator, one occurrence at a time. *)
Lemma split_unfold : forall c sep s,
  split s (c :: sep) =
  match cut (c :: sep) s with
  | None => [s]
  | Some (p, q) => p :: split q (c :: sep)
  end.
Proof.
  intros c sep s. unfold split.
  destruct (cut (c :: sep) s) as [[p q]|] eqn:Hc.
  - pose proof (cut_spec _ _ _ _ Hc) as Hs.
    rewrite (split_fuel_enough c sep (length s) (S (length s)) s) by lia.
    simpl. rewrite Hc. f_equal.
    apply split_fuel_enough; [|lia].
    rewrite Hs, !length_app. lia.
  - destruct (length s); simpl; rewrite ?Hc; reflexivity.
Qed.

Lemma split_not_nil : forall s sep, sep <> [] -> split s sep <> [].
Proof.
  intros s [|c sep] H; [congruence|].
  rewrite split_unfold. destruct (cut (c :: sep) s) as [[p q]|]; discriminate.
Qed.

(** Splitting a text that grows: the pieces already complete stay, and the
    last, open piece is split again with what was added. *)
Lemma split_app : forall c sep a b,
  split (a ++ b) (c :: sep) =
  removelast (split a (c :: sep)) ++ split (last (split a (c :: sep)) [] ++ b) (c :: sep).
Proof.
  intros c sep a. remember (length a) as n eqn:Hn. revert a Hn.
  induction n as [n IH] using lt_wf_ind. intros a Hn b.
  rewrite (split_unfold c sep a).
  destruct (cut (c :: sep) a) as [[p q]|] eqn:Hc.
  - rewrite (split_unfold c sep (a ++ b)), (cut_app _ _ b _ _ Hc).
    pose proof (cut_spec _ _ _ _ Hc) as Hs.
    assert (Hq : (length q < n)%nat).
    { rewrite Hn, Hs, !length_app. simpl. lia. }
    rewrite (IH (length q) Hq q eq_refl b).
    pose proof (split_not_nil q (c :: sep)) as Hne.
    destruct (split q (c :: sep)) as [|x xs] eqn:Hsq; [exfalso; apply Hne; congruence|].
    reflexivity.
  - reflexivity.
Qed.

(** A separator that begins with a code unit the text before it avoids is
    found right after that text. *)
Lemma cut_after : forall c sep p rest,
  ~ In c p -> cut (c :: sep) (p ++ (c :: sep) ++ rest) = Some (p, rest).
Proof.
  intros c sep p rest. induction p as [|x p IH]; intros Hp.
  - simpl app. destruct rest; simpl; rewrite N.eqb_refl, starts_with_app; simpl;
      rewrite ?skipn_app, ?skipn_all, ?Nat.sub_diag; reflexivity.
  - simpl app. simpl cut.
    assert (Hx : (c =? x) = false).
    { apply N.eqb_neq. intros ->. apply Hp. left. reflexivity. }
    rewrite Hx. simpl. simpl in IH. rewrite IH; [reflexivity|].
    intros H. apply Hp. right. exact H.
Qed.

Lemma trimStart_id : forall c s,
  is_white_space c = false -> trimStart (c :: s) = c :: s.
Proof. intros c s H. simpl. rewrite H. reflexivity. Qed.

(** A text that neither begins nor ends with white space is its own
    trimming. *)
Lemma trim_id : forall c m d,
  is_white_space c = false -> is_white_space d = false ->
  trim (c :: m ++ [d]) = c :: m ++ [d].
Proof.
  intros c m d Hc Hd. unfold trim, trimEnd.
  rewrite (trimStart_id c _ Hc).
  replace (rev (c :: m ++ [d])) with (d :: rev m ++ [c]).
  - rewrite (trimStart_id d _ Hd).
    simpl. rewrite rev_app_distr, rev_involutive. reflexivity.
  - simpl. rewrite rev_app_distr. reflexivity.
Qed.

End JSFacts.

(** ** The text of an event *)

Module TextFacts.
Import JS JSON Value Wire.

Lemma text_pieces : forall e, text e = render (pieces e).
Proof.
  intros e. unfold text, render, QuoteJSONString.
  destruct e as [[s|]|[b|] [c|]| |m]; simpl;
    repeat (rewrite <- app_assoc; simpl); reflexivity.
Qed.

Lemma stringify_event : forall e, stringify (Route.payload e) = Some (text e).
Proof.
  intros e. unfold text. destruct e as [p|b c| |m]; reflexivity.
Qed.

Lemma wire_text_event : forall e,
  Route.wire_text (Route.payload e) = text e ++ Route.delimiter.
Proof.
  intros e. unfold Route.wire_text, stringify_plus. rewrite stringify_event. reflexivity.
Qed.

End TextFacts.

(** ** JSON: what [stringify] writes, [parse] reads back *)

Module JSONFacts.
Import JS JSON Value Wire.

Lemma list_ind2 {A} (P : list A -> Prop) :
  P [] -> (forall a, P [a]) ->
  (forall a b l, P l -> P (b :: l) -> P (a :: b :: l)) ->
  forall l, P l.
Proof.
  intros H0 H1 H2 l.
  assert (H : P l /\ forall a, P (a :: l)).
  { induction l as [|b l [IHl IHbl]].
    - split; [exact H0|exact H1].
    - split; [apply IHbl|]. intros a. apply H2; [exact IHl|apply IHbl]. }
  apply H.
Qed.

#[local] Arguments hex4 : simpl never.
#[local] Arguments hex_digit : simpl never.
#[local] Arguments N.div : simpl never.
#[local] Arguments N.modulo : simpl never.
#[local] Arguments N.add : simpl never.
#[local] Arguments N.sub : simpl never.
#[local] Arguments N.mul : simpl never.

Ltac euclid a b :=
  let q := fresh "q" in
  let r := fresh "r" in
  let Hq := fresh "Hq" in
  let Hr := fresh "Hr" in
  pose proof (N.div_mod a b ltac:(lia)) as Hq;
  pose proof (N.mod_upper_bound a b ltac:(lia)) as Hr;
  set (q := a / b) in *; set (r := a mod b) in *; clearbody q r.

Ltac decide_tests :=
  repeat match goal with
         | |- context [?a =? ?b] => destruct (N.eqb_spec a b); try lia
         | |- context [?a <? ?b] => destruct (N.ltb_spec a b); try lia
         | |- context [?a <=? ?b] => destruct (N.leb_spec a b); try lia
         end.

Lemma hex_value_digit : forall d, d < 16 -> hex_value (hex_digit d) = Some d.
Proof.
  intros d Hd. unfold hex_value, hex_digit.
  destruct (N.ltb_spec d 10); decide_tests; cbn [andb]; f_equal; lia.
Qed.

Lemma hex4_escape : forall c,
  c < 65536 ->
  hex4 (hex_digit (c / 4096 mod 16)) (hex_digit (c / 256 mod 16))
       (hex_digit (c / 16 mod 16)) (hex_digit (c mod 16)) = Some c.
Proof.
  intros c Hc. unfold hex4.
  rewrite !hex_value_digit by (apply N.mod_upper_bound; lia).
  f_equal.
  pose proof (N.div_mod c 16 ltac:(lia)).
  pose proof (N.div_mod (c / 16) 16 ltac:(lia)).
  pose proof (N.div_mod (c / 256) 16 ltac:(lia)).
  pose proof (N.div_mod (c / 4096) 16 ltac:(lia)).
  assert (c / 16 / 16 = c / 256) by (rewrite N.Div0.div_div; reflexivity).
  assert (c / 256 / 16 = c / 4096) by (rewrite N.Div0.div_div; reflexivity).
  assert (c / 4096 < 16) by (apply N.Div0.div_lt_upper_bound; lia).
  assert (c / 4096 / 16 = 0) by (apply N.div_small; lia).
  lia.
Qed.

Lemma hex_digit_range : forall d, d < 16 -> 48 <= hex_digit d <= 102.
Proof.
  intros d Hd. unfold hex_digit. destruct (N.ltb_spec d 10); lia.
Qed.

(** *** Reading back what was quoted *)

Lemma parse_chars_escape : forall c rest,
  c < 65536 ->
  parse_chars (unicode_escape c ++ rest) = cons_fst c (parse_chars rest).
Proof.
  intros c rest Hc. unfold unicode_escape. simpl.
  rewrite hex4_escape by exact Hc. reflexivity.
Qed.

Lemma parse_chars_unit : forall c rest,
  is_lead_surrogate c = false ->
  parse_chars (quote_unit c ++ rest) = cons_fst c (parse_chars rest).
Proof.
  intros c rest Hlead. unfold quote_unit.
  destruct (N.eqb_spec c 8); [subst; reflexivity|].
  destruct (N.eqb_spec c 9); [subst; reflexivity|].
  destruct (N.eqb_spec c 10); [subst; reflexivity|].
  destruct (N.eqb_spec c 12); [subst; reflexivity|].
  destruct (N.eqb_spec c 13); [subst; reflexivity|].
  destruct (N.eqb_spec c 34); [subst; reflexivity|].
  destruct (N.eqb_spec c 92); [subst; reflexivity|].
  rewrite Hlead, orb_false_r.
  destruct ((c <? 32) || is_trail_surrogate c) eqn:Hesc.
  - apply parse_chars_escape.
    apply orb_true_iff in Hesc. destruct Hesc as [H|H].
    + apply N.ltb_lt in H. lia.
    + unfold is_trail_surrogate in H. apply andb_true_iff in H.
      destruct H as [_ H]. apply N.leb_le in H. lia.
  - apply orb_false_iff in Hesc. destruct Hesc as [H32 _].
    simpl. destruct (N.eqb_spec c 34); [contradiction|].
    destruct (N.eqb_spec c 92); [contradiction|]. rewrite H32. reflexivity.
Qed.

Lemma surrogate_literal : forall c rest,
  55296 <= c ->
  parse_chars (c :: rest) = cons_fst c (parse_chars rest).
Proof.
  intros c rest Hc. simpl.
  destruct (N.eqb_spec c 34); [lia|]. destruct (N.eqb_spec c 92); [lia|].
  destruct (N.ltb_spec c 32); [lia|]. reflexivity.
Qed.

Lemma quote_body_pair : forall a b l,
  is_lead_surrogate a = true -> is_trail_surrogate b = true ->
  quote_body (a :: b :: l) = a :: b :: quote_body l.
Proof. intros a b l Ha Hb. simpl. rewrite Ha, Hb. reflexivity. Qed.

Lemma quote_body_lone : forall a b l,
  is_lead_surrogate a = true -> is_trail_surrogate b = false ->
  quote_body (a :: b :: l) = unicode_escape a ++ quote_body (b :: l).
Proof. intros a b l Ha Hb. simpl. rewrite Ha, Hb. reflexivity. Qed.

Lemma quote_body_last : forall a,
  is_lead_surrogate a = true -> quote_body [a] = unicode_escape a.
Proof. intros a Ha. simpl. rewrite Ha. reflexivity. Qed.

Lemma quote_body_unit : forall a l,
  is_lead_surrogate a = false -> quote_body (a :: l) = quote_unit a ++ quote_body l.
Proof. intros a l Ha. simpl. rewrite Ha. reflexivity. Qed.

Lemma lead_range : forall c, is_lead_surrogate c = true -> 55296 <= c <= 56319.
Proof.
  intros c H. unfold is_lead_surrogate in H. apply andb_true_iff in H.
  destruct H as [H1 H2]. apply N.leb_le in H1. apply N.leb_le in H2. lia.
Qed.

Lemma trail_range : forall c, is_trail_surrogate c = true -> 56320 <= c <= 57343.
Proof.
  intros c H. unfold is_trail_surrogate in H. apply andb_true_iff in H.
  destruct H as [H1 H2]. apply N.leb_le in H1. apply N.leb_le in H2. lia.
Qed.

(** The four ways [quote_body] treats the head of a string. *)
Lemma quote_body_ind (P : jsstring -> jsstring -> Prop) :
  P [] [] ->
  (forall a b l, is_lead_surrogate a = true -> is_trail_surrogate b = true ->
                 P l (quote_body l) -> P (a :: b :: l) (a :: b :: quote_body l)) ->
  (forall a l, is_lead_surrogate a = true ->
               match l with b :: _ => is_trail_surrogate b = false | [] => True end ->
               P l (quote_body l) -> P (a :: l) (unicode_escape a ++ quote_body l)) ->
  (forall a l, is_lead_surrogate a = false ->
               P l (quote_body l) -> P (a :: l) (quote_unit a ++ quote_body l)) ->
  forall s, P s (quote_body s).
Proof.
  intros Hnil Hpair Hlone Hunit s.
  induction s as [| a | a b l IHl IHbl] using list_ind2.
  - exact Hnil.
  - destruct (is_lead_surrogate a) eqn:Ha.
    + rewrite quote_body_last by exact Ha.
      rewrite <- (app_nil_r (unicode_escape a)). apply (Hlone a []); auto.
    + rewrite quote_body_unit by exact Ha. apply Hunit; auto.
  - destruct (is_lead_surrogate a) eqn:Ha.
    + destruct (is_trail_surrogate b) eqn:Hb.
      * rewrite quote_body_pair by assumption. apply Hpair; auto.
      * rewrite quote_body_lone by assumption. apply (Hlone a (b :: l)); auto.
    + rewrite quote_body_unit by exact Ha. apply Hunit; auto.
Qed.

(** The characters [QuoteJSONString] writes are read back as the string. *)
Lemma parse_chars_quoted : forall s rest,
  parse_chars (quote_body s ++ 34 :: rest) = Some (s, rest).
Proof.
  intros s rest.
  apply (quote_body_ind (fun s q => parse_chars (q ++ 34 :: rest) = Some (s, rest))).
  - reflexivity.
  - intros a b l Ha Hb IH.
    apply lead_range in Ha. apply trail_range in Hb.
    change ((a :: b :: quote_body l) ++ 34 :: rest)
      with (a :: b :: quote_body l ++ 34 :: rest).
    rewrite surrogate_literal by lia. rewrite surrogate_literal by lia.
    rewrite IH. reflexivity.
  - intros a l Ha _ IH. apply lead_range in Ha.
    rewrite <- app_assoc, parse_chars_escape by lia. rewrite IH. reflexivity.
  - intros a l Ha IH.
    rewrite <- app_assoc, parse_chars_unit by exact Ha. rewrite IH. reflexivity.
Qed.

(** *** What quoting never writes *)

Lemma escape_no_newline : forall c, ~ In 10 (unicode_escape c).
Proof.
  intros c. unfold unicode_escape.
  pose proof (hex_digit_range (c / 4096 mod 16) ltac:(apply N.mod_upper_bound; lia)).
  pose proof (hex_digit_range (c / 256 mod 16) ltac:(apply N.mod_upper_bound; lia)).
  pose proof (hex_digit_range (c / 16 mod 16) ltac:(apply N.mod_upper_bound; lia)).
  pose proof (hex_digit_range (c mod 16) ltac:(apply N.mod_upper_bound; lia)).
  intros [H'|[H'|[H'|[H'|[H'|[H'|[]]]]]]]; lia.
Qed.

Lemma unit_no_newline : forall c, ~ In 10 (quote_unit c).
Proof.
  intros c. unfold quote_unit.
  destruct (N.eqb_spec c 8); [intros [H|[H|[]]]; lia|].
  destruct (N.eqb_spec c 9); [intros [H|[H|[]]]; lia|].
  destruct (N.eqb_spec c 10); [intros [H|[H|[]]]; lia|].
  destruct (N.eqb_spec c 12); [intros [H|[H|[]]]; lia|].
  destruct (N.eqb_spec c 13); [intros [H|[H|[]]]; lia|].
  destruct (N.eqb_spec c 34); [intros [H|[H|[]]]; lia|].
  destruct (N.eqb_spec c 92); [intros [H|[H|[]]]; lia|].
  destruct ((c <? 32) || is_lead_surrogate c || is_trail_surrogate c).
  - apply escape_no_newline.
  - intros [H|[]]. lia.
Qed.

(** No line feed leaves [QuoteJSONString]. *)
Lemma quote_body_no_newline : forall s, ~ In 10 (quote_body s).
Proof.
  intros s. apply (quote_body_ind (fun _ q => ~ In 10 q)).
  - intros [].
  - intros a b l Ha Hb IH [H|[H|H]].
    + apply lead_range in Ha. lia.
    + apply trail_range in Hb. lia.
    + exact (IH H).
  - intros a l _ _ IH H. apply in_app_or in H. destruct H as [H|H].
    + exact (escape_no_newline a H).
    + exact (IH H).
  - intros a l _ IH H. apply in_app_or in H. destruct H as [H|H].
    + exact (unit_no_newline a H).
    + exact (IH H).
Qed.

Lemma quoted_no_newline : forall s, ~ In 10 (QuoteJSONString s).
Proof.
  intros s. unfold QuoteJSONString. intros [H|H]; [lia|].
  apply in_app_or in H. destruct H as [H|[H|[]]]; [|lia].
  exact (quote_body_no_newline s H).
Qed.

(** *** Surrogates after quoting *)

Lemma paired_low : forall c tl, c < 55296 -> paired (c :: tl) = paired tl.
Proof.
  intros c tl Hc. simpl. unfold is_lead_surrogate, is_trail_surrogate.
  destruct (N.leb_spec 55296 c); [lia|]. cbn [andb].
  destruct (N.leb_spec 56320 c); [lia|]. cbn [andb negb].
  destruct (N.ltb_spec c 65536); [|lia]. reflexivity.
Qed.

Lemma paired_escape : forall c rest,
  paired (unicode_escape c ++ rest) = paired rest.
Proof.
  intros c rest. unfold unicode_escape.
  pose proof (hex_digit_range (c / 4096 mod 16) ltac:(apply N.mod_upper_bound; lia)).
  pose proof (hex_digit_range (c / 256 mod 16) ltac:(apply N.mod_upper_bound; lia)).
  pose proof (hex_digit_range (c / 16 mod 16) ltac:(apply N.mod_upper_bound; lia)).
  pose proof (hex_digit_range (c mod 16) ltac:(apply N.mod_upper_bound; lia)).
  cbn [app]. rewrite !paired_low by lia. reflexivity.
Qed.

Lemma paired_unit : forall c rest,
  c < 65536 -> is_lead_surrogate c = false ->
  paired (quote_unit c ++ rest) = paired rest.
Proof.
  intros c rest Hc Hlead. unfold quote_unit.
  destruct (N.eqb_spec c 8); [cbn [app]; rewrite !paired_low by lia; reflexivity|].
  destruct (N.eqb_spec c 9); [cbn [app]; rewrite !paired_low by lia; reflexivity|].
  destruct (N.eqb_spec c 10); [cbn [app]; rewrite !paired_low by lia; reflexivity|].
  destruct (N.eqb_spec c 12); [cbn [app]; rewrite !paired_low by lia; reflexivity|].
  destruct (N.eqb_spec c 13); [cbn [app]; rewrite !paired_low by lia; reflexivity|].
  destruct (N.eqb_spec c 34); [cbn [app]; rewrite !paired_low by lia; reflexivity|].
  destruct (N.eqb_spec c 92); [cbn [app]; rewrite !paired_low by lia; reflexivity|].
  rewrite Hlead, orb_false_r.
  destruct ((c <? 32) || is_trail_surrogate c) eqn:Hesc.
  - apply paired_escape.
  - apply orb_false_iff in Hesc. destruct Hesc as [_ Htrail].
    cbn [app paired]. rewrite Hlead, Htrail. cbn [negb andb].
    destruct (N.ltb_spec c 65536); [reflexivity|lia].
Qed.

(** A quoted string has its surrogates in pairs: the lone ones were
    escaped. *)
Lemma paired_quote_body : forall s rest,
  units16 s = true -> paired (quote_body s ++ rest) = paired rest.
Proof.
  intros s rest.
  apply (quote_body_ind
           (fun s q => units16 s = true -> paired (q ++ rest) = paired rest)).
  - reflexivity.
  - intros a b l Ha Hb IH H16.
    unfold units16 in H16. cbn [forallb] in H16.
    apply andb_true_iff in H16. destruct H16 as [_ H16].
    apply andb_true_iff in H16. destruct H16 as [_ H16].
    cbn [app paired]. rewrite Ha, Hb. cbn [andb]. apply IH. exact H16.
  - intros a l _ _ IH H16.
    unfold units16 in H16. cbn [forallb] in H16.
    apply andb_true_iff in H16. destruct H16 as [_ H16].
    rewrite <- app_assoc, paired_escape. apply IH. exact H16.
  - intros a l Ha IH H16.
    unfold units16 in H16. cbn [forallb] in H16.
    apply andb_true_iff in H16. destruct H16 as [Ha16 H16].
    apply N.ltb_lt in Ha16.
    rewrite <- app_assoc, paired_unit by assumption. apply IH. exact H16.
Qed.

End JSONFacts.

(** ** Events on the wire *)

Module EventFacts.
Import JS JSON Value Route Wire TextFacts JSONFacts.

Lemma render_no_newline : forall ps,
  forallb quiet ps = true -> ~ In 10 (render ps).
Proof.
  induction ps as [|p ps IH]; intros Hq; [intros []|].
  cbn [forallb] in Hq. apply andb_true_iff in Hq. destruct Hq as [Hp Hps].
  unfold render. cbn [map concat]. intros H. apply in_app_or in H.
  destruct H as [H|H]; [|exact (IH Hps H)].
  destruct p as [l|s]; cbn [render_piece quiet] in *.
  - apply negb_true_iff in Hp.
    assert (Hex : existsb (N.eqb 10) l = true).
    { apply existsb_exists. exists 10. split; [exact H|apply N.eqb_refl]. }
    congruence.
  - exact (quoted_no_newline s H).
Qed.

Lemma pieces_quiet : forall e, forallb quiet (pieces e) = true.
Proof. intros e. destruct e as [[s|]|[b|] [c|]| |m]; reflexivity. Qed.

(** The serialized payload of an event has no line feed, so it cannot hold
    the delimiter. *)
Lemma text_no_newline : forall e, ~ In 10 (text e).
Proof.
  intros e. rewrite text_pieces. apply render_no_newline, pieces_quiet.
Qed.

Lemma paired_literal : forall l rest,
  forallb (fun c => c <? 55296) l = true -> paired (l ++ rest) = paired rest.
Proof.
  induction l as [|c l IH]; intros rest H; [reflexivity|].
  cbn [forallb] in H. apply andb_true_iff in H. destruct H as [Hc Hl].
  apply N.ltb_lt in Hc. cbn [app]. rewrite paired_low by exact Hc.
  apply IH. exact Hl.
Qed.

Lemma render_paired : forall ps rest,
  forallb sound ps = true -> paired (render ps ++ rest) = paired rest.
Proof.
  induction ps as [|p ps IH]; intros rest Hs; [reflexivity|].
  cbn [forallb] in Hs. apply andb_true_iff in Hs. destruct Hs as [Hp Hps].
  unfold render. cbn [map concat]. rewrite <- app_assoc.
  fold (render ps).
  destruct p as [l|s]; cbn [render_piece sound] in *.
  - rewrite paired_literal by exact Hp. apply IH. exact Hps.
  - unfold QuoteJSONString. cbn [app]. rewrite paired_low by lia.
    rewrite <- app_assoc, paired_quote_body by exact Hp.
    cbn [app]. rewrite paired_low by lia. apply IH. exact Hps.
Qed.

Lemma pieces_sound : forall e, well_formed e = true -> forallb sound (pieces e) = true.
Proof.
  intros e H.
  destruct e as [[s|]|[b|] [c|]| |m];
    cbn [well_formed units16_opt] in H;
    cbn [pieces member app forallb sound].
  - rewrite H. reflexivity.
  - reflexivity.
  - apply andb_true_iff in H. destruct H as [Hb Hc]. rewrite Hb, Hc. reflexivity.
  - rewrite andb_true_r in H. rewrite H. reflexivity.
  - cbn [andb] in H. rewrite H. reflexivity.
  - reflexivity.
  - reflexivity.
  - rewrite H. reflexivity.
Qed.

Lemma text_paired : forall e rest,
  well_formed e = true -> paired (text e ++ rest) = paired rest.
Proof.
  intros e rest H. rewrite text_pieces. apply render_paired, pieces_sound, H.
Qed.

(** A serialized payload is an object: it opens and closes with a brace. *)
Lemma text_braces : forall e, exists m, text e = 123 :: m ++ [125].
Proof.
  intros e. unfold text.
  destruct e as [p|b c| |m]; cbn [Route.payload stringify serialize Route.poses_event
    Route.frame_event Route.complete_event Route.error_event]; eexists; reflexivity.
Qed.

Lemma classify_received : forall e, classify (received e) = Some e.
Proof.
  intros e. destruct e as [[s|]|[b|] [c|]| |m]; reflexivity.
Qed.

Lemma parse_enough : forall t v,
  (5 <= length t)%nat ->
  (forall n, parse_value (12 + n) t = Some (v, [])) ->
  parse t = Some v.
Proof.
  intros t v Hlen H. unfold parse.
  replace (2 * length t + 2)%nat with (12 + (2 * length t - 10))%nat by lia.
  rewrite H. reflexivity.
Qed.

Lemma parse_members_unfold : forall n s,
  parse_members (S n) s =
  match skip_ws s with
  | 34 :: r =>
      match parse_chars r with
      | None => None
      | Some (k, r1) =>
          match skip_ws r1 with
          | 58 :: r2 =>
              match parse_value n r2 with
              | None => None
              | Some (v, r3) =>
                  match skip_ws r3 with
                  | 44 :: r4 =>
                      match parse_members n r4 with
                      | Some (l, r5) => Some ((k, v) :: l, r5)
                      | None => None
                      end
                  | 125 :: r4 => Some ([(k, v)], r4)
                  | _ => None
                  end
              end
          | _ => None
          end
      end
  | _ => None
  end.
Proof. intros n s. reflexivity. Qed.

Lemma skip_ws_quote : forall rest, skip_ws (34 :: rest) = 34 :: rest.
Proof. reflexivity. Qed.

Lemma skip_ws_colon : forall rest, skip_ws (58 :: rest) = 58 :: rest.
Proof. reflexivity. Qed.

Lemma skip_ws_comma : forall rest, skip_ws (44 :: rest) = 44 :: rest.
Proof. reflexivity. Qed.

Lemma skip_ws_brace : forall rest, skip_ws (125 :: rest) = 125 :: rest.
Proof. reflexivity. Qed.

(** The parser on what the serializer writes, one construct at a time. *)
Lemma parse_string : forall n s rest,
  parse_value (S n) (34 :: quote_body s ++ 34 :: rest) = Some (VStr s, rest).
Proof.
  intros n s rest.
  change (parse_value (S n) (34 :: quote_body s ++ 34 :: rest))
    with (match parse_chars (quote_body s ++ 34 :: rest) with
          | Some (str, r') => Some (VStr str, r')
          | None => None
          end).
  rewrite parse_chars_quoted. reflexivity.
Qed.

Lemma parse_object : forall n k rest,
  parse_value (S n) (123 :: 34 :: quote_body k ++ rest) =
  match parse_members n (34 :: quote_body k ++ rest) with
  | Some (l, r) => Some (VObj l, r)
  | None => None
  end.
Proof. intros n k rest. reflexivity. Qed.

Lemma parse_last_member : forall n k s rest,
  parse_members (S (S n))
    (34 :: quote_body k ++ 34 :: 58 :: 34 :: quote_body s ++ 34 :: 125 :: rest) =
  Some ([(k, VStr s)], rest).
Proof.
  intros n k s rest.
  rewrite parse_members_unfold, skip_ws_quote, parse_chars_quoted, skip_ws_colon,
    parse_string, skip_ws_brace.
  reflexivity.
Qed.

Lemma parse_next_member : forall n k s rest,
  parse_members (S (S n))
    (34 :: quote_body k ++ 34 :: 58 :: 34 :: quote_body s ++ 34 :: 44 :: rest) =
  match parse_members (S n) rest with
  | Some (l, r) => Some ((k, VStr s) :: l, r)
  | None => None
  end.
Proof.
  intros n k s rest.
  rewrite parse_members_unfold, skip_ws_quote, parse_chars_quoted, skip_ws_colon,
    parse_string, skip_ws_comma.
  reflexivity.
Qed.

Lemma parse_last_object : forall n k k' inner l rest,
  parse_members n (34 :: quote_body k' ++ inner) = Some (l, 125 :: rest) ->
  parse_members (S (S n))
    (34 :: quote_body k ++ 34 :: 58 :: 123 :: 34 :: quote_body k' ++ inner) =
  Some ([(k, VObj l)], rest).
Proof.
  intros n k k' inner l rest H.
  rewrite parse_members_unfold, skip_ws_quote, parse_chars_quoted, skip_ws_colon,
    parse_object, H, skip_ws_brace.
  reflexivity.
Qed.

(** A property without a value is not written. *)
Lemma text_of_event : forall e,
  text e =
  match e with
  | Poses (Some s) =>
      123 :: 34 :: quote_body (lit "type") ++ 34 :: 58 :: 34 :: quote_body (lit "poses")
      ++ 34 :: 44 :: 34 :: quote_body (lit "data") ++ 34 :: 58 :: 34 :: quote_body s
      ++ 34 :: 125 :: []
  | Poses None =>
      123 :: 34 :: quote_body (lit "type") ++ 34 :: 58 :: 34 :: quote_body (lit "poses")
      ++ 34 :: 125 :: []
  | Frame b c =>
      123 :: 34 :: quote_body (lit "type") ++ 34 :: 58 :: 34 :: quote_body (lit "nanobanana")
      ++ 34 :: 44 :: 34 :: quote_body (lit "data") ++ 34 :: 58
      :: 123 :: 34 :: quote_body (lit "type") ++ 34 :: 58 :: 34 :: quote_body (lit "image")
      ++ 34 ::
      match b with
      | Some b' =>
          44 :: 34 :: quote_body (lit "base64ImageData") ++ 34 :: 58 :: 34 :: quote_body b'
          ++ 34 ::
          match c with
          | Some c' =>
              44 :: 34 :: quote_body (lit "contentType") ++ 34 :: 58 :: 34
              :: quote_body c' ++ 34 :: 125 :: 125 :: []
          | None => 125 :: 125 :: []
          end
      | None =>
          match c with
          | Some c' =>
              44 :: 34 :: quote_body (lit "contentType") ++ 34 :: 58 :: 34
              :: quote_body c' ++ 34 :: 125 :: 125 :: []
          | None => 125 :: 125 :: []
          end
      end
  | Complete =>
      123 :: 34 :: quote_body (lit "type") ++ 34 :: 58 :: 34 :: quote_body (lit "complete")
      ++ 34 :: 44 :: 34 :: quote_body (lit "data") ++ 34 :: 58 :: 34
      :: quote_body (lit "Processing finished") ++ 34 :: 125 :: []
  | Error m =>
      123 :: 34 :: quote_body (lit "type") ++ 34 :: 58 :: 34 :: quote_body (lit "error")
      ++ 34 :: 44 :: 34 :: quote_body (lit "data") ++ 34 :: 58 :: 34 :: quote_body m
      ++ 34 :: 125 :: []
  end.
Proof.
  intros e. unfold text.
  destruct e as [[s|]|[b|] [c|]| |m];
    cbn [stringify serialize Route.payload Route.poses_event Route.frame_event
         Route.complete_event Route.error_event of_opt join_comma];
    unfold QuoteJSONString;
    repeat (cbn [app]; rewrite <- ?app_assoc); reflexivity.
Qed.

(** With fuel to spare, the parser reads a serialized payload back. *)
Lemma parse_value_text : forall e n,
  parse_value (12 + n) (text e) = Some (received e, []).
Proof.
  intros e n. rewrite text_of_event.
  change (12 + n)%nat with (S (S (S (S (S (S (S (S (S (S (S (S n)))))))))))).
  destruct e as [[s|]|[b|] [c|]| |m]; rewrite parse_object.
  - rewrite parse_next_member, parse_last_member. reflexivity.
  - rewrite parse_last_member. reflexivity.
  - rewrite parse_next_member.
    erewrite parse_last_object; [reflexivity|].
    rewrite parse_next_member, parse_next_member, parse_last_member. reflexivity.
  - rewrite parse_next_member.
    erewrite parse_last_object; [reflexivity|].
    rewrite parse_next_member, parse_last_member. reflexivity.
  - rewrite parse_next_member.
    erewrite parse_last_object; [reflexivity|].
    rewrite parse_next_member, parse_last_member. reflexivity.
  - rewrite parse_next_member.
    erewrite parse_last_object; [reflexivity|].
    rewrite parse_last_member. reflexivity.
  - rewrite parse_next_member, parse_last_member. reflexivity.
  - rewrite parse_next_member, parse_last_member. reflexivity.
Qed.

Lemma text_long : forall e, (5 <= length (text e))%nat.
Proof.
  intros e. rewrite text_of_event.
  destruct e as [[s|]|[b|] [c|]| |m]; cbn [length]; rewrite !length_app; cbn [length]; lia.
Qed.

(** [JSON.parse(JSON.stringify(event))] is the event's object, without the
    properties that were [undefined]. *)
Lemma parse_text : forall e, parse (text e) = Some (received e).
Proof.
  intros e. apply parse_enough; [apply text_long|apply parse_value_text].
Qed.

Lemma trim_text : forall e, trim (text e) = text e.
Proof.
  intros e. destruct (text_braces e) as (m & ->).
  apply JSFacts.trim_id; reflexivity.
Qed.

End EventFacts.

(** ** The text of a stream *)

Module WireFacts.
Import JS JSON Value Route Wire TextFacts JSONFacts EventFacts.

Lemma wire_cons : forall e es, wire (e :: es) = text e ++ delimiter ++ wire es.
Proof.
  intros e es. unfold wire. cbn [map concat].
  rewrite wire_text_event, <- app_assoc. reflexivity.
Qed.

Lemma wire_app : forall es1 es2, wire (es1 ++ es2) = wire es1 ++ wire es2.
Proof.
  intros es1 es2. unfold wire. rewrite map_app, concat_app. reflexivity.
Qed.

Lemma wire_starts : forall es, wire es = [] \/ exists w, wire es = 123 :: w.
Proof.
  intros [|e es]; [left; reflexivity|]. right.
  rewrite wire_cons. destruct (text_braces e) as (m & ->). eexists. reflexivity.
Qed.

(** The text of a stream splits at the delimiter into the payloads of its
    events, with nothing left over. *)
Lemma split_after : forall p rest,
  ~ In 10 p -> split (p ++ delimiter ++ rest) delimiter = p :: split rest delimiter.
Proof.
  intros p rest Hp. unfold delimiter.
  rewrite JSFacts.split_unfold, JSFacts.cut_after by exact Hp. reflexivity.
Qed.

Lemma split_wire : forall es, split (wire es) delimiter = map text es ++ [[]].
Proof.
  induction es as [|e es IH].
  - reflexivity.
  - rewrite wire_cons, split_after by apply text_no_newline.
    rewrite IH. reflexivity.
Qed.

(** Where a delimiter can begin inside a delimiter followed by the rest of
    a stream: at its start, or after all of it. *)
Lemma delimiter_overlap : forall w l post,
  (w = [] \/ exists w', w = 123 :: w') ->
  delimiter ++ w = l ++ delimiter ++ post ->
  l = [] \/ exists l', l = delimiter ++ l'.
Proof.
  intros w l post Hw H.
  destruct l as [|x0 l]; [left; reflexivity|]. right.
  do 16 (destruct l as [|? l];
         [exfalso; destruct Hw as [->|(w' & ->)]; discriminate H|]).
  exists l. cbn in H. injection H. intros. subst. reflexivity.
Qed.

Lemma head_in : forall (c : N) (a b l m : list N),
  a ++ c :: l = b -> In c b.
Proof. intros c a b l m <-. apply in_or_app. right. left. reflexivity. Qed.

(** Every occurrence of the delimiter in the text of a stream is the one
    appended after some event. *)
Lemma wire_occurrence : forall es pre post,
  wire es = pre ++ delimiter ++ post ->
  exists es1 e es2,
    es = es1 ++ e :: es2 /\ pre = wire es1 ++ text e /\ post = wire es2.
Proof.
  induction es as [|e es IH]; intros pre post H.
  - exfalso. apply (f_equal (@length N)) in H.
    rewrite !length_app in H. cbn in H. lia.
  - rewrite wire_cons in H.
    apply app_eq_app in H. destruct H as (l & [[Ht Hrest]|[Hpre Hrest]]).
    + destruct l as [|x l].
      * rewrite app_nil_r in Ht. cbn [app] in Hrest.
        apply app_inv_head in Hrest.
        exists [], e, es. repeat split; auto.
      * exfalso. cbn in Hrest. injection Hrest as Hx _. subst x.
        apply (text_no_newline e). rewrite Ht. apply in_or_app. right. left. reflexivity.
    + destruct (delimiter_overlap (wire es) l post (wire_starts es) Hrest)
        as [->|(l' & ->)].
      * cbn [app] in Hrest. apply app_inv_head in Hrest.
        rewrite app_nil_r in Hpre.
        exists [], e, es. repeat split; auto.
      * rewrite <- app_assoc in Hrest. apply app_inv_head in Hrest.
        destruct (IH l' post Hrest) as (es1 & e' & es2 & -> & -> & ->).
        exists (e :: es1), e', es2. repeat split.
        rewrite Hpre, wire_cons, <- !app_assoc. reflexivity.
Qed.

Lemma text_has_no_delimiter : forall e pre post, text e <> pre ++ delimiter ++ post.
Proof.
  intros e pre post H. apply (text_no_newline e). rewrite H.
  apply in_or_app. right. left. reflexivity.
Qed.

End WireFacts.

Import Wire.

(** ** UTF-8: what [TextEncoder] writes, [TextDecoder] reads back *)

Module BytesFacts.
Import JS JSON Value Bytes Wire JSONFacts.

#[local] Arguments N.div : simpl never.
#[local] Arguments N.modulo : simpl never.
#[local] Arguments N.add : simpl never.
#[local] Arguments N.sub : simpl never.
#[local] Arguments N.mul : simpl never.

Lemma decode_cons : forall d b rest,
  TextDecoder_decode d (b :: rest) =
  let (d1, cps) := decode_byte d b in
  let (seen, out) := emit (bom_seen d1) cps in
  let (d2, out') := TextDecoder_decode (with_bom d1 seen) rest in
  (d2, out ++ out').
Proof. reflexivity. Qed.

(** Decoding goes byte by byte, so it does not matter where the bytes are
    cut into chunks. *)
Lemma decode_app : forall a b d,
  TextDecoder_decode d (a ++ b) =
  let (d1, o1) := TextDecoder_decode d a in
  let (d2, o2) := TextDecoder_decode d1 b in
  (d2, o1 ++ o2).
Proof.
  induction a as [|x a IH]; intros b d.
  - cbn [app TextDecoder_decode]. destruct (TextDecoder_decode d b). reflexivity.
  - cbn [app]. rewrite !decode_cons.
    destruct (decode_byte d x) as [d1 cps].
    destruct (emit (bom_seen d1) cps) as [seen out].
    rewrite IH.
    destruct (TextDecoder_decode (with_bom d1 seen) a) as [d2 o2].
    destruct (TextDecoder_decode d2 b) as [d3 o3].
    rewrite app_assoc. reflexivity.
Qed.

Ltac tests :=
  repeat match goal with
         | |- context [N.eqb ?a ?b] => destruct (N.eqb_spec a b); try lia
         | |- context [N.ltb ?a ?b] => destruct (N.ltb_spec a b); try lia
         | |- context [N.leb ?a ?b] => destruct (N.leb_spec a b); try lia
         end.

(** One ASCII byte. *)
Lemma decode_ascii : forall seen b,
  b <= 127 -> decode_byte (ready seen) b = (ready seen, [b]).
Proof.
  intros seen b Hb. unfold decode_byte, lead. cbn [bytes_needed ready].
  tests. reflexivity.
Qed.

Lemma emit_seen : forall cps,
  emit true cps = (true, concat (map utf16_of_scalar cps)).
Proof.
  induction cps as [|cp cps IH]; [reflexivity|].
  cbn [emit map concat]. rewrite IH. reflexivity.
Qed.

Lemma lead_two : forall b,
  194 <= b <= 223 ->
  decode_byte (ready true) b = (pending (b - 192) 1 0 128 191, []).
Proof.
  intros b Hb. unfold decode_byte, lead. cbn [bytes_needed ready N.eqb].
  destruct (N.leb_spec b 127); [lia|].
  destruct (N.leb_spec 194 b); [|lia]. destruct (N.leb_spec b 223); [|lia].
  reflexivity.
Qed.

Lemma lead_three : forall b,
  224 <= b <= 239 ->
  decode_byte (ready true) b =
  (pending (b - 224) 2 0 (if b =? 224 then 160 else 128)
     (if b =? 237 then 159 else 191), []).
Proof.
  intros b Hb. unfold decode_byte, lead. cbn [bytes_needed ready N.eqb].
  destruct (N.leb_spec b 127); [lia|].
  destruct (N.leb_spec 194 b); [|lia]. destruct (N.leb_spec b 223); [lia|].
  destruct (N.leb_spec 224 b); [|lia]. destruct (N.leb_spec b 239); [|lia].
  reflexivity.
Qed.

Lemma lead_four : forall b,
  240 <= b <= 244 ->
  decode_byte (ready true) b =
  (pending (b - 240) 3 0 (if b =? 240 then 144 else 128)
     (if b =? 244 then 143 else 191), []).
Proof.
  intros b Hb. unfold decode_byte, lead. cbn [bytes_needed ready N.eqb].
  destruct (N.leb_spec b 127); [lia|].
  destruct (N.leb_spec 194 b); [|lia]. destruct (N.leb_spec b 223); [lia|].
  destruct (N.leb_spec 224 b); [|lia]. destruct (N.leb_spec b 239); [lia|].
  destruct (N.leb_spec 240 b); [|lia]. destruct (N.leb_spec b 244); [|lia].
  reflexivity.
Qed.

Lemma continuation : forall cp needed seen lower upper b,
  needed <> 0 -> lower <= b <= upper -> seen + 1 <> needed ->
  decode_byte (pending cp needed seen lower upper) b =
  (pending (cp * 64 + (b - 128)) needed (seen + 1) 128 191, []).
Proof.
  intros cp needed seen lower upper b Hn Hb Hs.
  unfold decode_byte.
  cbn [bytes_needed bytes_seen code_point lower_boundary upper_boundary pending].
  destruct (N.eqb_spec needed 0); [contradiction|].
  destruct (N.ltb_spec b lower); [lia|]. destruct (N.ltb_spec upper b); [lia|].
  cbn [orb]. destruct (N.eqb_spec (seen + 1) needed); [contradiction|].
  reflexivity.
Qed.

Lemma last_continuation : forall cp needed seen lower upper b,
  needed <> 0 -> lower <= b <= upper -> seen + 1 = needed ->
  decode_byte (pending cp needed seen lower upper) b =
  (ready true, [cp * 64 + (b - 128)]).
Proof.
  intros cp needed seen lower upper b Hn Hb Hs.
  unfold decode_byte.
  cbn [bytes_needed bytes_seen code_point lower_boundary upper_boundary pending].
  destruct (N.eqb_spec needed 0); [contradiction|].
  destruct (N.ltb_spec b lower); [lia|]. destruct (N.ltb_spec upper b); [lia|].
  cbn [orb]. destruct (N.eqb_spec (seen + 1) needed); [|contradiction].
  reflexivity.
Qed.

Lemma decode_silent : forall d b cp needed seen lower upper rest,
  decode_byte d b = (pending cp needed seen lower upper, []) ->
  TextDecoder_decode d (b :: rest) =
  TextDecoder_decode (pending cp needed seen lower upper) rest.
Proof.
  intros d b cp needed seen lower upper rest H. rewrite decode_cons, H.
  cbn [emit bom_seen pending].
  change (with_bom (pending cp needed seen lower upper) true)
    with (pending cp needed seen lower upper).
  destruct (TextDecoder_decode (pending cp needed seen lower upper) rest). reflexivity.
Qed.

Lemma decode_emits : forall d b cp rest,
  decode_byte d b = (ready true, [cp]) ->
  TextDecoder_decode d (b :: rest) =
  let (d2, out) := TextDecoder_decode (ready true) rest in
  (d2, utf16_of_scalar cp ++ out).
Proof.
  intros d b cp rest H. rewrite decode_cons, H.
  cbn [bom_seen ready]. rewrite emit_seen. cbn [map concat].
  change (with_bom (ready true) true) with (ready true).
  destruct (TextDecoder_decode (ready true) rest). rewrite app_nil_r. reflexivity.
Qed.

(** A scalar value that is not a surrogate comes back from its UTF-8
    bytes. *)
Lemma decode_scalar : forall cp rest,
  cp < 55296 \/ 57344 <= cp ->
  cp < 1114112 ->
  TextDecoder_decode (ready true) (utf8_of_scalar cp ++ rest) =
  let (d, out) := TextDecoder_decode (ready true) rest in
  (d, utf16_of_scalar cp ++ out).
Proof.
  intros cp rest Hsur Hmax. unfold utf8_of_scalar.
  destruct (N.ltb_spec cp 128) as [H1|H1].
  { cbn [app]. apply decode_emits. apply decode_ascii. lia. }
  destruct (N.ltb_spec cp 2048) as [H2|H2].
  { cbn [app]. euclid cp 64.
    erewrite decode_silent by (apply lead_two; lia).
    rewrite (decode_emits _ _ cp); [reflexivity|].
    rewrite last_continuation by lia. f_equal. f_equal. lia. }
  destruct (N.ltb_spec cp 65536) as [H3|H3].
  { cbn [app].
    replace (cp / 4096) with (cp / 64 / 64) by (rewrite N.Div0.div_div; reflexivity).
    euclid cp 64. euclid q 64.
    erewrite decode_silent by (apply lead_three; lia).
    erewrite decode_silent.
    2:{ apply continuation; [lia| |lia].
        destruct (N.eqb_spec (224 + q0) 224); destruct (N.eqb_spec (224 + q0) 237); lia. }
    rewrite (decode_emits _ _ cp); [reflexivity|].
    rewrite last_continuation by lia. f_equal. f_equal. lia. }
  cbn [app].
  replace (cp / 262144) with (cp / 64 / 64 / 64) by (rewrite !N.Div0.div_div; reflexivity).
  replace (cp / 4096) with (cp / 64 / 64) by (rewrite N.Div0.div_div; reflexivity).
  euclid cp 64. euclid q 64. euclid q0 64.
  erewrite decode_silent by (apply lead_four; lia).
  erewrite decode_silent.
  2:{ apply continuation; [lia| |lia].
      destruct (N.eqb_spec (240 + q1) 240); destruct (N.eqb_spec (240 + q1) 244); lia. }
  erewrite decode_silent by (apply continuation; lia).
  rewrite (decode_emits _ _ cp); [reflexivity|].
  rewrite last_continuation by lia. f_equal. f_equal. lia.
Qed.

Lemma pair_is_scalar : forall a b,
  is_lead_surrogate a = true -> is_trail_surrogate b = true ->
  65536 <= scalar_of_pair a b < 1114112
  /\ utf16_of_scalar (scalar_of_pair a b) = [a; b].
Proof.
  intros a b Ha Hb. apply lead_range in Ha. apply trail_range in Hb.
  unfold scalar_of_pair, utf16_of_scalar. split; [lia|].
  destruct (N.ltb_spec (65536 + (a - 55296) * 1024 + (b - 56320)) 65536); [lia|].
  replace (65536 + (a - 55296) * 1024 + (b - 56320) - 65536)
    with ((b - 56320) + (a - 55296) * 1024) by lia.
  rewrite N.div_add by lia. rewrite N.Div0.mod_add.
  rewrite N.div_small by lia. rewrite N.mod_small by lia.
  f_equal; [lia|]. f_equal. lia.
Qed.

Lemma encode_pair : forall a b l,
  is_lead_surrogate a = true -> is_trail_surrogate b = true ->
  TextEncoder_encode (a :: b :: l) =
  utf8_of_scalar (scalar_of_pair a b) ++ TextEncoder_encode l.
Proof. intros a b l Ha Hb. cbn [TextEncoder_encode]. rewrite Ha, Hb. reflexivity. Qed.

Lemma encode_unit : forall a l,
  is_lead_surrogate a = false -> is_trail_surrogate a = false ->
  TextEncoder_encode (a :: l) = utf8_of_scalar a ++ TextEncoder_encode l.
Proof.
  intros a l Ha Hb. destruct l; cbn [TextEncoder_encode]; rewrite Ha, Hb; reflexivity.
Qed.

Lemma not_surrogate : forall a,
  is_lead_surrogate a = false -> is_trail_surrogate a = false ->
  a < 55296 \/ 57344 <= a.
Proof.
  intros a Ha Hb. unfold is_lead_surrogate, is_trail_surrogate in *.
  destruct (N.leb_spec 55296 a); [|lia]. destruct (N.leb_spec a 56319); [discriminate|].
  destruct (N.leb_spec 56320 a); [|lia]. destruct (N.leb_spec a 57343); [discriminate|].
  lia.
Qed.

(** Text whose surrogates are paired comes back from its UTF-8 bytes. *)
Lemma decode_encode : forall w,
  paired w = true ->
  TextDecoder_decode (ready true) (TextEncoder_encode w) = (ready true, w).
Proof.
  intros w. induction w as [| a | a b l IHl IHbl] using list_ind2; intros Hp.
  - reflexivity.
  - cbn [paired] in Hp. destruct (is_lead_surrogate a) eqn:Ha; [discriminate|].
    apply andb_true_iff in Hp. destruct Hp as [Hp _].
    apply andb_true_iff in Hp. destruct Hp as [Hb H16].
    apply negb_true_iff in Hb. apply N.ltb_lt in H16.
    rewrite encode_unit by assumption.
    rewrite decode_scalar; [| |lia].
    + cbn [TextEncoder_encode TextDecoder_decode]. unfold utf16_of_scalar.
      destruct (N.ltb_spec a 65536); [reflexivity|lia].
    + apply not_surrogate; assumption.
  - cbn [paired] in Hp. destruct (is_lead_surrogate a) eqn:Ha.
    + apply andb_true_iff in Hp. destruct Hp as [Hb Hl].
      rewrite encode_pair by assumption.
      destruct (pair_is_scalar a b Ha Hb) as [Hrange Hunits].
      rewrite decode_scalar by lia. rewrite (IHl Hl), Hunits. reflexivity.
    + apply andb_true_iff in Hp. destruct Hp as [Hp Hbl].
      apply andb_true_iff in Hp. destruct Hp as [Hb H16].
      apply negb_true_iff in Hb. apply N.ltb_lt in H16.
      rewrite encode_unit by assumption.
      rewrite decode_scalar; [| |lia].
      * rewrite (IHbl Hbl). unfold utf16_of_scalar.
        destruct (N.ltb_spec a 65536); [reflexivity|lia].
      * apply not_surrogate; assumption.
Qed.

(** The same from a new decoder, for text that begins with an ASCII
    character: no byte order mark is there to drop. *)
Lemma decode_encode_new : forall c w,
  c <= 127 -> paired w = true ->
  TextDecoder_decode TextDecoder_new (TextEncoder_encode (c :: w)) = (ready true, c :: w).
Proof.
  intros c w Hc Hp.
  rewrite encode_unit.
  - unfold utf8_of_scalar. destruct (N.ltb_spec c 128); [|lia]. cbn [app].
    rewrite decode_cons. change TextDecoder_new with (ready false).
    rewrite decode_ascii by lia. cbn [bom_seen ready emit negb andb].
    destruct (N.eqb_spec c 65279); [lia|].
    change (with_bom (ready false) true) with (ready true).
    rewrite (decode_encode w Hp). unfold utf16_of_scalar.
    destruct (N.ltb_spec c 65536); [reflexivity|lia].
  - unfold is_lead_surrogate. destruct (N.leb_spec 55296 c); [lia|reflexivity].
  - unfold is_trail_surrogate. destruct (N.leb_spec 56320 c); [lia|reflexivity].
Qed.

Lemma encode_app : forall a b,
  paired a = true ->
  TextEncoder_encode (a ++ b) = TextEncoder_encode a ++ TextEncoder_encode b.
Proof.
  intros a b. induction a as [| x | x y l IHl IHyl] using list_ind2; intros Hp.
  - reflexivity.
  - cbn [paired] in Hp. destruct (is_lead_surrogate x) eqn:Hx; [discriminate|].
    apply andb_true_iff in Hp. destruct Hp as [Hp _].
    apply andb_true_iff in Hp. destruct Hp as [Ht _]. apply negb_true_iff in Ht.
    cbn [app]. rewrite !encode_unit by assumption.
    cbn [TextEncoder_encode]. rewrite app_nil_r. reflexivity.
  - cbn [paired] in Hp. destruct (is_lead_surrogate x) eqn:Hx.
    + apply andb_true_iff in Hp. destruct Hp as [Hy Hl].
      cbn [app]. rewrite !encode_pair by assumption.
      rewrite (IHl Hl), app_assoc. reflexivity.
    + apply andb_true_iff in Hp. destruct Hp as [Hp Hyl].
      apply andb_true_iff in Hp. destruct Hp as [Ht _]. apply negb_true_iff in Ht.
      change ((x :: y :: l) ++ b) with (x :: (y :: l) ++ b).
      rewrite !encode_unit by assumption.
      rewrite (IHyl Hyl), app_assoc. reflexivity.
Qed.

(** *** ASCII bytes in UTF-8 *)

Lemma multibyte_high : forall cp x,
  128 <= cp -> In x (utf8_of_scalar cp) -> 128 <= x.
Proof.
  intros cp x Hcp. unfold utf8_of_scalar.
  destruct (N.ltb_spec cp 128); [lia|].
  assert (Hadd : forall k t, 128 <= k -> 128 <= k + t).
  { intros k t Hk. etransitivity; [exact Hk|apply N.le_add_r]. }
  destruct (N.ltb_spec cp 2048); [|destruct (N.ltb_spec cp 65536)];
    cbn [In]; intros H';
    repeat (destruct H' as [H'|H']; [rewrite <- H'; apply Hadd; lia|]);
    contradiction.
Qed.

Lemma encode_nil : forall w, TextEncoder_encode w = [] -> w = [].
Proof.
  intros [|c w] H; [reflexivity|]. exfalso.
  assert (Hne : forall cp, utf8_of_scalar cp <> []).
  { intros cp. unfold utf8_of_scalar.
    destruct (cp <? 128); [discriminate|]. destruct (cp <? 2048); [discriminate|].
    destruct (cp <? 65536); discriminate. }
  cbn [TextEncoder_encode] in H.
  destruct (is_lead_surrogate c).
  - destruct w as [|d w].
    + exact (Hne _ H).
    + destruct (is_trail_surrogate d); apply app_eq_nil in H; destruct H as [H _];
        exact (Hne _ H).
  - destruct (is_trail_surrogate c); apply app_eq_nil in H; destruct H as [H _];
      exact (Hne _ H).
Qed.

(** An ASCII byte in the UTF-8 of a text is an ASCII character of the
    text, and the bytes around it are the UTF-8 of the text around it. *)
Lemma ascii_byte : forall w pre b rest,
  paired w = true -> b < 128 ->
  TextEncoder_encode w = pre ++ b :: rest ->
  exists p q,
    w = p ++ b :: q /\ pre = TextEncoder_encode p /\ rest = TextEncoder_encode q
    /\ paired p = true /\ paired q = true.
Proof.
  intros w. induction w as [| a | a c l IHl IHcl] using list_ind2;
    intros pre b rest Hp Hb H.
  - destruct pre; discriminate H.
  - cbn [paired] in Hp. destruct (is_lead_surrogate a) eqn:Ha; [discriminate|].
    apply andb_true_iff in Hp. destruct Hp as [Hp _].
    apply andb_true_iff in Hp. destruct Hp as [Ht H16]. apply negb_true_iff in Ht.
    rewrite encode_unit in H by assumption. cbn [TextEncoder_encode] in H.
    rewrite app_nil_r in H.
    destruct (N.ltb_spec a 128) as [Hlow|Hhigh].
    + unfold utf8_of_scalar in H. destruct (N.ltb_spec a 128); [|lia].
      destruct pre as [|x pre]; [|destruct pre; discriminate H].
      injection H as -> <-. exists [], []. repeat split.
    + exfalso. assert (Hin : In b (utf8_of_scalar a))
        by (rewrite H; apply in_or_app; right; left; reflexivity).
      apply (multibyte_high a b Hhigh) in Hin. lia.
  - cbn [paired] in Hp. destruct (is_lead_surrogate a) eqn:Ha.
    + apply andb_true_iff in Hp. destruct Hp as [Hc Hl].
      rewrite encode_pair in H by assumption.
      destruct (pair_is_scalar a c Ha Hc) as [Hrange _].
      apply app_eq_app in H. destruct H as (m & [[HU HE]|[Hpre HE]]).
      * destruct m as [|x m].
        -- cbn [app] in HE. rewrite app_nil_r in HU.
           destruct (IHl [] b rest Hl Hb (eq_sym HE)) as (p & q & -> & Hpe & -> & Hpp & Hq).
           symmetry in Hpe. apply encode_nil in Hpe. subst p.
           exists [a; c], q. repeat split.
           ++ rewrite encode_pair by assumption. cbn [TextEncoder_encode].
              rewrite app_nil_r. symmetry. exact HU.
           ++ cbn [paired]. rewrite Ha, Hc. reflexivity.
           ++ exact Hq.
        -- exfalso. cbn [app] in HE. injection HE as <- _.
           assert (Hin : In b (utf8_of_scalar (scalar_of_pair a c)))
             by (rewrite HU; apply in_or_app; right; left; reflexivity).
           apply multibyte_high in Hin; lia.
      * destruct (IHl m b rest Hl Hb HE) as (p & q & -> & -> & -> & Hpp & Hq).
        exists (a :: c :: p), q. repeat split.
        -- rewrite encode_pair by assumption. exact Hpre.
        -- cbn [paired]. rewrite Ha, Hc. exact Hpp.
        -- exact Hq.
    + apply andb_true_iff in Hp. destruct Hp as [Hp Hcl].
      apply andb_true_iff in Hp. destruct Hp as [Ht H16]. apply negb_true_iff in Ht.
      apply N.ltb_lt in H16.
      rewrite encode_unit in H by assumption.
      assert (Hcons : forall p, paired p = true -> paired (a :: p) = true).
      { intros p Hpp. cbn [paired]. rewrite Ha, Ht.
        destruct (N.ltb_spec a 65536); [exact Hpp|lia]. }
      apply app_eq_app in H. destruct H as (m & [[HU HE]|[Hpre HE]]).
      * destruct m as [|x m].
        -- cbn [app] in HE. rewrite app_nil_r in HU.
           destruct (IHcl [] b rest Hcl Hb (eq_sym HE))
             as (p & q & Hw & Hpe & -> & Hpp & Hq).
           symmetry in Hpe. apply encode_nil in Hpe. subst p. cbn [app] in Hw.
           exists [a], q. rewrite Hw. repeat split.
           ++ rewrite encode_unit by assumption. cbn [TextEncoder_encode].
              rewrite app_nil_r. symmetry. exact HU.
           ++ apply Hcons. reflexivity.
           ++ exact Hq.
        -- cbn [app] in HE. injection HE as <- HE.
           destruct (N.ltb_spec a 128) as [Hlow|Hhigh].
           ++ unfold utf8_of_scalar in HU. destruct (N.ltb_spec a 128); [|lia].
              destruct pre as [|y pre]; [|destruct pre; discriminate HU].
              injection HU as -> <-. cbn [app] in HE.
              exists [], (c :: l). repeat split; auto.
           ++ exfalso. assert (Hin : In b (utf8_of_scalar a))
                by (rewrite HU; apply in_or_app; right; left; reflexivity).
              apply (multibyte_high a b Hhigh) in Hin. lia.
      * destruct (IHcl m b rest Hcl Hb HE) as (p & q & Hw & -> & -> & Hpp & Hq).
        exists (a :: p), q. rewrite Hw. repeat split.
        -- rewrite encode_unit by assumption. exact Hpre.
        -- apply Hcons. exact Hpp.
        -- exact Hq.
Qed.

End BytesFacts.

(** ** The read loop of the client *)

Module PageFacts.
Import JS JSON Value Bytes Route Observed Wire TextFacts JSONFacts EventFacts WireFacts
  BytesFacts.

Lemma last_app_nonempty {A} : forall (l1 l2 : list A) d,
  l2 <> [] -> last (l1 ++ l2) d = last l2 d.
Proof.
  induction l1 as [|x l1 IH]; intros l2 d H; [reflexivity|].
  cbn [app]. rewrite <- (IH l2 d H).
  destruct (l1 ++ l2) eqn:E; [|reflexivity].
  apply app_eq_nil in E. destruct E as [_ E]. contradiction.
Qed.

Lemma split_grows : forall a t,
  split (a ++ t) Page.delimiter =
  removelast (split a Page.delimiter)
  ++ split (last (split a Page.delimiter) [] ++ t) Page.delimiter.
Proof. intros a t. exact (JSFacts.split_app _ _ a t). Qed.

Section Client.
Context {engine : Engine}.

Lemma after_nothing : forall u d,
  after u [] d = {| Page.view := u; Page.buffer := []; Page.decoder := d |}.
Proof. reflexivity. Qed.

(** One read moves the reader from the text so far to the text so far and
    the text of the chunk. *)
Lemma on_chunk_after : forall u a d value,
  Page.on_chunk (after u a d) value =
  let (d', t) := TextDecoder_decode d value in after u (a ++ t) d'.
Proof.
  intros u a d value. unfold Page.on_chunk, after at 1.
  cbn [Page.view Page.buffer Page.decoder].
  destruct (TextDecoder_decode d value) as [d' t].
  unfold after. rewrite (split_grows a t).
  assert (Hne : split (last (split a Page.delimiter) [] ++ t) Page.delimiter <> [])
    by (apply JSFacts.split_not_nil; discriminate).
  rewrite removelast_app by exact Hne.
  rewrite fold_left_app, last_app_nonempty by exact Hne.
  reflexivity.
Qed.

Lemma read_after : forall chunks u a d,
  fold_left Page.on_chunk chunks (after u a d) =
  let (d', t) := TextDecoder_decode d (concat chunks) in after u (a ++ t) d'.
Proof.
  induction chunks as [|value chunks IH]; intros u a d.
  - cbn [fold_left concat TextDecoder_decode]. rewrite app_nil_r. reflexivity.
  - cbn [fold_left concat]. rewrite on_chunk_after, decode_app.
    destruct (TextDecoder_decode d value) as [d1 t1].
    rewrite IH.
    destruct (TextDecoder_decode d1 (concat chunks)) as [d2 t2].
    rewrite app_assoc. reflexivity.
Qed.

(** The read loop only sees the text the bytes spell, not the chunks. *)
Lemma read_loop_after : forall chunks u,
  Page.read_loop u chunks =
  let (d, t) := TextDecoder_decode TextDecoder_new (concat chunks) in after u t d.
Proof.
  intros chunks u. unfold Page.read_loop.
  rewrite <- after_nothing, read_after. reflexivity.
Qed.

Lemma read_loop_whole : forall chunks u,
  Page.read_loop u chunks = Page.read_loop u [concat chunks].
Proof.
  intros chunks u. rewrite !read_loop_after.
  cbn [concat]. rewrite app_nil_r. reflexivity.
Qed.

(** A part that is the payload of an event is delivered. *)
Lemma process_text : forall u e, Page.process_part u (text e) = deliver u e.
Proof.
  intros u e. unfold Page.process_part. rewrite trim_text.
  destruct (text_braces e) as (m & Hm).
  unfold deliver. destruct (text e) as [|c l] eqn:E; [discriminate Hm|].
  rewrite <- E. unfold Page.try_line. rewrite parse_text. reflexivity.
Qed.

Lemma fold_process : forall es u,
  fold_left Page.process_part (map text es) u = fold_left deliver es u.
Proof.
  induction es as [|e es IH]; intros u; [reflexivity|].
  cbn [map fold_left]. rewrite process_text. apply IH.
Qed.

End Client.

Lemma paired_wire : forall es,
  forallb well_formed es = true -> paired (wire es) = true.
Proof.
  induction es as [|e es IH]; intros H; [reflexivity|].
  cbn [forallb] in H. apply andb_true_iff in H. destruct H as [He Hes].
  rewrite wire_cons, text_paired by exact He.
  rewrite EventFacts.paired_literal by reflexivity. apply IH. exact Hes.
Qed.

Lemma paired_wire_text : forall e,
  well_formed e = true -> paired (wire_text (payload e)) = true.
Proof.
  intros e He. rewrite wire_text_event. rewrite text_paired by exact He. reflexivity.
Qed.

(** The bytes the handler enqueues, event by event, are the UTF-8 of the
    text of the stream. *)
Lemma chunks_of_wire : forall es,
  forallb well_formed es = true ->
  concat (map wire_chunk es) = TextEncoder_encode (wire es).
Proof.
  induction es as [|e es IH]; intros H; [reflexivity|].
  cbn [forallb] in H. apply andb_true_iff in H. destruct H as [He Hes].
  cbn [map concat]. rewrite (IH Hes).
  unfold wire. cbn [map concat]. fold (wire es).
  rewrite encode_app by (apply paired_wire_text; exact He).
  reflexivity.
Qed.

(** From a new decoder, the bytes of a stream decode to its text. *)
Lemma decode_wire : forall es,
  forallb well_formed es = true ->
  exists d, TextDecoder_decode TextDecoder_new (TextEncoder_encode (wire es)) = (d, wire es).
Proof.
  intros es H. pose proof (paired_wire es H) as Hp.
  destruct (wire_starts es) as [E|(w & E)]; rewrite E in *.
  - eexists. reflexivity.
  - eexists. apply decode_encode_new; [lia|].
    rewrite paired_low in Hp by lia. exact Hp.
Qed.

(** The reader after the bytes of a stream of events, however they were
    cut. *)
Lemma read_events : forall (engine : Engine) es chunks u,
  forallb well_formed es = true ->
  concat chunks = concat (map wire_chunk es) ->
  exists d,
    Page.read_loop u chunks =
    {| Page.view := fold_left deliver es u; Page.buffer := []; Page.decoder := d |}.
Proof.
  intros engine es chunks u Hwf Hchunks.
  rewrite read_loop_after, Hchunks, chunks_of_wire by exact Hwf.
  destruct (decode_wire es Hwf) as (d & ->). exists d.
  unfold after.
  assert (Hsplit : split (wire es) Page.delimiter = map text es ++ [[]])
    by exact (split_wire es).
  rewrite Hsplit, removelast_last, last_last, fold_process. reflexivity.
Qed.

(** What the client does with an [error] event: the [throw] of the [switch]
    is caught with the line, and only the console hears of it. *)
Lemma deliver_error : forall (engine : Engine) u m,
  deliver u (Error m) =
  Page.log (Page.FailedToParse (text (Error m)) (ThrowError m))
    (Page.log (Page.ParsingLine (text (Error m))) u).
Proof. intros engine u m. reflexivity. Qed.

(** *** The delimiter among the bytes *)

Lemma ascii_prefix : forall l q rest,
  forallb (fun b => b <? 128) l = true ->
  paired q = true ->
  TextEncoder_encode q = l ++ rest ->
  exists q', q = l ++ q' /\ rest = TextEncoder_encode q' /\ paired q' = true.
Proof.
  induction l as [|b l IH]; intros q rest Hl Hq H.
  - exists q. auto.
  - cbn [forallb] in Hl. apply andb_true_iff in Hl. destruct Hl as [Hb Hl].
    apply N.ltb_lt in Hb.
    destruct (ascii_byte q [] b (l ++ rest) Hq Hb H) as (p & q1 & -> & Hp & Hrest & _ & Hq1).
    symmetry in Hp. apply encode_nil in Hp. subst p.
    destruct (IH q1 rest Hl Hq1 (eq_sym Hrest)) as (q' & -> & -> & Hq').
    exists q'. auto.
Qed.

(** The delimiter among the bytes of a text is the delimiter in the text. *)
Lemma delimiter_bytes : forall w pre post,
  paired w = true ->
  TextEncoder_encode w = pre ++ TextEncoder_encode delimiter ++ post ->
  exists p q,
    w = p ++ delimiter ++ q /\ pre = TextEncoder_encode p /\ post = TextEncoder_encode q
    /\ paired p = true.
Proof.
  intros w pre post Hw H.
  change (TextEncoder_encode delimiter) with (10 :: lit "---CHUNK_END---" ++ [10]) in H.
  cbn [app] in H.
  destruct (ascii_byte w pre 10 _ Hw ltac:(lia) H) as (p & q & -> & -> & Hrest & Hp & Hq).
  rewrite <- app_assoc in Hrest.
  destruct (ascii_prefix (lit "---CHUNK_END---" ++ [10]) q post eq_refl Hq (eq_sym Hrest))
    as (q' & -> & -> & _).
  exists p, q'. repeat split; auto.
Qed.

Lemma well_formed_app : forall es1 es2,
  forallb well_formed (es1 ++ es2) = true ->
  forallb well_formed es1 = true /\ forallb well_formed es2 = true.
Proof.
  intros es1 es2 H. rewrite forallb_app in H. apply andb_true_iff in H. exact H.
Qed.

(** Every occurrence of the delimiter among the bytes of a stream is the
    one appended after some event. *)
Lemma chunk_occurrence : forall es pre post,
  forallb well_formed es = true ->
  concat (map wire_chunk es) = pre ++ TextEncoder_encode delimiter ++ post ->
  exists es1 e es2,
    es = es1 ++ e :: es2
    /\ pre = concat (map wire_chunk es1) ++ TextEncoder_encode (text e)
    /\ post = concat (map wire_chunk es2).
Proof.
  intros es pre post Hwf H.
  rewrite chunks_of_wire in H by exact Hwf.
  destruct (delimiter_bytes (wire es) pre post (paired_wire es Hwf) H)
    as (p & q & Hw & -> & -> & _).
  destruct (wire_occurrence es p q Hw) as (es1 & e & es2 & -> & -> & ->).
  destruct (well_formed_app es1 (e :: es2) Hwf) as [H1 H2].
  cbn [forallb] in H2. apply andb_true_iff in H2. destruct H2 as [_ H2].
  exists es1, e, es2. repeat split.
  - rewrite encode_app by (apply paired_wire; exact H1).
    rewrite chunks_of_wire by exact H1. reflexivity.
  - rewrite chunks_of_wire by exact H2. reflexivity.
Qed.

Lemma payload_bytes : forall e pre post,
  well_formed e = true ->
  TextEncoder_encode (text e) <> pre ++ TextEncoder_encode delimiter ++ post.
Proof.
  intros e pre post He H.
  assert (Hp : paired (text e) = true).
  { rewrite <- (app_nil_r (text e)). rewrite text_paired by exact He. reflexivity. }
  destruct (delimiter_bytes (text e) pre post Hp H) as (p & q & Hw & _).
  exact (text_has_no_delimiter e p q Hw).
Qed.

End PageFacts.

(** C5.  The serialized payload of every event the encoder writes --
    [poses], [frame], [complete], [error] -- holds no line feed, so the
    delimiter does not occur in it, neither in its text nor in its bytes;
    and every occurrence of the delimiter in a stream, in its text or in its
    bytes, is the one appended after an event. *)
Theorem delimiter_only_between_events :
  forall (e : ProgressEvent) (es : list ProgressEvent),
    stringify (payload e) = Some (text e)
    /\ ~ In 10 (text e)
    /\ includes (text e) delimiter = false
    /\ (forall pre post, text e <> pre ++ delimiter ++ post)
    /\ (forall pre post,
          wire es = pre ++ delimiter ++ post ->
          exists es1 e' es2,
            es = es1 ++ e' :: es2 /\ pre = wire es1 ++ text e' /\ post = wire es2)
    /\ (well_formed e = true ->
        forall pre post,
          TextEncoder_encode (text e) <> pre ++ TextEncoder_encode delimiter ++ post)
    /\ (forallb well_formed es = true ->
        forall pre post,
          concat (map wire_chunk es) = pre ++ TextEncoder_encode delimiter ++ post ->
          exists es1 e' es2,
            es = es1 ++ e' :: es2
            /\ pre = concat (map wire_chunk es1) ++ TextEncoder_encode (text e')
            /\ post = concat (map wire_chunk es2)).
Proof.
  intros e es. split; [apply TextFacts.stringify_event|].
  split; [apply EventFacts.text_no_newline|].
  split.
  { unfold includes. destruct (cut delimiter (text e)) as [[p q]|] eqn:Hc; [|reflexivity].
    exfalso. apply JSFacts.cut_spec in Hc.
    exact (WireFacts.text_has_no_delimiter e p q Hc). }
  split; [apply WireFacts.text_has_no_delimiter|].
  split; [apply WireFacts.wire_occurrence|].
  split.
  - intros He pre post. apply PageFacts.payload_bytes. exact He.
  - intros Hes pre post. apply PageFacts.chunk_occurrence. exact Hes.
Qed.

Lemma delimiter_only_between_events_witness :
  (well_formed (Poses (Some (10 :: lit "---CHUNK_END---" ++ [10]))) = true
   /\ forallb well_formed [Poses (Some (10 :: lit "---CHUNK_END---" ++ [10])); Complete] = true
   /\ wire [Poses (Some (10 :: lit "---CHUNK_END---" ++ [10])); Complete]
      = text (Poses (Some (10 :: lit "---CHUNK_END---" ++ [10]))) ++ delimiter
        ++ wire [Complete]
   /\ concat (map wire_chunk [Poses (Some (10 :: lit "---CHUNK_END---" ++ [10])); Complete])
      = TextEncoder_encode (text (Poses (Some (10 :: lit "---CHUNK_END---" ++ [10]))))
        ++ TextEncoder_encode delimiter ++ wire_chunk Complete)
  /\ (exists es1 e' es2,
        [Poses (Some (10 :: lit "---CHUNK_END---" ++ [10])); Complete] = es1 ++ e' :: es2
        /\ text (Poses (Some (10 :: lit "---CHUNK_END---" ++ [10]))) = wire es1 ++ text e'
        /\ wire [Complete] = wire es2)
  /\ (forall pre post,
        TextEncoder_encode (text (Poses (Some (10 :: lit "---CHUNK_END---" ++ [10]))))
        <> pre ++ TextEncoder_encode delimiter ++ post)
  /\ (exists es1 e' es2,
        [Poses (Some (10 :: lit "---CHUNK_END---" ++ [10])); Complete] = es1 ++ e' :: es2
        /\ TextEncoder_encode (text (Poses (Some (10 :: lit "---CHUNK_END---" ++ [10]))))
           = concat (map wire_chunk es1) ++ TextEncoder_encode (text e')
        /\ wire_chunk Complete = concat (map wire_chunk es2)).
Proof.
  destruct (delimiter_only_between_events
              (Poses (Some (10 :: lit "---CHUNK_END---" ++ [10])))
              [Poses (Some (10 :: lit "---CHUNK_END---" ++ [10])); Complete])
    as (_ & _ & _ & _ & Htext & Hpayload & Hbytes).
  split; [repeat split; vm_compute; reflexivity|].
  split; [apply Htext; reflexivity|].
  split; [apply Hpayload; reflexivity|].
  apply Hbytes; [reflexivity|]. vm_compute. reflexivity.
Defined.

(** C4.  Whatever the chunks into which the bytes of a stream of events
    reach the client -- single bytes, cuts inside the delimiter, inside a
    base64 payload or inside a character -- the read loop delivers exactly
    the events that were serialized, each once and in order: every line
    parses to the object that was serialized (in which the reader sees the
    event, its strings unchanged), nothing is left in the buffer, and the
    result is the one of reading the stream in one piece. *)
Theorem decoding_ignores_chunking :
  forall (engine : Engine) (es : list ProgressEvent) (chunks : list bytes) (u : Page.ui),
    forallb well_formed es = true ->
    concat chunks = concat (map wire_chunk es) ->
    Page.view (Page.read_loop u chunks) = fold_left deliver es u
    /\ Page.buffer (Page.read_loop u chunks) = []
    /\ Page.read_loop u chunks = Page.read_loop u [concat chunks]
    /\ Forall (fun e => parse (trim (text e)) = Some (received e)
                        /\ classify (received e) = Some e) es.
Proof.
  intros engine es chunks u Hwf Hchunks.
  destruct (PageFacts.read_events engine es chunks u Hwf Hchunks) as (d & Hread).
  split; [|split; [|split]].
  - rewrite Hread. reflexivity.
  - rewrite Hread. reflexivity.
  - apply PageFacts.read_loop_whole.
  - apply Forall_forall. intros e _. split.
    + rewrite EventFacts.trim_text. apply EventFacts.parse_text.
    + apply EventFacts.classify_received.
Qed.

Lemma decoding_ignores_chunking_witness :
  forallb well_formed Demo.stream = true
  /\ concat Demo.byte_by_byte = concat (map wire_chunk Demo.stream)
  /\ Page.view (Page.read_loop (engine := Demo.engine) Page.mount Demo.byte_by_byte)
     = fold_left (deliver (engine := Demo.engine)) Demo.stream Page.mount
  /\ Page.buffer (Page.read_loop (engine := Demo.engine) Page.mount Demo.byte_by_byte) = []
  /\ Page.read_loop (engine := Demo.engine) Page.mount Demo.byte_by_byte
     = Page.read_loop (engine := Demo.engine) Page.mount [concat Demo.byte_by_byte]
  /\ Forall (fun e => parse (trim (text e)) = Some (received e)
                      /\ classify (received e) = Some e) Demo.stream.
Proof.
  split; [reflexivity|]. split; [vm_compute; reflexivity|].
  apply (decoding_ignores_chunking Demo.engine Demo.stream Demo.byte_by_byte Page.mount).
  - reflexivity.
  - vm_compute. reflexivity.
Defined.

(** The same stream, run: read byte by byte, it leaves the planner's text,
    one frame with its data URL, and the status of completion. *)
Example byte_by_byte_run :
  let u := Page.view (Page.read_loop (engine := Demo.engine) Page.mount Demo.byte_by_byte) in
  Page.generatedPoses u = VStr [91; 233; 55357; 56832; 93]
  /\ Page.generatedImages u = [lit "data:image/png;base64,QUJD"]
  /\ map Page.url (Page.frames u) = [lit "data:image/png;base64,QUJD"]
  /\ Page.generationProgress u = lit "Animation generation complete!".
Proof. vm_compute. repeat split. Qed.

(** C8, at a request whose planner call is rejected, so that the stream
    carries an [error] event.  The [throw] of the [error] case is caught by
    the [catch] around the line, which was written for parse errors: the
    message is sent to the console as a parse failure, the status the user
    sees stays what it was ("Starting generation..."), and no timer is set
    to clear it. *)
Theorem error_event_never_reaches_the_status :
  let fetch := Demo.fetch_from (engine := Demo.engine) Demo.planner_fails Demo.as_enqueued in
  let u := Page.generateAnimation (engine := Demo.engine) fetch (Some Demo.file) Page.mount in
  option_map Page.body (match fetch Demo.form with inr r => Some r | inl _ => None end)
  = Some (Some ([wire_chunk (Error (lit "model overloaded"))], None))
  /\ Page.generationProgress u = lit "Starting generation..."
  /\ Page.generationProgress u <> lit "Error: model overloaded"
  /\ Page.timers u = []
  /\ Page.isGenerating u = false
  /\ Page.console u =
     [Page.ParsingLine (text (Error (lit "model overloaded")));
      Page.FailedToParse (text (Error (lit "model overloaded")))
        (ThrowError (lit "model overloaded"))].
Proof.
  vm_compute. repeat split. discriminate.
Qed.

(** The same for every message: an [error] event that arrives alone leaves
    the status at "Starting generation...", whatever its message and
    however its bytes are cut. *)
Lemma error_events_are_swallowed :
  forall (engine : Engine) (m : jsstring) (chunks : list bytes) (file : File),
    units16 m = true ->
    concat chunks = wire_chunk (Error m) ->
    let fetch := fun _ : FormData =>
                   inr {| Page.ok := true; Page.status := 200; Page.body_text := [];
                          Page.body := Some (chunks, None) |} in
    let u := Page.generateAnimation fetch (Some file) Page.mount in
    Page.generationProgress u = lit "Starting generation..."
    /\ Page.timers u = []
    /\ Page.console u =
       [Page.ParsingLine (text (Error m));
        Page.FailedToParse (text (Error m)) (ThrowError m)].
Proof.
  intros engine m chunks file Hm Hchunks fetch u. subst u fetch.
  unfold Page.generateAnimation, Page.attempt.
  cbn [negb Page.ok Page.body].
  match goal with
  | |- context [Page.read_loop ?u0 chunks] =>
      destruct (PageFacts.read_events engine [Error m] chunks u0) as (d & ->)
  end.
  - cbn [forallb well_formed]. rewrite Hm. reflexivity.
  - cbn [map concat]. rewrite app_nil_r. exact Hchunks.
  - cbn [fold_left Page.view]. rewrite PageFacts.deliver_error. repeat split.
Qed.

(** ** Requests from end to end *)

(** Three poses, the second render returns commentary only: the client,
    reading the stream byte by byte, ends with the frames of the first and
    the third pose, in that order, and the status of completion. *)
Example two_frames_and_complete :
  let fetch := Demo.fetch_from (engine := Demo.engine) Demo.second_render_is_text
                 Demo.bytewise in
  let u := Page.generateAnimation (engine := Demo.engine) fetch (Some Demo.file) Page.mount in
  map Page.url (Page.frames u)
  = [lit "data:image/png;base64,QUJD"; lit "data:image/png;base64,REVG"]
  /\ Page.generatedPoses u = VStr Demo.three_poses
  /\ Page.generationProgress u = lit "Animation generation complete!"
  /\ Page.timers u = [(3000, [])]
  /\ Page.isGenerating u = false.
Proof. vm_compute. repeat split. Qed.

(** A handler that finds no image answers 400, which the client reports. *)
Example rejected_request_is_reported :
  let fetch := fun _ : FormData =>
                 Demo.fetch_from (engine := Demo.engine) Demo.always_image
                   Demo.as_enqueued [] in
  let u := Page.generateAnimation (engine := Demo.engine) fetch (Some Demo.file) Page.mount in
  Page.generationProgress u
  = lit "Error: Failed to generate animation: 400 " ++ jlit "{'error':'No image provided'}"
  /\ Page.timers u = [(5000, [])].
Proof. vm_compute. repeat split. Qed.

(** * Further properties of the code *)

(** ** The handler: edges of a run *)

Module RunFacts.
Import Seen RouteFacts.

Lemma parse_empty_array : parse (lit "[]") = Some (VArr []).
Proof. vm_compute. reflexivity. Qed.

Lemma logs_not_errored : forall response, existsb errored (logs_of response) = false.
Proof.
  intros response. destruct (existsb errored (logs_of response)) eqn:E; [|reflexivity].
  apply existsb_exists in E. destruct E as (a & Hin & Ha).
  apply logs_of_console in Hin. destruct Hin as (entry & ->). discriminate.
Qed.

Lemma rendered_not_errored : forall buffer prs k,
  existsb errored (rendered_trace buffer k prs) = false.
Proof.
  intros buffer prs. induction prs as [|[prompt response] prs IH]; intros k; [reflexivity|].
  cbn [rendered_trace]. unfold pose_trace.
  cbn [app existsb errored orb].
  rewrite !existsb_app, logs_not_errored, IH.
  unfold frame_of. destruct (result_of response); reflexivity.
Qed.

Lemma stopped_not_errored : forall engine ai buffer k pose e tail k',
  @stopped_at engine ai buffer k pose e tail k' -> existsb errored tail = false.
Proof. intros engine ai buffer k pose e tail k' [H|prompt Hp Hai]; reflexivity. Qed.

(** [start] never rejects: whatever goes wrong is caught, and the handler
    of the [catch] finds the stream still open. *)
Lemma start_resolves : forall (engine : Engine) ai image,
  exists tr st,
    start ai image initial = (inr tt, tr, st) /\ existsb errored tr = false
    /\ closed st = true.
Proof.
  intros engine ai [f|s].
  2:{ do 2 eexists. split; [apply start_not_a_file|]. split; reflexivity. }
  destruct (ai 0%nat (planner_request f)) as [e|r0] eqn:Hai.
  { do 2 eexists. split; [apply start_planner_rejects; exact Hai|]. split; reflexivity. }
  destruct (parse (planner_text r0)) as [v|] eqn:Hparse.
  2:{ do 2 eexists. split; [apply (start_unparsable ai f r0 Hai Hparse)|].
      split; reflexivity. }
  assert (Harr : (exists poses, v = VArr poses) \/ not_an_array v).
  { destruct v; try (right; intros elems' H; discriminate). left. eauto. }
  destruct Harr as [(poses & ->)|Hna].
  2:{ do 2 eexists. split; [apply (start_not_an_array ai f r0 Hai v Hparse Hna)|].
      split; reflexivity. }
  destruct (render_all_cases ai (file_bytes f) poses 1)
    as [(prs & Hr)|(pre & pose & post & prs & e & tail & k' & -> & Hr & Hs)].
  - do 2 eexists. split; [apply (start_completes ai f r0 Hai poses prs Hparse Hr)|].
    split; [|reflexivity].
    rewrite !existsb_app, rendered_not_errored. reflexivity.
  - do 2 eexists.
    split; [apply (start_stops ai f r0 Hai pre pose post prs e tail k' Hparse Hr Hs)|].
    split; [|reflexivity].
    rewrite !existsb_app, rendered_not_errored.
    rewrite (stopped_not_errored _ _ _ _ _ _ _ _ Hs). reflexivity.
Qed.

(** The prompts of a run in which no entry has a [pose]. *)
Lemma undescribed_prompts : forall (engine : Engine) ai buffer k poses prs,
  renders ai buffer k poses prs ->
  Forall (fun pose => get pose (lit "pose") = inr VUndefined) poses ->
  map fst prs = map (fun _ => prompt_before ++ lit "undefined" ++ prompt_after) poses.
Proof.
  intros engine ai buffer k poses prs H.
  induction H as [k|k pose poses prompt response prs Hp Hai _ IH]; intros Hall.
  - reflexivity.
  - inversion Hall as [|? ? Hpose Hrest]; subst.
    cbn [map fst]. rewrite (IH Hrest). f_equal.
    unfold prompt_of in Hp. rewrite Hpose in Hp. cbn [ToString] in Hp.
    injection Hp as <-. reflexivity.
Qed.

End RunFacts.

(** X1.  When the pose planner resolves without text, the handler parses
    the default ["[]"]: the stream carries the [poses] event without data and
    then [complete]; the image model is never called. *)
Theorem absent_planner_text_means_no_poses :
  forall (engine : Engine) (ai : remote) (formData : FormData) (f : File)
         (r0 : GenerateContentResponse),
    FormData_get (lit "image") formData = Some (EntryFile f) ->
    ai 0%nat (PoseList 12 (file_type f) (base64 (file_bytes f))) = inr r0 ->
    response_text r0 = None ->
    exists tr st,
      POST ai formData initial = (inr (StreamResponse stream_headers), tr, st)
      /\ enqueued tr = [wire_chunk (Poses None); wire_chunk Complete]
      /\ image_edits tr = []
      /\ calls st = 1%nat
      /\ closed st = true.
Proof.
  intros engine ai formData f r0 Hform Hai Htext.
  assert (Hparse : parse (planner_text r0) = Some (VArr [])).
  { unfold planner_text. rewrite Htext. apply RunFacts.parse_empty_array. }
  do 2 eexists. split.
  - eapply RouteClaims.POST_streams.
    + apply RouteClaims.file_present. exact Hform.
    + apply (RouteFacts.start_completes ai f r0 Hai [] [] Hparse). constructor.
  - cbn. rewrite Htext. repeat split.
Qed.

Lemma absent_planner_text_means_no_poses_witness :
  exists tr st,
    POST (engine := Demo.engine) Samples.planner_is_mute Demo.form initial
    = (inr (StreamResponse stream_headers), tr, st)
    /\ enqueued tr = [wire_chunk (Poses None); wire_chunk Complete]
    /\ image_edits tr = []
    /\ calls st = 1%nat
    /\ closed st = true.
Proof.
  apply (absent_planner_text_means_no_poses Demo.engine Samples.planner_is_mute Demo.form
           Demo.file {| candidates := None; response_text := None |});
    reflexivity.
Defined.

(** X2.  A [null] entry in the planned list ends the run: reading its
    [pose] throws a TypeError, so after the frames of the entries before it
    the stream carries the [error] event with that message; the image model
    is called neither for the entry nor for any later one. *)
Theorem null_pose_ends_the_run :
  forall (engine : Engine) (ai : remote) (formData : FormData) (f : File)
         (r0 : GenerateContentResponse) (pre post : list value)
         (prs : list (jsstring * GenerateContentResponse)),
    FormData_get (lit "image") formData = Some (EntryFile f) ->
    ai 0%nat (PoseList 12 (file_type f) (base64 (file_bytes f))) = inr r0 ->
    parse (planner_text r0) = Some (VArr (pre ++ VNull :: post)) ->
    renders ai (file_bytes f) 1 pre prs ->
    exists tr st,
      POST ai formData initial = (inr (StreamResponse stream_headers), tr, st)
      /\ enqueued tr =
         wire_chunk (Poses (response_text r0))
         :: map wire_chunk (frames_of prs)
         ++ [wire_chunk (Error (lit "Cannot read properties of null (reading 'pose')"))]
      /\ image_edits tr = map fst prs
      /\ calls st = S (length pre)
      /\ closed st = true.
Proof.
  intros engine ai formData f r0 pre post prs Hform Hai Hparse Hr.
  do 2 eexists. split.
  - eapply RouteClaims.POST_streams.
    + apply RouteClaims.file_present. exact Hform.
    + eapply (RouteFacts.start_stops ai f r0 Hai pre VNull post prs); eauto.
      apply stopped_prompt. reflexivity.
  - repeat split.
    + cbn. rewrite RouteFacts.enqueued_app, RouteFacts.enqueued_rendered. reflexivity.
    + cbn. rewrite RouteFacts.image_edits_app, RouteFacts.image_edits_rendered.
      cbn. rewrite app_nil_r. reflexivity.
Qed.

Lemma null_pose_ends_the_run_witness :
  exists tr st,
    POST (engine := Demo.engine) Samples.null_in_the_middle Demo.form initial
    = (inr (StreamResponse stream_headers), tr, st)
    /\ enqueued tr =
       [wire_chunk (Poses (Some (Demo.json_text
                      "[{'pose':'arms raised'},null,{'pose':'arms lowered'}]")));
        wire_chunk (Frame (Some (lit "QUJD")) (Some (lit "image/png")));
        wire_chunk (Error (lit "Cannot read properties of null (reading 'pose')"))]
    /\ image_edits tr = [prompt_before ++ lit "arms raised" ++ prompt_after]
    /\ calls st = 2%nat
    /\ closed st = true.
Proof.
  apply (null_pose_ends_the_run Demo.engine Samples.null_in_the_middle Demo.form Demo.file
           (Demo.planned (Demo.json_text
              "[{'pose':'arms raised'},null,{'pose':'arms lowered'}]"))
           [VObj [(lit "pose", VStr (lit "arms raised"))]]
           [VObj [(lit "pose", VStr (lit "arms lowered"))]]
           [(prompt_before ++ lit "arms raised" ++ prompt_after, Demo.image "QUJD")]).
  - reflexivity.
  - reflexivity.
  - vm_compute. reflexivity.
  - apply renders_cons; [reflexivity|reflexivity|apply renders_nil].
Defined.

(** X3.  A planned entry without a [pose] (an object that lacks the
    property, or a string, a number, a boolean or an array) does not stop
    the run: the image model is asked with the prompt in which the pose
    reads "undefined". *)
Theorem pose_without_description_reads_undefined :
  forall (engine : Engine) (ai : remote) (formData : FormData) (f : File)
         (r0 : GenerateContentResponse) (poses : list value)
         (prs : list (jsstring * GenerateContentResponse)),
    FormData_get (lit "image") formData = Some (EntryFile f) ->
    ai 0%nat (PoseList 12 (file_type f) (base64 (file_bytes f))) = inr r0 ->
    parse (planner_text r0) = Some (VArr poses) ->
    Forall (fun pose => get pose (lit "pose") = inr VUndefined) poses ->
    renders ai (file_bytes f) 1 poses prs ->
    exists tr st,
      POST ai formData initial = (inr (StreamResponse stream_headers), tr, st)
      /\ image_edits tr =
         map (fun _ => prompt_before ++ lit "undefined" ++ prompt_after) poses
      /\ enqueued tr =
         wire_chunk (Poses (response_text r0))
         :: map wire_chunk (frames_of prs) ++ [wire_chunk Complete].
Proof.
  intros engine ai formData f r0 poses prs Hform Hai Hparse Hall Hr.
  do 2 eexists. split.
  - eapply RouteClaims.POST_streams.
    + apply RouteClaims.file_present. exact Hform.
    + apply (RouteFacts.start_completes ai f r0 Hai poses prs Hparse Hr).
  - split.
    + cbn. rewrite RouteFacts.image_edits_app, RouteFacts.image_edits_rendered.
      cbn. rewrite app_nil_r.
      apply (RunFacts.undescribed_prompts engine ai (file_bytes f) 1%nat poses prs Hr Hall).
    + cbn. rewrite RouteFacts.enqueued_app, RouteFacts.enqueued_rendered. reflexivity.
Qed.

Lemma pose_without_description_reads_undefined_witness :
  exists tr st,
    POST (engine := Demo.engine) Samples.nothing_described Demo.form initial
    = (inr (StreamResponse stream_headers), tr, st)
    /\ image_edits tr =
       [prompt_before ++ lit "undefined" ++ prompt_after;
        prompt_before ++ lit "undefined" ++ prompt_after]
    /\ enqueued tr =
       [wire_chunk (Poses (Some (Demo.json_text "['wave',{'name':'jump'}]")));
        wire_chunk (Frame (Some (lit "QUJD")) (Some (lit "image/png")));
        wire_chunk (Frame (Some (lit "QUJD")) (Some (lit "image/png")));
        wire_chunk Complete].
Proof.
  apply (pose_without_description_reads_undefined Demo.engine Samples.nothing_described
           Demo.form Demo.file (Demo.planned (Demo.json_text "['wave',{'name':'jump'}]"))
           [VStr (lit "wave"); VObj [(lit "name", VStr (lit "jump"))]]
           [(prompt_before ++ lit "undefined" ++ prompt_after, Demo.image "QUJD");
            (prompt_before ++ lit "undefined" ++ prompt_after, Demo.image "QUJD")]).
  - reflexivity.
  - reflexivity.
  - vm_compute. reflexivity.
  - repeat constructor.
  - apply renders_cons; [reflexivity|reflexivity|].
    apply renders_cons; [reflexivity|reflexivity|apply renders_nil].
Defined.

(** X4.  When the field [image] of the form holds text, not a file: the
    empty string counts as no image and is answered with status 400; any
    other string opens the stream, where [image.arrayBuffer] is not a
    function, so the stream carries the [error] event with that message
    alone and no remote call is made. *)
Theorem text_in_the_image_field :
  forall (engine : Engine) (ai : remote) (formData : FormData) (s : jsstring),
    FormData_get (lit "image") formData = Some (EntryString s) ->
    POST ai formData initial =
    match s with
    | [] =>
        (inr (JsonResponse (VObj [(lit "error", VStr (lit "No image provided"))]) 400),
         [], initial)
    | _ :: _ =>
        (inr (StreamResponse stream_headers),
         [Console (LogThrown (lit "Error in streaming:")
                     (TypeError (lit "image.arrayBuffer is not a function")));
          Enqueue (wire_chunk (Error (lit "image.arrayBuffer is not a function")));
          Close],
         {| calls := 0; closed := true |})
    end.
Proof.
  intros engine ai formData s Hform. unfold POST. rewrite Hform.
  destruct s as [|c s]; reflexivity.
Qed.

Lemma text_in_the_image_field_witness :
  POST (engine := Demo.engine) Demo.always_image
    [(lit "image", EntryString (lit "cat.png"))] initial =
  (inr (StreamResponse stream_headers),
   [Console (LogThrown (lit "Error in streaming:")
               (TypeError (lit "image.arrayBuffer is not a function")));
    Enqueue (wire_chunk (Error (lit "image.arrayBuffer is not a function")));
    Close],
   {| calls := 0; closed := true |}).
Proof.
  apply (text_in_the_image_field Demo.engine Demo.always_image
           [(lit "image", EntryString (lit "cat.png"))] (lit "cat.png")).
  reflexivity.
Defined.

(** X5.  [POST] never rejects and never leaves the stream errored, whatever
    the form holds and whatever the remote model does: every failure inside
    [start] is caught while the stream is still open. *)
Theorem the_stream_is_never_errored :
  forall (engine : Engine) (ai : remote) (formData : FormData),
    exists resp tr st,
      POST ai formData initial = (inr resp, tr, st)
      /\ existsb Seen.errored tr = false
      /\ (forall headers, resp = StreamResponse headers -> closed st = true).
Proof.
  intros engine ai formData. unfold POST.
  destruct (present (FormData_get (lit "image") formData)) as [image|].
  - destruct (RunFacts.start_resolves engine ai image) as (tr & st & Hstart & Hquiet & Hclosed).
    exists (StreamResponse stream_headers), tr, st.
    unfold bind, ReadableStream. rewrite Hstart. cbn. rewrite app_nil_r. auto.
  - do 3 eexists. split; [reflexivity|]. split; [reflexivity|]. discriminate.
Qed.

(** ** The adapters of [src/lib/ai.ts] *)

(** X6.  [nanobanana] rejects exactly when its call to the image model
    rejects, and with the same reason; nothing is logged then. *)
Theorem nanobanana_rejects_with_the_call :
  forall (ai : remote) (prompt : jsstring) (imageBuffer : bytes) (st : state) (e : thrown),
    (fst (fst (Ai.nanobanana ai prompt imageBuffer st)) = inl e
     <-> ai (calls st) (ImageEdit prompt (base64 imageBuffer)) = inl e)
    /\ (ai (calls st) (ImageEdit prompt (base64 imageBuffer)) = inl e ->
        snd (fst (Ai.nanobanana ai prompt imageBuffer st)) =
        [Generate (calls st) (ImageEdit prompt (base64 imageBuffer)) (inl e)]).
Proof.
  intros ai prompt imageBuffer st e.
  destruct (ai (calls st) (ImageEdit prompt (base64 imageBuffer))) as [e'|response] eqn:Hai.
  - rewrite (RouteFacts.nanobanana_rejects ai prompt imageBuffer st e' Hai). cbn.
    split; [split|]; intros H; injection H as ->; reflexivity.
  - rewrite (RouteFacts.nanobanana_resolves ai prompt imageBuffer st response Hai). cbn.
    split; [split|]; intros H; discriminate H.
Qed.

(** X7.  Whatever the image model answers, [nanobanana] calls it exactly
    once, with the prompt it was given, and does not touch the stream: it
    enqueues nothing and does not close it. *)
Theorem nanobanana_calls_once :
  forall (ai : remote) (prompt : jsstring) (imageBuffer : bytes) (st : state),
    let run := Ai.nanobanana ai prompt imageBuffer st in
    calls (snd run) = S (calls st)
    /\ closed (snd run) = closed st
    /\ image_edits (snd (fst run)) = [prompt]
    /\ enqueued (snd (fst run)) = []
    /\ ~ In Close (snd (fst run)).
Proof.
  intros ai prompt imageBuffer st run. subst run.
  destruct (ai (calls st) (ImageEdit prompt (base64 imageBuffer))) as [e|response] eqn:Hai.
  - rewrite (RouteFacts.nanobanana_rejects ai prompt imageBuffer st e Hai). cbn.
    repeat split. intros [H|[]]. discriminate H.
  - rewrite (RouteFacts.nanobanana_resolves ai prompt imageBuffer st response Hai). cbn.
    rewrite RouteFacts.logs_of_no_calls, RouteFacts.logs_of_silent.
    repeat split. intros [H|H]; [discriminate H|].
    apply RouteFacts.logs_of_console in H. destruct H as (entry & H). discriminate H.
Qed.

(** X8.  A response without candidates, with an empty list of candidates,
    or whose first candidate has no content, no parts or an empty list of
    parts, gives the text-tagged result with the response's text, and
    nothing is logged. *)
Theorem response_without_parts_is_text :
  forall (ai : remote) (prompt : jsstring) (imageBuffer : bytes) (st : state)
         (response : GenerateContentResponse),
    ai (calls st) (ImageEdit prompt (base64 imageBuffer)) = inr response ->
    (candidates response = None
     \/ candidates response = Some []
     \/ exists c cs,
          candidates response = Some (c :: cs)
          /\ (content c = None
              \/ exists ct, content c = Some ct
                            /\ (parts ct = None \/ parts ct = Some []))) ->
    Ai.nanobanana ai prompt imageBuffer st =
    (inr (Ai.TextResult (response_text response)),
     [Generate (calls st) (ImageEdit prompt (base64 imageBuffer)) (inr response)],
     {| calls := S (calls st); closed := closed st |}).
Proof.
  intros ai prompt imageBuffer st response Hai Hparts.
  assert (Hnone : Ai.first_parts response = []).
  { unfold Ai.first_parts.
    destruct Hparts as [->|[->|(c & cs & -> & [->|(ct & -> & [->| ->])])]]; reflexivity. }
  unfold Ai.nanobanana, bind, generateContent. rewrite Hai, Hnone. reflexivity.
Qed.

Lemma response_without_parts_is_text_witness :
  Ai.nanobanana Samples.no_candidates (lit "a pose") [1; 2; 3] initial =
  (inr (Ai.TextResult (Some (lit "nothing to show"))),
   [Generate 0 (ImageEdit (lit "a pose") (base64 [1; 2; 3]))
      (inr {| candidates := None; response_text := Some (lit "nothing to show") |})],
   {| calls := 1; closed := false |}).
Proof.
  apply (response_without_parts_is_text Samples.no_candidates (lit "a pose") [1; 2; 3]
           initial {| candidates := None; response_text := Some (lit "nothing to show") |}).
  - reflexivity.
  - left. reflexivity.
Defined.

(** X9.  [generatePosesFromImageUrl] on an image that could not be fetched:
    when [fetch] rejects it rejects with the same reason, when the answer is
    not ok it rejects with "Failed to fetch image: " and the status text; in
    both cases the pose planner is not called. *)
Theorem unfetched_image_is_not_planned :
  forall (ai : remote) (fetch : jsstring -> thrown + Ai.ImageResponse)
         (imageUrl : jsstring) (numPoses : N) (st : state),
    match fetch imageUrl with
    | inl e => True
    | inr r => Ai.ok r = false
    end ->
    Ai.generatePosesFromImageUrl ai fetch imageUrl numPoses st =
    (inl match fetch imageUrl with
         | inl e => e
         | inr r => ThrowError (lit "Failed to fetch image: " ++ Ai.statusText r)
         end, [], st).
Proof.
  intros ai fetch imageUrl numPoses st H.
  unfold Ai.generatePosesFromImageUrl, bind, lift.
  destruct (fetch imageUrl) as [e|r]; [reflexivity|].
  cbn. rewrite H. reflexivity.
Qed.

Lemma unfetched_image_is_not_planned_witness :
  Ai.generatePosesFromImageUrl Demo.always_image Samples.not_found
    (lit "https://example.org/cat.png") 12 initial =
  (inl (ThrowError (lit "Failed to fetch image: Not Found")), [], initial).
Proof.
  apply (unfetched_image_is_not_planned Demo.always_image Samples.not_found
           (lit "https://example.org/cat.png") 12 initial).
  reflexivity.
Defined.

(** X10.  [generatePosesFromImageUrl] on an image that was fetched: the
    pose planner is called once, with the number of poses asked for, the
    bytes of the image in base64, and as media type the header
    [content-type] of the answer, or image/jpeg when the header is absent
    or empty; the result is the text of the planner's response. *)
Theorem fetched_image_is_planned :
  forall (ai : remote) (fetch : jsstring -> thrown + Ai.ImageResponse)
         (imageUrl : jsstring) (numPoses : N) (st : state)
         (r : Ai.ImageResponse) (buffer : bytes) (response : GenerateContentResponse),
    fetch imageUrl = inr r ->
    Ai.ok r = true ->
    Ai.arrayBuffer r = inr buffer ->
    let mimeType :=
      match Ai.content_type r with
      | None | Some [] => lit "image/jpeg"
      | Some t => t
      end in
    ai (calls st) (PoseList numPoses mimeType (base64 buffer)) = inr response ->
    Ai.generatePosesFromImageUrl ai fetch imageUrl numPoses st =
    (inr (response_text response),
     [Generate (calls st) (PoseList numPoses mimeType (base64 buffer)) (inr response);
      Console (LogResponse response)],
     {| calls := S (calls st); closed := closed st |}).
Proof.
  intros ai fetch imageUrl numPoses st r buffer response Hfetch Hok Hbuf mimeType Hai.
  assert (Hm : match Ai.content_type r with
               | Some (c :: t) => c :: t
               | _ => lit "image/jpeg"
               end = mimeType).
  { subst mimeType. destruct (Ai.content_type r) as [[|c t]|]; reflexivity. }
  unfold Ai.generatePosesFromImageUrl, bind at 1, lift. rewrite Hfetch.
  unfold ret. rewrite Hok. cbv beta iota delta [negb].
  unfold bind at 1. rewrite Hbuf, Hm.
  unfold Ai.generatePosesFromImage, bind, generateContent, console, perform, ret.
  rewrite Hai. reflexivity.
Qed.

Lemma fetched_image_is_planned_witness :
  Ai.generatePosesFromImageUrl Demo.planner_rambles Samples.untyped_image
    (lit "https://example.org/cat") 12 initial =
  (inr (Some (lit "Sorry, no poses today.")),
   [Generate 0 (PoseList 12 (lit "image/jpeg") (base64 [1; 2; 3]))
      (inr (Demo.planned (lit "Sorry, no poses today.")));
    Console (LogResponse (Demo.planned (lit "Sorry, no poses today.")))],
   {| calls := 1; closed := false |}).
Proof.
  apply (fetched_image_is_planned Demo.planner_rambles Samples.untyped_image
           (lit "https://example.org/cat") 12 initial
           {| Ai.ok := true; Ai.statusText := lit "OK"; Ai.arrayBuffer := inr [1; 2; 3];
              Ai.content_type := None |}
           [1; 2; 3] (Demo.planned (lit "Sorry, no poses today."))).
  - reflexivity.
  - reflexivity.
  - reflexivity.
  - reflexivity.
Defined.

(** ** [uploadToBlob] *)

Module SplitFacts.
Import JSFacts.

Lemma cut_absent : forall c sep s, ~ In c s -> cut (c :: sep) s = None.
Proof.
  intros c sep s. induction s as [|x s IH]; intros H; [reflexivity|].
  cbn [cut starts_with].
  destruct (N.eqb_spec c x) as [->|Hne].
  - exfalso. apply H. left. reflexivity.
  - cbn [andb]. rewrite IH; [reflexivity|]. intros Hin. apply H. right. exact Hin.
Qed.

(** A text without the separator is one piece; with one separator, two. *)
Lemma split_one : forall c s, ~ In c s -> split s [c] = [s].
Proof.
  intros c s H. rewrite split_unfold, cut_absent by exact H. reflexivity.
Qed.

Lemma split_two : forall c a b,
  ~ In c a -> ~ In c b -> split (a ++ [c] ++ b) [c] = [a; b].
Proof.
  intros c a b Ha Hb.
  rewrite split_unfold, (cut_after c [] a b Ha), split_one by exact Hb. reflexivity.
Qed.

End SplitFacts.

(** X11.  [uploadToBlob] stores a file whose type is [major/minor] under
    [uploads/<id>.<minor>], and resolves or rejects as [put] does. *)
Theorem upload_path_takes_the_subtype :
  forall (nanoid : jsstring) (put : jsstring -> File -> thrown + BlobStore.PutBlobResult)
         (imageFile : File) (major minor : jsstring),
    file_type imageFile = major ++ [47] ++ minor ->
    ~ In 47 major -> ~ In 47 minor ->
    BlobStore.uploadToBlob nanoid put imageFile =
    put (lit "uploads/" ++ nanoid ++ lit "." ++ minor) imageFile.
Proof.
  intros nanoid put imageFile major minor Htype Hmajor Hminor.
  unfold BlobStore.uploadToBlob. rewrite Htype.
  change (lit "/") with [47].
  pose proof (SplitFacts.split_two 47 major minor Hmajor Hminor) as E.
  unfold codeunit in *. rewrite E. cbn [nth_error].
  destruct (put _ imageFile) as [e|[ct u]]; reflexivity.
Qed.

Lemma upload_path_takes_the_subtype_witness :
  BlobStore.uploadToBlob (lit "V1StGXR8") Samples.stored Demo.file =
  Samples.stored (lit "uploads/V1StGXR8.png") Demo.file.
Proof.
  apply (upload_path_takes_the_subtype (lit "V1StGXR8") Samples.stored Demo.file
           (lit "image") (lit "png")).
  - reflexivity.
  - vm_compute. intuition discriminate.
  - vm_compute. intuition discriminate.
Defined.

(** X12.  A file whose type holds no slash (the empty type of a file the
    browser could not classify, for one) is stored under
    [uploads/<id>.undefined]. *)
Theorem upload_path_without_subtype :
  forall (nanoid : jsstring) (put : jsstring -> File -> thrown + BlobStore.PutBlobResult)
         (imageFile : File),
    ~ In 47 (file_type imageFile) ->
    BlobStore.uploadToBlob nanoid put imageFile =
    put (lit "uploads/" ++ nanoid ++ lit ".undefined") imageFile.
Proof.
  intros nanoid put imageFile Htype.
  unfold BlobStore.uploadToBlob.
  change (lit "/") with [47].
  pose proof (SplitFacts.split_one 47 (file_type imageFile) Htype) as E.
  unfold codeunit in *. rewrite E. cbn [nth_error].
  change (lit "." ++ lit "undefined") with (lit ".undefined").
  destruct (put _ imageFile) as [e|[ct u]]; reflexivity.
Qed.

Lemma upload_path_without_subtype_witness :
  BlobStore.uploadToBlob (lit "V1StGXR8") Samples.stored
    {| file_type := []; file_bytes := [1; 2; 3] |} =
  Samples.stored (lit "uploads/V1StGXR8.undefined")
    {| file_type := []; file_bytes := [1; 2; 3] |}.
Proof.
  apply (upload_path_without_subtype (lit "V1StGXR8") Samples.stored
           {| file_type := []; file_bytes := [1; 2; 3] |}).
  intros [].
Defined.

(** ** The player and the timeline *)

Module PlayerFacts.
Import Player Seen.
Local Open Scope Z_scope.

Lemma count_cons : forall s f l, frames s = f :: l -> 0 < count s.
Proof. intros s f l H. unfold count. rewrite H. cbn [length]. lia. Qed.

Lemma step_forward : forall c n,
  0 <= c < n -> Z.rem (c + 1) n = if c + 1 =? n then 0 else c + 1.
Proof.
  intros c n H. rewrite Z.rem_mod_nonneg by lia.
  destruct (Z.eqb_spec (c + 1) n) as [->|Hne].
  - apply Z_mod_same_full.
  - apply Z.mod_small. lia.
Qed.

Lemma step_back : forall c n,
  0 <= c < n -> Z.rem (c - 1 + n) n = if c =? 0 then n - 1 else c - 1.
Proof.
  intros c n H. rewrite Z.rem_mod_nonneg by lia.
  destruct (Z.eqb_spec c 0) as [->|Hne].
  - replace (0 - 1 + n) with (n - 1) by lia. apply Z.mod_small. lia.
  - replace (c - 1 + n) with (c - 1 + 1 * n) by lia.
    rewrite Z_mod_plus_full. apply Z.mod_small. lia.
Qed.

Lemma step_forward_range : forall c n, 0 <= c < n -> 0 <= Z.rem (c + 1) n < n.
Proof.
  intros c n H. rewrite step_forward by exact H.
  destruct (Z.eqb_spec (c + 1) n); lia.
Qed.

Lemma step_back_range : forall c n, 0 <= c < n -> 0 <= Z.rem (c - 1 + n) n < n.
Proof.
  intros c n H. rewrite step_back by exact H.
  destruct (Z.eqb_spec c 0); lia.
Qed.

Lemma filter_length_le {A} : forall (p : A -> bool) l,
  (length (filter p l) <= length l)%nat.
Proof.
  intros p l. induction l as [|x l IH]; cbn; [lia|]. destruct (p x); cbn; lia.
Qed.

Lemma filter_all {A} : forall (p : A -> bool) l,
  (forall x, In x l -> p x = true) -> filter p l = l.
Proof.
  intros p l. induction l as [|x l IH]; intros H; cbn; [reflexivity|].
  rewrite (H x) by (left; reflexivity). f_equal. apply IH.
  intros y Hy. apply H. right. exact Hy.
Qed.

Lemma eqb_refl : forall a : jsstring, JS.eqb a a = true.
Proof.
  induction a as [|x a IH]; [reflexivity|]. cbn. rewrite N.eqb_refl. exact IH.
Qed.

Lemma eqb_eq : forall a b : jsstring, JS.eqb a b = true -> a = b.
Proof.
  induction a as [|x a IH]; intros [|y b] H; try discriminate H; [reflexivity|].
  cbn in H. apply andb_true_iff in H. destruct H as [Hx Hab].
  apply N.eqb_eq in Hx. subst y. f_equal. apply IH. exact Hab.
Qed.

Lemma other_id : forall (a b : jsstring), a <> b -> negb (JS.eqb a b) = true.
Proof.
  intros a b H. destruct (JS.eqb a b) eqn:E; [|reflexivity].
  exfalso. apply H. apply eqb_eq. exact E.
Qed.

(** The array after [splice] at an index inside it. *)
Lemma splice_inside {A} : forall (start : Z) (deleteCount : nat) (items a : list A),
  0 <= start <= Z.of_nat (length a) ->
  splice start deleteCount items a =
  (firstn deleteCount (skipn (Z.to_nat start) a),
   firstn (Z.to_nat start) a ++ items ++ skipn deleteCount (skipn (Z.to_nat start) a)).
Proof.
  intros start deleteCount items a H. unfold splice.
  destruct (Z.ltb_spec start 0) as [Hneg|_]; [lia|].
  rewrite Z.min_l by lia. reflexivity.
Qed.

Lemma splice_beyond {A} : forall (start : Z) (deleteCount : nat) (items a : list A),
  Z.of_nat (length a) <= start ->
  splice start deleteCount items a = ([], a ++ items).
Proof.
  intros start deleteCount items a H. unfold splice.
  destruct (Z.ltb_spec start 0) as [Hneg|_]; [lia|].
  rewrite Z.min_r by lia. rewrite Nat2Z.id.
  rewrite skipn_all, firstn_all, firstn_nil, skipn_nil, app_nil_r. reflexivity.
Qed.

Lemma skipn_cons_nth {A} : forall (a : list A) i x,
  nth_error a i = Some x ->
  skipn i a = x :: skipn (S i) a.
Proof.
  induction a as [|y a IH]; intros [|i] x H; try discriminate H.
  - cbn in H. injection H as ->. reflexivity.
  - cbn in H. cbn [skipn]. apply IH. exact H.
Qed.

(** [moveFrame] between two indices of the array, by parts. *)
Lemma moveFrame_inside : forall (fromIndex toIndex : Z) (prev : list (option Player.Frame)) x,
  0 <= fromIndex < Z.of_nat (length prev) ->
  0 <= toIndex < Z.of_nat (length prev) ->
  nth_error prev (Z.to_nat fromIndex) = Some x ->
  let rest := firstn (Z.to_nat fromIndex) prev ++ skipn (S (Z.to_nat fromIndex)) prev in
  moveFrame fromIndex toIndex prev =
  firstn (Z.to_nat toIndex) rest ++ x :: skipn (Z.to_nat toIndex) rest
  /\ S (length rest) = length prev
  /\ prev = firstn (Z.to_nat fromIndex) prev ++ x :: skipn (S (Z.to_nat fromIndex)) prev.
Proof.
  intros fromIndex toIndex prev x Hfrom Hto Hx rest.
  assert (Hprev : prev = firstn (Z.to_nat fromIndex) prev
                         ++ x :: skipn (S (Z.to_nat fromIndex)) prev).
  { rewrite <- (skipn_cons_nth prev _ x Hx). symmetry. apply firstn_skipn. }
  pose proof Hprev as Hsame.
  assert (Hlen : S (length rest) = length prev).
  { apply (f_equal (@length _)) in Hprev. rewrite length_app in Hprev.
    cbn [length] in Hprev. subst rest. rewrite length_app. lia. }
  split; [|split; [exact Hlen|exact Hsame]].
  unfold moveFrame. rewrite splice_inside by lia.
  rewrite (skipn_cons_nth prev _ x Hx).
  rewrite firstn_cons, skipn_cons. cbn [app].
  change (skipn 0 (skipn (S (Z.to_nat fromIndex)) prev))
    with (skipn (S (Z.to_nat fromIndex)) prev).
  fold rest. rewrite splice_inside by lia. reflexivity.
Qed.

End PlayerFacts.

(** X13.  The controls of the player keep the cursor on a frame: if
    [currentFrame] is the index of a frame (or there is no frame), it still
    is after [nextFrame], [prevFrame], a tick of the animation loop,
    [togglePlayback], [resetAnimation], and after [removeFrame] for any
    id. *)
Theorem controls_keep_the_cursor_on_a_frame :
  forall s : Player.player,
    Seen.on_a_frame s ->
    Seen.on_a_frame (Player.nextFrame s)
    /\ Seen.on_a_frame (Player.prevFrame s)
    /\ Seen.on_a_frame (Player.tick s)
    /\ Seen.on_a_frame (Player.togglePlayback s)
    /\ Seen.on_a_frame (Player.resetAnimation s)
    /\ forall id, Seen.on_a_frame (Player.removeFrame id s).
Proof.
  intros [fs playing cur] H. unfold Seen.on_a_frame in *. cbn in H.
  destruct fs as [|f fs].
  { destruct playing; repeat split; try intros id0; left; reflexivity. }
  destruct H as [H|H]; [discriminate H|].
  unfold Player.count in H. cbn [Player.frames] in H.
  split; [|split; [|split; [|split; [|split]]]].
  - right. cbn. unfold Player.count. cbn [Player.frames].
    apply PlayerFacts.step_forward_range. exact H.
  - right. cbn. unfold Player.count. cbn [Player.frames].
    apply PlayerFacts.step_back_range. exact H.
  - right. unfold Player.tick. cbn [Player.isPlaying].
    destruct (playing && _)%bool; cbn; unfold Player.count; cbn [Player.frames].
    + apply PlayerFacts.step_forward_range. exact H.
    + exact H.
  - right. exact H.
  - right. cbn. unfold Player.count. cbn [Player.frames length]. lia.
  - intros id0. unfold Player.removeFrame. cbn [Player.frames Player.currentFrame].
    pose proof (PlayerFacts.filter_length_le
                  (fun frame => negb (JS.eqb (Player.id frame) id0)) (f :: fs)) as Hle.
    destruct (filter (fun frame => negb (JS.eqb (Player.id frame) id0)) (f :: fs))
      as [|g kept].
    + left. reflexivity.
    + right.
      remember (Z.of_nat (length (g :: kept))) as n eqn:Hn.
      assert (Hpos : (0 < n)%Z) by (subst n; cbn [length]; lia).
      destruct (Z.leb_spec n cur) as [Hc|Hc]; destruct (Z.ltb_spec 0 n) as [Hp|Hp];
        unfold Player.setFrames, Player.setCurrentFrame, Player.count;
        cbn [andb Player.frames Player.currentFrame]; rewrite <- Hn; lia.
Qed.

Lemma controls_keep_the_cursor_on_a_frame_witness :
  Seen.on_a_frame (Player.nextFrame Samples.two_frames)
  /\ Seen.on_a_frame (Player.prevFrame Samples.two_frames)
  /\ Seen.on_a_frame (Player.tick Samples.two_frames)
  /\ Seen.on_a_frame (Player.togglePlayback Samples.two_frames)
  /\ Seen.on_a_frame (Player.resetAnimation Samples.two_frames)
  /\ forall id, Seen.on_a_frame (Player.removeFrame id Samples.two_frames).
Proof.
  apply (controls_keep_the_cursor_on_a_frame Samples.two_frames).
  right. cbn. lia.
Defined.

(** X14.  With the cursor on a frame, [nextFrame] and [prevFrame] undo each
    other: stepping forward from the last frame goes to the first, stepping
    back from the first goes to the last. *)
Theorem next_and_prev_undo_each_other :
  forall s : Player.player,
    (0 <= Player.currentFrame s < Player.count s)%Z ->
    Player.prevFrame (Player.nextFrame s) = s
    /\ Player.nextFrame (Player.prevFrame s) = s
    /\ Player.currentFrame (Player.nextFrame s) =
       (if Player.currentFrame s + 1 =? Player.count s then 0
        else Player.currentFrame s + 1)%Z
    /\ Player.currentFrame (Player.prevFrame s) =
       (if Player.currentFrame s =? 0 then Player.count s - 1
        else Player.currentFrame s - 1)%Z.
Proof.
  intros [fs playing cur] H. unfold Player.count in *. cbn [Player.frames Player.currentFrame] in *.
  destruct fs as [|f fs]; [cbn in H; lia|].
  unfold Player.nextFrame, Player.prevFrame, Player.setCurrentFrame, Player.count.
  cbn [Player.frames Player.currentFrame Player.isPlaying].
  set (n := Z.of_nat (length (f :: fs))) in *. clearbody n.
  rewrite (PlayerFacts.step_forward cur n H), (PlayerFacts.step_back cur n H).
  repeat split.
  - f_equal. destruct (Z.eqb_spec (cur + 1) n) as [E|E].
    + rewrite PlayerFacts.step_back by lia.
      destruct (Z.eqb_spec 0 0); lia.
    + rewrite PlayerFacts.step_back by lia.
      destruct (Z.eqb_spec (cur + 1) 0); lia.
  - f_equal. destruct (Z.eqb_spec cur 0) as [E|E].
    + rewrite PlayerFacts.step_forward by lia.
      destruct (Z.eqb_spec (n - 1 + 1) n); lia.
    + rewrite PlayerFacts.step_forward by lia.
      destruct (Z.eqb_spec (cur - 1 + 1) n); lia.
Qed.

Lemma next_and_prev_undo_each_other_witness :
  Player.prevFrame (Player.nextFrame Samples.two_frames) = Samples.two_frames
  /\ Player.nextFrame (Player.prevFrame Samples.two_frames) = Samples.two_frames
  /\ Player.currentFrame (Player.nextFrame Samples.two_frames) = 0%Z
  /\ Player.currentFrame (Player.prevFrame Samples.two_frames) = 0%Z.
Proof.
  apply (next_and_prev_undo_each_other Samples.two_frames). cbn. lia.
Defined.

(** X15.  While the animation plays, [k] ticks of the loop move the cursor
    [k] frames forward around the ring of frames, and change nothing
    else. *)
Theorem ticks_go_around :
  forall (s : Player.player) (k : nat),
    Player.isPlaying s = true ->
    (0 <= Player.currentFrame s < Player.count s)%Z ->
    Nat.iter k Player.tick s =
    {| Player.frames := Player.frames s;
       Player.isPlaying := true;
       Player.currentFrame := ((Player.currentFrame s + Z.of_nat k) mod Player.count s)%Z |}.
Proof.
  intros [fs playing cur] k Hplay H. cbn in Hplay. subst playing.
  unfold Player.count in *. cbn [Player.frames Player.currentFrame] in *.
  set (n := Z.of_nat (length fs)) in *.
  induction k as [|k IH].
  - cbn [Nat.iter]. rewrite Z.add_0_r, Z.mod_small by lia. reflexivity.
  - rewrite Nat.iter_succ, IH. unfold Player.tick, Player.setCurrentFrame, Player.count.
    cbn [Player.frames Player.currentFrame Player.isPlaying andb]. fold n.
    destruct (Z.ltb_spec 0 n) as [Hn|Hn]; [|lia].
    f_equal.
    assert (Hm : (0 <= (cur + Z.of_nat k) mod n < n)%Z) by (apply Z.mod_pos_bound; lia).
    rewrite Z.rem_mod_nonneg by lia.
    rewrite Zplus_mod_idemp_l. f_equal. lia.
Qed.

Lemma ticks_go_around_witness :
  Nat.iter 5 Player.tick (Player.setIsPlaying true Samples.two_frames) =
  {| Player.frames := Player.frames Samples.two_frames;
     Player.isPlaying := true;
     Player.currentFrame := 0%Z |}.
Proof.
  apply (ticks_go_around (Player.setIsPlaying true Samples.two_frames) 5).
  - reflexivity.
  - cbn. lia.
Defined.

(** X16.  [removeFrame] of a frame whose id no other frame has removes that
    frame and keeps the others in their order.  The cursor keeps its index,
    so that after a frame before it is removed it shows the following
    frame; only when it was on the last frame, and frames remain, it moves
    to the new last frame. *)
Theorem removing_a_frame :
  forall (s : Player.player) (pre post : list Player.Frame) (f : Player.Frame),
    Player.frames s = pre ++ f :: post ->
    (forall g, In g (pre ++ post) -> Player.id g <> Player.id f) ->
    (0 <= Player.currentFrame s < Player.count s)%Z ->
    Player.removeFrame (Player.id f) s =
    {| Player.frames := pre ++ post;
       Player.isPlaying := Player.isPlaying s;
       Player.currentFrame :=
         (if (Player.currentFrame s =? Player.count s - 1) && (1 <? Player.count s)
          then Player.count s - 2
          else Player.currentFrame s)%Z |}.
Proof.
  intros [fs playing cur] pre post f Hfs Huniq H.
  unfold Player.count in *. cbn [Player.frames Player.currentFrame Player.isPlaying] in *.
  subst fs. unfold Player.removeFrame. cbn [Player.frames Player.currentFrame].
  assert (Hfilter : filter (fun frame => negb (JS.eqb (Player.id frame) (Player.id f)))
                      (pre ++ f :: post) = pre ++ post).
  { rewrite filter_app. cbn [filter]. rewrite PlayerFacts.eqb_refl. cbn [negb].
    rewrite <- filter_app. apply PlayerFacts.filter_all.
    intros g Hg. apply PlayerFacts.other_id. apply Huniq. exact Hg. }
  rewrite Hfilter.
  assert (Hm : Z.of_nat (length (pre ++ f :: post))
               = (Z.of_nat (length (pre ++ post)) + 1)%Z).
  { rewrite !length_app. cbn [length]. lia. }
  revert H Hm.
  generalize (Z.of_nat (length (pre ++ f :: post))).
  generalize (Z.of_nat (length (pre ++ post))) at 1 2 3 4.
  intros n m H Hm. subst m.
  unfold Player.setFrames, Player.setCurrentFrame.
  destruct (Z.leb_spec n cur); destruct (Z.ltb_spec 0 n);
    destruct (Z.eqb_spec cur (n + 1 - 1)); destruct (Z.ltb_spec 1 (n + 1));
    cbn [andb Player.frames Player.currentFrame Player.isPlaying];
    try lia; f_equal; lia.
Qed.

Lemma removing_a_frame_witness :
  Player.removeFrame (lit "a") Samples.two_frames =
  {| Player.frames := [Samples.frame_b];
     Player.isPlaying := false;
     Player.currentFrame := 0%Z |}.
Proof.
  apply (removing_a_frame Samples.two_frames [] [Samples.frame_b] Samples.frame_a).
  - reflexivity.
  - intros g [<-|[]]. discriminate.
  - cbn. lia.
Defined.

(** X17.  [removeFrame] with an id that no frame has changes nothing, as
    long as the cursor is on a frame. *)
Theorem removing_an_unknown_id :
  forall (s : Player.player) (id0 : jsstring),
    (forall g, In g (Player.frames s) -> Player.id g <> id0) ->
    Seen.on_a_frame s ->
    Player.removeFrame id0 s = s.
Proof.
  intros [fs playing cur] id0 Hnone H. unfold Seen.on_a_frame, Player.count in H.
  cbn [Player.frames Player.currentFrame] in *.
  unfold Player.removeFrame. cbn [Player.frames Player.currentFrame].
  rewrite PlayerFacts.filter_all
    by (intros g Hg; apply PlayerFacts.other_id; apply Hnone; exact Hg).
  destruct H as [->|H].
  - cbn [length]. change (0 <? Z.of_nat 0)%Z with false.
    rewrite andb_false_r. reflexivity.
  - destruct (Z.leb_spec (Z.of_nat (length fs)) cur); [lia|]. reflexivity.
Qed.

Lemma removing_an_unknown_id_witness :
  Player.removeFrame (lit "z") Samples.two_frames = Samples.two_frames.
Proof.
  apply (removing_an_unknown_id Samples.two_frames (lit "z")).
  - intros g [<-|[<-|[]]]; discriminate.
  - right. cbn. lia.
Defined.

(** X18.  [moveFrame] between two indices of the array rearranges it: the
    result has the same entries, as many as before, and the entry that was
    at [fromIndex] is at [toIndex]. *)
Theorem moving_a_frame :
  forall (fromIndex toIndex : Z) (prev : list (option Player.Frame)),
    (0 <= fromIndex < Z.of_nat (length prev))%Z ->
    (0 <= toIndex < Z.of_nat (length prev))%Z ->
    Permutation prev (Player.moveFrame fromIndex toIndex prev)
    /\ length (Player.moveFrame fromIndex toIndex prev) = length prev
    /\ nth_error (Player.moveFrame fromIndex toIndex prev) (Z.to_nat toIndex)
       = nth_error prev (Z.to_nat fromIndex).
Proof.
  intros fromIndex toIndex prev Hfrom Hto.
  destruct (nth_error prev (Z.to_nat fromIndex)) as [x|] eqn:Hx.
  2:{ apply nth_error_None in Hx. lia. }
  destruct (PlayerFacts.moveFrame_inside fromIndex toIndex prev x Hfrom Hto Hx)
    as (Hmove & Hlen & Hprev).
  set (rest := firstn (Z.to_nat fromIndex) prev ++ skipn (S (Z.to_nat fromIndex)) prev) in *.
  rewrite Hmove. split; [|split].
  - rewrite Hprev at 1. fold rest.
    apply Permutation_trans with (x :: rest).
    + symmetry. apply Permutation_middle.
    + rewrite <- (firstn_skipn (Z.to_nat toIndex) rest) at 1.
      apply Permutation_middle.
  - assert (Hparts : (length (firstn (Z.to_nat toIndex) rest)
                      + length (skipn (Z.to_nat toIndex) rest))%nat = length rest)
      by (rewrite <- length_app, firstn_skipn; reflexivity).
    rewrite length_app. cbn [length]. lia.
  - assert (Hj : length (firstn (Z.to_nat toIndex) rest) = Z.to_nat toIndex).
    { apply firstn_length_le. lia. }
    rewrite nth_error_app2 by lia. rewrite Hj, Nat.sub_diag. reflexivity.
Qed.

Lemma moving_a_frame_witness :
  Permutation Samples.three_entries (Player.moveFrame 0 2 Samples.three_entries)
  /\ length (Player.moveFrame 0 2 Samples.three_entries) = length Samples.three_entries
  /\ nth_error (Player.moveFrame 0 2 Samples.three_entries) 2
     = nth_error Samples.three_entries 0.
Proof.
  apply (moving_a_frame 0 2 Samples.three_entries); cbn; lia.
Defined.

(** X19.  [moveFrame] from an index at or beyond the end of the array
    removes nothing and inserts [undefined]: the array grows by one entry
    that is no frame. *)
Theorem moving_from_beyond_the_end :
  forall (fromIndex toIndex : Z) (prev : list (option Player.Frame)),
    (Z.of_nat (length prev) <= fromIndex)%Z ->
    (0 <= toIndex <= Z.of_nat (length prev))%Z ->
    Player.moveFrame fromIndex toIndex prev =
    firstn (Z.to_nat toIndex) prev ++ None :: skipn (Z.to_nat toIndex) prev.
Proof.
  intros fromIndex toIndex prev Hfrom Hto.
  unfold Player.moveFrame. rewrite PlayerFacts.splice_beyond by exact Hfrom.
  rewrite app_nil_r. rewrite PlayerFacts.splice_inside by exact Hto. reflexivity.
Qed.

Lemma moving_from_beyond_the_end_witness :
  Player.moveFrame 3 1 Samples.three_entries =
  [Some Samples.frame_a; None; Some Samples.frame_b; Some Samples.frame_c].
Proof.
  apply (moving_from_beyond_the_end 3 1 Samples.three_entries); cbn; lia.
Defined.

(** ** The file picker *)

(** X20.  Of the files of a selection or a drop only the last one counts:
    it becomes the selected file, and is read for the preview, when its type
    starts with "image/"; otherwise nothing changes, even if an earlier file
    of the selection is an image. *)
Theorem the_last_file_decides :
  forall (fs : list File) (f : File) (p : Player.picker),
    Player.handleFileSelection (Some (fs ++ [f])) p =
    if starts_with (lit "image/") (file_type f)
    then {| Player.lastSelectedFile := Some f;
            Player.reading := Player.reading p ++ [f];
            Player.isDragOver := Player.isDragOver p |}
    else p.
Proof.
  intros fs f p. unfold Player.handleFileSelection.
  rewrite rev_app_distr. reflexivity.
Qed.

(** X21.  The file kept for the generation is always an image: after any
    run of selections and drops, [lastSelectedFile] is still empty or holds
    a file whose type starts with "image/". *)
Theorem the_selected_file_is_an_image :
  forall (gestures : list Seen.gesture) (p : Player.picker),
    Seen.holds_an_image p ->
    Seen.holds_an_image (fold_left Seen.after_gesture gestures p).
Proof.
  assert (Hone : forall files p,
            Seen.holds_an_image p ->
            Seen.holds_an_image (Player.handleFileSelection files p)).
  { intros [fs|] p Hp; [|exact Hp]. unfold Player.handleFileSelection.
    destruct (rev fs) as [|file l]; [exact Hp|].
    destruct (starts_with (lit "image/") (file_type file)) eqn:E; [|exact Hp].
    unfold Seen.holds_an_image. cbn [Player.lastSelectedFile]. exact E. }
  induction gestures as [|g gestures IH]; intros p Hp; [exact Hp|].
  cbn [fold_left]. apply IH.
  destruct g as [files|files| |]; cbn [Seen.after_gesture].
  - apply Hone. exact Hp.
  - unfold Player.handleDrop. apply Hone. exact Hp.
  - exact Hp.
  - exact Hp.
Qed.

Lemma the_selected_file_is_an_image_witness :
  Seen.holds_an_image
    (fold_left Seen.after_gesture
       [Seen.Choose (Some [Demo.file]);
        Seen.DragOver;
        Seen.Drop (Some [Demo.file; {| file_type := lit "text/plain"; file_bytes := [] |}]);
        Seen.Choose None]
       Samples.nothing_selected).
Proof.
  apply (the_selected_file_is_an_image
           [Seen.Choose (Some [Demo.file]);
            Seen.DragOver;
            Seen.Drop (Some [Demo.file;
                              {| file_type := lit "text/plain"; file_bytes := [] |}]);
            Seen.Choose None]
           Samples.nothing_selected).
  exact I.
Defined.

(** ** The client: what a run leaves on the page *)

Module ClientFacts.
Import Page Route Seen PageFacts EventFacts WireFacts BytesFacts TextFacts.

Lemma adds_trans : forall u1 u2 u3 a b,
  adds u1 u2 a -> adds u2 u3 b -> adds u1 u3 (a ++ b).
Proof.
  intros u1 u2 u3 a b (Hf1 & Hi1 & Hn1) (Hf2 & Hi2 & Hn2). repeat split.
  - rewrite Hf2, Hf1, app_assoc. reflexivity.
  - rewrite Hi2, Hi1, map_app, app_assoc. reflexivity.
  - apply Forall_app. split; assumption.
Qed.

Lemma adds_same : forall u u',
  frames u' = frames u -> generatedImages u' = generatedImages u -> adds u u' [].
Proof.
  intros u u' Hf Hi. repeat split; cbn [map]; rewrite ?app_nil_r; auto.
Qed.

Section Client.
Context {engine : Engine}.

Lemma dispatch_adds : forall data u,
  exists added, adds u (fst (dispatch data u)) added.
Proof.
  intros data u. unfold dispatch, on_frame.
  destruct (get data (lit "type")) as [e|ty]; [exists []; apply adds_same; reflexivity|].
  destruct (strict_eq_str ty (lit "poses")).
  { destruct (get data (lit "data")); exists []; apply adds_same; reflexivity. }
  destruct (strict_eq_str ty (lit "nanobanana")).
  2:{ destruct (strict_eq_str ty (lit "complete"));
        [exists []; apply adds_same; reflexivity|].
      destruct (strict_eq_str ty (lit "error")); [|exists []; apply adds_same; reflexivity].
      destruct (get data (lit "data")); exists []; apply adds_same; reflexivity. }
  destruct (get data (lit "data")) as [e|d]; [exists []; apply adds_same; reflexivity|].
  destruct (truthy d); [|exists []; apply adds_same; reflexivity].
  destruct (get d (lit "type")) as [e|t]; [exists []; apply adds_same; reflexivity|].
  destruct (strict_eq_str t (lit "image")); [|exists []; apply adds_same; reflexivity].
  destruct (get d (lit "base64ImageData")) as [e|b];
    [exists []; apply adds_same; reflexivity|].
  destruct (truthy b); [|exists []; apply adds_same; reflexivity].
  destruct (get d (lit "contentType")) as [e|c];
    [exists []; apply adds_same; reflexivity|].
  destruct (ToString (if truthy c then c else VStr (lit "image/png"))) as [m|];
    [|exists []; apply adds_same; reflexivity].
  destruct (ToString b) as [b'|]; [|exists []; apply adds_same; reflexivity].
  eexists [_]. repeat split. repeat constructor.
Qed.

Lemma process_part_adds : forall u part,
  exists added, adds u (process_part u part) added.
Proof.
  intros u part. unfold process_part.
  destruct (trim part) as [|c line]; [exists []; apply adds_same; reflexivity|].
  unfold try_line. set (u1 := log (ParsingLine (c :: line)) u).
  destruct (parse (c :: line)) as [data|].
  - destruct (dispatch_adds data u1) as (added & H).
    exists added. destruct (dispatch data u1) as [u2 [e|]]; exact H.
  - exists []. apply adds_same; reflexivity.
Qed.

Lemma parts_add : forall (ps : list jsstring) u,
  exists added, adds u (fold_left process_part ps u) added.
Proof.
  induction ps as [|part ps IH]; intros u.
  - exists []. apply adds_same; reflexivity.
  - cbn [fold_left].
    destruct (process_part_adds u part) as (a & Ha).
    destruct (IH (process_part u part)) as (b & Hb).
    exists (a ++ b). exact (adds_trans _ _ _ _ _ Ha Hb).
Qed.

Lemma chunks_add : forall chunks r,
  exists added, adds (view r) (view (fold_left on_chunk chunks r)) added.
Proof.
  induction chunks as [|chunk chunks IH]; intros r.
  - exists []. apply adds_same; reflexivity.
  - cbn [fold_left].
    assert (Hone : exists a, adds (view r) (view (on_chunk r chunk)) a).
    { unfold on_chunk. destruct (TextDecoder_decode (decoder r) chunk) as [d t].
      cbn [view]. apply parts_add. }
    destruct Hone as (a & Ha).
    destruct (IH (on_chunk r chunk)) as (b & Hb).
    exists (a ++ b). exact (adds_trans _ _ _ _ _ Ha Hb).
Qed.

Lemma attempt_adds : forall fetched u,
  exists added, adds u (fst (attempt fetched u)) added.
Proof.
  intros fetched u. unfold attempt.
  destruct fetched as [e|response]; [exists []; apply adds_same; reflexivity|].
  destruct (negb (ok response)); [exists []; apply adds_same; reflexivity|].
  destruct (body response) as [[chunks failure]|];
    [|exists []; apply adds_same; reflexivity].
  cbn [fst]. unfold read_loop.
  exact (chunks_add chunks {| view := u; buffer := []; decoder := TextDecoder_new |}).
Qed.

(** What [generateAnimation] leaves, from what its [try] block leaves. *)
Lemma generateAnimation_ends : forall fetch file u,
  let started :=
    setGeneratedImages (fun _ => [])
      (setGeneratedPoses VNull
         (setGenerationProgress (lit "Starting generation...") (setIsGenerating true u))) in
  let tried := attempt (fetch [(lit "image", EntryFile file)]) started in
  generateAnimation fetch (Some file) u =
  setIsGenerating false
    match snd tried with
    | Some error =>
        setTimeout 5000 []
          (setGenerationProgress (lit "Error: " ++ Page.error_message error)
             (log (GenerationError error) (fst tried)))
    | None => fst tried
    end.
Proof.
  intros fetch file u started tried. unfold generateAnimation.
  fold started. fold tried. destruct tried as [u1 [e|]]; reflexivity.
Qed.

(** *** Events that arrive whole *)

Lemma deliver_poses : forall u p,
  deliver u (Poses p) =
  log (GeneratedPoses (of_opt p))
    (setGeneratedPoses (of_opt p)
       (setGenerationProgress (lit "Poses generated! Creating animation frames...")
          (log (ParsingLine (text (Poses p))) u))).
Proof.
  intros u p. unfold deliver. generalize (text (Poses p)). intros t.
  destruct p; reflexivity.
Qed.

Lemma deliver_complete : forall u,
  deliver u Complete =
  setTimeout 3000 []
    (setGenerationProgress (lit "Animation generation complete!")
       (log (ParsingLine (text Complete)) u)).
Proof. intros u. reflexivity. Qed.

Lemma deliver_frame : forall u b c,
  deliver u (Frame b c) =
  let u1 := setGenerationProgress (lit "Animation frame generated!")
              (log (ParsingLine (text (Frame b c))) u) in
  match shown (Frame b c) with
  | f :: _ =>
      setFrames (fun prev => prev ++ [f])
        (setGeneratedImages (fun prev => prev ++ [url f]) u1)
  | [] => u1
  end.
Proof.
  intros u b c. unfold deliver. generalize (text (Frame b c)). intros t.
  destruct b as [[|b0 b]|]; destruct c as [[|c0 c]|]; reflexivity.
Qed.

Lemma deliver_adds : forall u e, adds u (deliver u e) (shown e).
Proof.
  intros u e. destruct e as [p|b c| |m].
  - rewrite deliver_poses. apply adds_same; reflexivity.
  - rewrite deliver_frame. cbv zeta.
    destruct (shown (Frame b c)) as [|f l] eqn:E.
    + apply adds_same; reflexivity.
    + assert (Hl : l = [] /\ file_name f = lit "generated.png").
      { unfold shown in E. destruct b as [[|b0 b]|]; try discriminate E.
        injection E as <- <-. split; reflexivity. }
      destruct Hl as [-> Hname]. repeat split. repeat constructor. exact Hname.
  - rewrite deliver_complete. apply adds_same; reflexivity.
  - rewrite deliver_error. apply adds_same; reflexivity.
Qed.

Lemma events_add : forall es u, adds u (fold_left deliver es u) (flat_map shown es).
Proof.
  induction es as [|e es IH]; intros u.
  - apply adds_same; reflexivity.
  - cbn [fold_left flat_map].
    exact (adds_trans _ _ _ _ _ (deliver_adds u e) (IH (deliver u e))).
Qed.

(** Frame events leave the poses and the timers alone. *)
Lemma frames_keep : forall fs u,
  forallb is_frame fs = true ->
  generatedPoses (fold_left deliver fs u) = generatedPoses u
  /\ timers (fold_left deliver fs u) = timers u.
Proof.
  induction fs as [|e fs IH]; intros u H; [split; reflexivity|].
  cbn [forallb] in H. apply andb_true_iff in H. destruct H as [He Hfs].
  cbn [fold_left]. destruct (IH (deliver u e) Hfs) as [-> ->].
  destruct e as [p|b c| |m]; try discriminate He.
  rewrite deliver_frame. cbv zeta.
  destruct (shown (Frame b c)); split; reflexivity.
Qed.

(** *** A line of junk among the events *)

Lemma paired_wire_app : forall es rest,
  forallb well_formed es = true -> paired (wire es ++ rest) = paired rest.
Proof.
  induction es as [|e es IH]; intros rest H; [reflexivity|].
  cbn [forallb] in H. apply andb_true_iff in H. destruct H as [He Hes].
  rewrite wire_cons, <- !app_assoc, text_paired by exact He.
  rewrite paired_literal by reflexivity. apply IH. exact Hes.
Qed.

Lemma split_wire_app : forall es rest,
  split (wire es ++ rest) delimiter = map text es ++ split rest delimiter.
Proof.
  induction es as [|e es IH]; intros rest; [reflexivity|].
  rewrite wire_cons, <- !app_assoc.
  rewrite split_after by apply text_no_newline.
  rewrite IH. reflexivity.
Qed.

Lemma plain_low : forall junk,
  forallb (fun c => (c <? 128) && negb (c =? 10)) junk = true ->
  forallb (fun c => c <? 55296) junk = true /\ ~ In 10 junk
  /\ (junk = [] \/ exists c j, junk = c :: j /\ c <= 127).
Proof.
  induction junk as [|c junk IH]; intros H.
  - repeat split; auto.
  - cbn [forallb] in H. apply andb_true_iff in H. destruct H as [Hc Hj].
    apply andb_true_iff in Hc. destruct Hc as [Hlow Hnl].
    apply N.ltb_lt in Hlow. apply negb_true_iff, N.eqb_neq in Hnl.
    destruct (IH Hj) as (Hp & Hq & _). repeat split.
    + cbn [forallb]. rewrite Hp, andb_true_r. apply N.ltb_lt. lia.
    + intros [E|E]; [congruence|exact (Hq E)].
    + right. exists c, junk. split; [reflexivity|lia].
Qed.

End Client.

End ClientFacts.

(** X22.  Whatever [fetch] does and whatever bytes the body delivers,
    [generateAnimation] only adds frames at the end of the timeline: the
    frames that were there stay, in their order; the list of generated
    images, emptied at the start, ends as the URLs of the frames added, so
    that the count shown is the number of frames of this run; every frame
    added is named "generated.png"; and the run ends with [isGenerating]
    off. *)
Theorem generation_only_adds_frames :
  forall (engine : Engine) (fetch : FormData -> thrown + Page.Response) (file : File)
         (u : Page.ui),
    exists added,
      Page.frames (Page.generateAnimation fetch (Some file) u) = Page.frames u ++ added
      /\ Page.generatedImages (Page.generateAnimation fetch (Some file) u)
         = map Page.url added
      /\ Forall (fun f => Page.file_name f = lit "generated.png") added
      /\ Page.isGenerating (Page.generateAnimation fetch (Some file) u) = false.
Proof.
  intros engine fetch file u. rewrite ClientFacts.generateAnimation_ends. cbv zeta.
  match goal with
  | |- context [Page.attempt ?f ?s] =>
      destruct (ClientFacts.attempt_adds f s) as (added & Hf & Hi & Hn);
      destruct (Page.attempt f s) as [u1 thrown]
  end.
  exists added. cbn [fst snd] in *.
  destruct thrown as [e|]; repeat split; assumption.
Qed.

(** X23.  Every failure of the transport reaches the status line: when
    [fetch] rejects, when the answer is not ok (the message then holds the
    status and the body), when the answer has no body, and when a read of
    the body rejects, the progress text ends as "Error: " and the message,
    a timer is set to clear it after 5000 ms, the error is sent to the
    console, and [isGenerating] is off. *)
Theorem transport_failures_reach_the_status :
  forall (engine : Engine) (fetch : FormData -> thrown + Page.Response) (file : File)
         (u : Page.ui) (e : thrown),
    Seen.gives_up (fetch [(lit "image", EntryFile file)]) e ->
    let u' := Page.generateAnimation fetch (Some file) u in
    Page.generationProgress u' = lit "Error: " ++ Page.error_message e
    /\ (exists earlier, Page.timers u' = earlier ++ [(5000, [])])
    /\ (exists earlier, Page.console u' = earlier ++ [Page.GenerationError e])
    /\ Page.isGenerating u' = false.
Proof.
  intros engine fetch file u e H u'. subst u'.
  rewrite ClientFacts.generateAnimation_ends. cbv zeta.
  assert (Hthrown : exists u1,
            Page.attempt (fetch [(lit "image", EntryFile file)])
              (Page.setGeneratedImages (fun _ => [])
                 (Page.setGeneratedPoses VNull
                    (Page.setGenerationProgress (lit "Starting generation...")
                       (Page.setIsGenerating true u)))) = (u1, Some e)).
  { unfold Page.attempt. inversion H as [e0 E|r Hok E|r Hok Hbody E|r chunks e0 Hok Hbody E];
      subst.
    - eexists. reflexivity.
    - rewrite Hok. eexists. reflexivity.
    - rewrite Hok, Hbody. eexists. reflexivity.
    - rewrite Hok, Hbody. eexists. reflexivity. }
  destruct Hthrown as (u1 & ->). cbn [fst snd].
  repeat split; eexists; reflexivity.
Qed.

Lemma transport_failures_reach_the_status_witness :
  let u' := Page.generateAnimation (engine := Demo.engine) Samples.bad_gateway
              (Some Demo.file) Page.mount in
  Page.generationProgress u'
  = lit "Error: " ++ lit "Failed to generate animation: 502 upstream timed out"
  /\ (exists earlier, Page.timers u' = earlier ++ [(5000, [])])
  /\ (exists earlier,
        Page.console u'
        = earlier ++ [Page.GenerationError
                        (ThrowError (lit "Failed to generate animation: 502 upstream timed out"))])
  /\ Page.isGenerating u' = false.
Proof.
  apply (transport_failures_reach_the_status Demo.engine Samples.bad_gateway Demo.file
           Page.mount
           (ThrowError (lit "Failed to generate animation: 502 upstream timed out"))).
  apply (Seen.answer_not_ok
           {| Page.ok := false; Page.status := 502;
              Page.body_text := lit "upstream timed out"; Page.body := None |}).
  reflexivity.
Defined.

(** X24.  What the client shows for a stream of events, however its bytes
    are cut: every frame event whose base64 data is not empty adds one
    frame, in the order of the events, with the URL
    [data:<contentType>;base64,<data>], where a missing or empty content
    type reads image/png; a frame event without data, and every other
    event, adds none. *)
Theorem frames_shown_for_a_stream :
  forall (engine : Engine) (es : list ProgressEvent) (chunks : list bytes) (u : Page.ui),
    forallb well_formed es = true ->
    concat chunks = concat (map wire_chunk es) ->
    Page.frames (Page.view (Page.read_loop u chunks))
    = Page.frames u ++ flat_map Seen.shown es
    /\ Page.generatedImages (Page.view (Page.read_loop u chunks))
       = Page.generatedImages u ++ map Page.url (flat_map Seen.shown es).
Proof.
  intros engine es chunks u Hwf Hchunks.
  destruct (PageFacts.read_events engine es chunks u Hwf Hchunks) as (d & ->).
  cbn [Page.view].
  destruct (ClientFacts.events_add es u) as (Hf & Hi & _). split; assumption.
Qed.

Lemma frames_shown_for_a_stream_witness :
  Page.frames (Page.view (Page.read_loop (engine := Demo.engine) Page.mount
                            (Demo.bytewise (map wire_chunk Samples.four_events))))
  = Page.frames Page.mount ++ flat_map Seen.shown Samples.four_events
  /\ Page.generatedImages
       (Page.view (Page.read_loop (engine := Demo.engine) Page.mount
                     (Demo.bytewise (map wire_chunk Samples.four_events))))
     = Page.generatedImages Page.mount
       ++ map Page.url (flat_map Seen.shown Samples.four_events).
Proof.
  apply (frames_shown_for_a_stream Demo.engine Samples.four_events
           (Demo.bytewise (map wire_chunk Samples.four_events)) Page.mount).
  - reflexivity.
  - vm_compute. reflexivity.
Defined.

(** X25.  A line that is not JSON does not stop the client: it is reported
    to the console and skipped, and the events after it are handled as if
    it had not been there.  (The line is plain ASCII without a line
    feed.) *)
Theorem a_line_that_is_not_json_is_skipped :
  forall (engine : Engine) (es1 es2 : list ProgressEvent) (junk : jsstring)
         (chunks : list bytes) (u : Page.ui),
    forallb well_formed es1 = true ->
    forallb well_formed es2 = true ->
    forallb (fun c => (c <? 128) && negb (c =? 10)) junk = true ->
    parse (trim junk) = None ->
    concat chunks =
      concat (map wire_chunk es1) ++ TextEncoder_encode (junk ++ delimiter)
      ++ concat (map wire_chunk es2) ->
    Page.view (Page.read_loop u chunks) =
    fold_left deliver es2 (Seen.skipped (trim junk) (fold_left deliver es1 u)).
Proof.
  intros engine es1 es2 junk chunks u Hwf1 Hwf2 Hjunk Hparse Hchunks.
  destruct (ClientFacts.plain_low junk Hjunk) as (Hlow & Hnl & Hhead).
  set (w := wire es1 ++ junk ++ delimiter ++ wire es2).
  assert (Hpaired : paired w = true).
  { subst w. rewrite ClientFacts.paired_wire_app by exact Hwf1.
    rewrite EventFacts.paired_literal by exact Hlow.
    rewrite EventFacts.paired_literal by reflexivity.
    apply PageFacts.paired_wire. exact Hwf2. }
  assert (Hbytes : concat chunks = TextEncoder_encode w).
  { rewrite Hchunks. subst w.
    rewrite !PageFacts.chunks_of_wire by assumption.
    rewrite (BytesFacts.encode_app (wire es1)) by (apply PageFacts.paired_wire; exact Hwf1).
    f_equal.
    replace (junk ++ delimiter ++ wire es2) with ((junk ++ delimiter) ++ wire es2)
      by (rewrite <- app_assoc; reflexivity).
    rewrite (BytesFacts.encode_app (junk ++ delimiter)); [reflexivity|].
    rewrite EventFacts.paired_literal by exact Hlow. reflexivity. }
  assert (Hstart : exists c w', w = c :: w' /\ c <= 127).
  { subst w. destruct (WireFacts.wire_starts es1) as [->|(w1 & ->)].
    - destruct Hhead as [->|(c & j & -> & Hc)].
      + eexists _, _. split; [reflexivity|]. lia.
      + eexists _, _. split; [reflexivity|]. exact Hc.
    - eexists _, _. split; [reflexivity|]. lia. }
  destruct Hstart as (c & w' & Hw & Hc).
  assert (Hdecoded : TextDecoder_decode TextDecoder_new (TextEncoder_encode w)
                     = (ready true, w)).
  { rewrite Hw in Hpaired |- *. apply BytesFacts.decode_encode_new; [exact Hc|].
    rewrite JSONFacts.paired_low in Hpaired by lia. exact Hpaired. }
  rewrite PageFacts.read_loop_after, Hbytes, Hdecoded.
  unfold after. cbn [Page.view].
  assert (Hsplit : split w Page.delimiter
                   = (map text es1 ++ junk :: map text es2) ++ [[]]).
  { change Page.delimiter with delimiter. subst w.
    rewrite ClientFacts.split_wire_app, WireFacts.split_after by exact Hnl.
    rewrite WireFacts.split_wire, <- app_assoc. reflexivity. }
  rewrite Hsplit, removelast_last, fold_left_app, PageFacts.fold_process.
  cbn [fold_left]. rewrite PageFacts.fold_process. f_equal.
  unfold Page.process_part, Seen.skipped.
  destruct (trim junk) as [|x line]; [reflexivity|].
  unfold Page.try_line. rewrite Hparse. reflexivity.
Qed.

Lemma a_line_that_is_not_json_is_skipped_witness :
  Page.view (Page.read_loop (engine := Demo.engine) Page.mount
               [wire_chunk (Poses (Some (lit "[]")));
                TextEncoder_encode (lit "502 Bad Gateway" ++ delimiter);
                wire_chunk Complete]) =
  fold_left (deliver (engine := Demo.engine)) [Complete]
    (Seen.skipped (engine := Demo.engine) (trim (lit "502 Bad Gateway"))
       (fold_left (deliver (engine := Demo.engine)) [Poses (Some (lit "[]"))] Page.mount)).
Proof.
  apply (a_line_that_is_not_json_is_skipped Demo.engine [Poses (Some (lit "[]"))] [Complete]
           (lit "502 Bad Gateway")
           [wire_chunk (Poses (Some (lit "[]")));
            TextEncoder_encode (lit "502 Bad Gateway" ++ delimiter);
            wire_chunk Complete] Page.mount).
  - reflexivity.
  - reflexivity.
  - reflexivity.
  - vm_compute. reflexivity.
  - vm_compute. reflexivity.
Defined.

(** ** From the handler to the page *)

(** X26.  A run of the handler that renders every pose, read by the client
    however its bytes are cut: the timeline gains the frames of the
    image-tagged results, in pose order, each under the URL made of the
    media type and the base64 data the image model gave; the poses shown
    are the planner's text; the status ends as "Animation generation
    complete!", to be cleared after 3000 ms. *)
Theorem a_completed_run_reaches_the_page :
  forall (engine : Engine) (ai : remote) (file : File) (r0 : GenerateContentResponse)
         (poses : list value) (prs : list (jsstring * GenerateContentResponse))
         (fetch : FormData -> thrown + Page.Response) (r : Page.Response)
         (chunks : list bytes) (u : Page.ui),
    ai 0%nat (PoseList 12 (file_type file) (base64 (file_bytes file))) = inr r0 ->
    parse (planner_text r0) = Some (VArr poses) ->
    renders ai (file_bytes file) 1 poses prs ->
    units16_opt (response_text r0) = true ->
    forallb well_formed (frames_of prs) = true ->
    fetch [(lit "image", EntryFile file)] = inr r ->
    Page.ok r = true ->
    Page.body r = Some (chunks, None) ->
    concat chunks =
      concat (enqueued (snd (fst (POST ai [(lit "image", EntryFile file)] initial)))) ->
    let u' := Page.generateAnimation fetch (Some file) u in
    Page.frames u' = Page.frames u ++ flat_map Seen.shown (frames_of prs)
    /\ Page.generatedImages u' = map Page.url (flat_map Seen.shown (frames_of prs))
    /\ Page.generatedPoses u' = of_opt (response_text r0)
    /\ Page.generationProgress u' = lit "Animation generation complete!"
    /\ Page.timers u' = Page.timers u ++ [(3000, [])]
    /\ Page.isGenerating u' = false.
Proof.
  intros engine ai file r0 poses prs fetch r chunks u Hai Hparse Hr Hp Hfs Hfetch Hok Hbody
    Hchunks u'. subst u'.
  assert (Hrun : POST ai [(lit "image", EntryFile file)] initial =
                 (inr (StreamResponse stream_headers),
                  opening file r0 ++ rendered_trace (file_bytes file) 1 prs ++ completion,
                  {| calls := S (length poses); closed := true |})).
  { eapply RouteClaims.POST_streams; [reflexivity|].
    apply (RouteFacts.start_completes ai file r0 Hai poses prs Hparse Hr). }
  rewrite Hrun in Hchunks. cbn [fst snd] in Hchunks.
  assert (Hsent : enqueued (opening file r0 ++ rendered_trace (file_bytes file) 1 prs
                            ++ completion)
                  = map wire_chunk (Poses (response_text r0) :: frames_of prs ++ [Complete])).
  { cbn. rewrite RouteFacts.enqueued_app, RouteFacts.enqueued_rendered, map_app.
    reflexivity. }
  rewrite Hsent in Hchunks.
  assert (Hwf : forallb well_formed (Poses (response_text r0) :: frames_of prs ++ [Complete])
                = true).
  { cbn [forallb well_formed]. rewrite Hp, forallb_app, Hfs. reflexivity. }
  rewrite ClientFacts.generateAnimation_ends. cbv zeta.
  unfold Page.attempt. rewrite Hfetch, Hok, Hbody. cbn [negb fst snd].
  match goal with
  | |- context [Page.read_loop ?u0 chunks] =>
      destruct (PageFacts.read_events engine _ chunks u0 Hwf Hchunks) as (d & ->);
      set (started := u0)
  end.
  cbn [Page.view fold_left]. rewrite fold_left_app. cbn [fold_left].
  set (u1 := deliver started (Poses (response_text r0))).
  set (u2 := fold_left deliver (frames_of prs) u1).
  destruct (ClientFacts.frames_keep (frames_of prs) u1 (RouteFacts.frames_of_frames prs))
    as [Hposes Htimers]. fold u2 in Hposes, Htimers.
  destruct (ClientFacts.events_add (frames_of prs) u1) as (Hf & Hi & _).
  fold u2 in Hf, Hi.
  rewrite ClientFacts.deliver_complete.
  cbn [Page.frames Page.generatedImages Page.generatedPoses Page.generationProgress
       Page.timers Page.isGenerating Page.setIsGenerating Page.setTimeout
       Page.setGenerationProgress Page.log].
  rewrite Hf, Hi, Hposes, Htimers. subst u1. rewrite ClientFacts.deliver_poses.
  repeat split.
Qed.

Lemma a_completed_run_reaches_the_page_witness :
  let fetch := Demo.fetch_from (engine := Demo.engine) Demo.second_render_is_text
                 Demo.bytewise in
  let u' := Page.generateAnimation (engine := Demo.engine) fetch (Some Demo.file) Page.mount in
  Page.frames u'
  = Page.frames Page.mount
    ++ flat_map Seen.shown
         [Frame (Some (lit "QUJD")) (Some (lit "image/png"));
          Frame (Some (lit "REVG")) (Some (lit "image/png"))]
  /\ Page.generatedImages u'
     = [lit "data:image/png;base64,QUJD"; lit "data:image/png;base64,REVG"]
  /\ Page.generatedPoses u' = VStr Demo.three_poses
  /\ Page.generationProgress u' = lit "Animation generation complete!"
  /\ Page.timers u' = Page.timers Page.mount ++ [(3000, [])]
  /\ Page.isGenerating u' = false.
Proof.
  apply (a_completed_run_reaches_the_page Demo.engine Demo.second_render_is_text Demo.file
           (Demo.planned Demo.three_poses)
           [VObj [(lit "pose", VStr (lit "arms raised"))];
            VObj [(lit "pose", VStr (lit "arms level"))];
            VObj [(lit "pose", VStr (lit "arms lowered"))]]
           [(prompt_before ++ lit "arms raised" ++ prompt_after, Demo.image "QUJD");
            (prompt_before ++ lit "arms level" ++ prompt_after, Demo.commentary);
            (prompt_before ++ lit "arms lowered" ++ prompt_after, Demo.image "REVG")]
           (Demo.fetch_from (engine := Demo.engine) Demo.second_render_is_text Demo.bytewise)
           {| Page.ok := true; Page.status := 200; Page.body_text := [];
              Page.body :=
                Some (Demo.bytewise
                        (enqueued (snd (fst (POST (engine := Demo.engine)
                                               Demo.second_render_is_text Demo.form initial)))),
                      None) |}
           (Demo.bytewise
              (enqueued (snd (fst (POST (engine := Demo.engine)
                                     Demo.second_render_is_text Demo.form initial)))))
           Page.mount).
  - reflexivity.
  - vm_compute. reflexivity.
  - apply renders_cons; [reflexivity|reflexivity|].
    apply renders_cons; [reflexivity|reflexivity|].
    apply renders_cons; [reflexivity|reflexivity|apply renders_nil].
  - reflexivity.
  - reflexivity.
  - vm_compute. reflexivity.
  - reflexivity.
  - reflexivity.
  - vm_compute. reflexivity.
Defined.

(** X27.  [exportAnimation] after a generation: the first frame of the
    timeline is downloaded under the name "nanomotion-frame-0.png", whatever
    the media type in its URL, since every generated frame is named
    "generated.png"; with no frame nothing is downloaded. *)
Theorem generated_frames_are_exported_as_png :
  forall (engine : Engine) (fetch : FormData -> thrown + Page.Response) (file : File)
         (u : Page.ui),
    Forall (fun f => Page.file_name f = lit "generated.png") (Page.frames u) ->
    Player.exportAnimation (Page.frames (Page.generateAnimation fetch (Some file) u)) =
    match Page.frames (Page.generateAnimation fetch (Some file) u) with
    | [] => None
    | first :: _ =>
        Some {| Player.href := Page.url first;
                Player.download_name := lit "nanomotion-frame-0.png" |}
    end.
Proof.
  intros engine fetch file u Hu.
  rewrite ClientFacts.generateAnimation_ends. cbv zeta.
  match goal with
  | |- context [Page.attempt ?f ?s] =>
      destruct (ClientFacts.attempt_adds f s) as (added & Hf & _ & Hn);
      destruct (Page.attempt f s) as [u1 thrown]
  end.
  cbn [fst snd] in *.
  assert (Hall : Forall (fun f => Page.file_name f = lit "generated.png") (Page.frames u1)).
  { rewrite Hf. apply Forall_app. split; assumption. }
  assert (Hsame : forall v, Page.frames v = Page.frames u1 ->
            Player.exportAnimation (Page.frames v) =
            match Page.frames v with
            | [] => None
            | first :: _ =>
                Some {| Player.href := Page.url first;
                        Player.download_name := lit "nanomotion-frame-0.png" |}
            end).
  { intros v ->. destruct (Page.frames u1) as [|first l]; [reflexivity|].
    inversion Hall as [|? ? Hname _]; subst.
    unfold Player.exportAnimation. rewrite Hname. reflexivity. }
  apply Hsame. destruct thrown; reflexivity.
Qed.

Lemma generated_frames_are_exported_as_png_witness :
  Player.exportAnimation
    (Page.frames (Page.generateAnimation (engine := Demo.engine)
                    (Demo.fetch_from (engine := Demo.engine) Samples.jpeg_frames
                       Demo.as_enqueued)
                    (Some Demo.file) Page.mount)) =
  Some {| Player.href := lit "data:image/jpeg;base64,QUJD";
          Player.download_name := lit "nanomotion-frame-0.png" |}.
Proof.
  apply (generated_frames_are_exported_as_png Demo.engine
           (Demo.fetch_from (engine := Demo.engine) Samples.jpeg_frames Demo.as_enqueued)
           Demo.file Page.mount).
  constructor.
Defined.

(** X28.  An [error] event changes nothing on the page but the console:
    after a stream that ends with one, however its bytes are cut, the
    progress text, the timers, the poses and the frames are those the events
    before it left, and the console has the line and the message, reported
    as a line that failed to parse. *)
Theorem an_error_event_reaches_only_the_console :
  forall (engine : Engine) (es : list ProgressEvent) (m : jsstring)
         (chunks : list bytes) (u : Page.ui),
    forallb well_formed es = true ->
    units16 m = true ->
    concat chunks = concat (map wire_chunk (es ++ [Error m])) ->
    let before := fold_left deliver es u in
    let v := Page.view (Page.read_loop u chunks) in
    Page.generationProgress v = Page.generationProgress before
    /\ Page.timers v = Page.timers before
    /\ Page.generatedPoses v = Page.generatedPoses before
    /\ Page.frames v = Page.frames before
    /\ Page.generatedImages v = Page.generatedImages before
    /\ Page.console v =
       Page.console before
       ++ [Page.ParsingLine (text (Error m));
           Page.FailedToParse (text (Error m)) (ThrowError m)].
Proof.
  intros engine es m chunks u Hwf Hm Hchunks before v. subst before v.
  assert (Hall : forallb well_formed (es ++ [Error m]) = true).
  { rewrite forallb_app, Hwf. cbn [forallb well_formed]. rewrite Hm. reflexivity. }
  destruct (PageFacts.read_events engine (es ++ [Error m]) chunks u Hall Hchunks) as (d & ->).
  cbn [Page.view]. rewrite fold_left_app. cbn [fold_left].
  rewrite PageFacts.deliver_error.
  cbn [Page.generationProgress Page.timers Page.generatedPoses Page.frames
       Page.generatedImages Page.console Page.log].
  rewrite <- app_assoc. repeat split.
Qed.

Lemma an_error_event_reaches_only_the_console_witness :
  let chunks := Demo.bytewise (map wire_chunk (Samples.four_events ++ [Error (lit "quota")])) in
  let before := fold_left (deliver (engine := Demo.engine)) Samples.four_events Page.mount in
  let v := Page.view (Page.read_loop (engine := Demo.engine) Page.mount chunks) in
  Page.generationProgress v = Page.generationProgress before
  /\ Page.timers v = Page.timers before
  /\ Page.generatedPoses v = Page.generatedPoses before
  /\ Page.frames v = Page.frames before
  /\ Page.generatedImages v = Page.generatedImages before
  /\ Page.console v =
     Page.console before
     ++ [Page.ParsingLine (text (Error (lit "quota")));
         Page.FailedToParse (text (Error (lit "quota"))) (ThrowError (lit "quota"))].
Proof.
  apply (an_error_event_reaches_only_the_console Demo.engine Samples.four_events
           (lit "quota")
           (Demo.bytewise (map wire_chunk (Samples.four_events ++ [Error (lit "quota")])))
           Page.mount).
  - reflexivity.
  - reflexivity.
  - vm_compute. reflexivity.
Defined.

(** X29.  Text after the last delimiter is never handled: when the body
    ends with text that no delimiter follows (here plain ASCII without a
    line feed, be it a complete payload), the events before it are
    delivered and the text stays in the buffer, which is dropped when the
    reader reports the end. *)
Theorem text_after_the_last_delimiter_is_dropped :
  forall (engine : Engine) (es : list ProgressEvent) (tail : jsstring)
         (chunks : list bytes) (u : Page.ui),
    forallb well_formed es = true ->
    forallb (fun c => (c <? 128) && negb (c =? 10)) tail = true ->
    concat chunks = concat (map wire_chunk es) ++ TextEncoder_encode tail ->
    Page.view (Page.read_loop u chunks) = fold_left deliver es u
    /\ Page.buffer (Page.read_loop u chunks) = tail.
Proof.
  intros engine es tail chunks u Hwf Htail Hchunks.
  destruct (ClientFacts.plain_low tail Htail) as (Hlow & Hnl & Hhead).
  set (w := wire es ++ tail).
  assert (Hpaired : paired w = true).
  { subst w. rewrite ClientFacts.paired_wire_app by exact Hwf.
    rewrite <- (app_nil_r tail). rewrite EventFacts.paired_literal by exact Hlow.
    reflexivity. }
  assert (Hbytes : concat chunks = TextEncoder_encode w).
  { rewrite Hchunks. subst w.
    rewrite PageFacts.chunks_of_wire by exact Hwf.
    rewrite (BytesFacts.encode_app (wire es)) by (apply PageFacts.paired_wire; exact Hwf).
    reflexivity. }
  assert (Hdecoded : exists d,
            TextDecoder_decode TextDecoder_new (TextEncoder_encode w) = (d, w)).
  { assert (Hstart : w = [] \/ exists c w', w = c :: w' /\ c <= 127).
    { subst w. destruct (WireFacts.wire_starts es) as [->|(w1 & ->)].
      - destruct Hhead as [->|(c & j & -> & Hc)]; [left; reflexivity|].
        right. eexists _, _. split; [reflexivity|exact Hc].
      - right. eexists _, _. split; [reflexivity|]. lia. }
    destruct Hstart as [Hw|(c & w' & Hw & Hc)]; rewrite Hw in Hpaired |- *.
    - eexists. reflexivity.
    - eexists. apply BytesFacts.decode_encode_new; [exact Hc|].
      rewrite JSONFacts.paired_low in Hpaired by lia. exact Hpaired. }
  destruct Hdecoded as (d & Hdecoded).
  rewrite PageFacts.read_loop_after, Hbytes, Hdecoded.
  unfold after. cbn [Page.view Page.buffer].
  assert (Hsplit : split w Page.delimiter = map text es ++ [tail]).
  { change Page.delimiter with delimiter. subst w.
    rewrite ClientFacts.split_wire_app. f_equal.
    unfold delimiter. rewrite JSFacts.split_unfold.
    rewrite SplitFacts.cut_absent by exact Hnl. reflexivity. }
  rewrite Hsplit, removelast_last, last_last, PageFacts.fold_process.
  split; reflexivity.
Qed.

Lemma text_after_the_last_delimiter_is_dropped_witness :
  Page.view (Page.read_loop (engine := Demo.engine) Page.mount
               [wire_chunk (Poses (Some (lit "[]")));
                TextEncoder_encode (text Complete)])
  = fold_left (deliver (engine := Demo.engine)) [Poses (Some (lit "[]"))] Page.mount
  /\ Page.buffer (Page.read_loop (engine := Demo.engine) Page.mount
                    [wire_chunk (Poses (Some (lit "[]")));
                     TextEncoder_encode (text Complete)])
     = text Complete.
Proof.
  apply (text_after_the_last_delimiter_is_dropped Demo.engine [Poses (Some (lit "[]"))]
           (text Complete)
           [wire_chunk (Poses (Some (lit "[]"))); TextEncoder_encode (text Complete)]
           Page.mount).
  - reflexivity.
  - vm_compute. reflexivity.
  - vm_compute. reflexivity.
Defined.
